(** * Scaling plots: the metric engine, the filter and aggregation steps,
      the series assembler and the command-line drivers of
      [scaling_plot.py] and [scaling_plot_categorical.py].

    Python floats and numpy [float64] cells are IEEE-754 binary64 numbers;
    they are modelled with the executable specification [SpecFloat] of the
    standard library at precision 53 and maximal exponent 1024.  A pandas
    [DataFrame] is the list of its rows, a [Series] the list of its cells
    in row order.  Exceptions are values of [exn] carried by a sum type;
    the effects of a run (reading the worksheet, printing, creating
    directories, saving or showing a figure) are recorded in a [World]
    threaded through a state-and-error monad.

    The scripts call [DataFrame.sort], so the pandas they run on has the
    plain grouped mean (a running sum divided by a count).  A [dict] is
    traversed in insertion order.

    The file system and the backend of matplotlib are collaborators of a
    run, like the table loader: [os.path.exists], [os.makedirs],
    [plt.figure] and [plt.savefig] answer as the world decides, and the
    last three may raise.  Of the drawing calls the model keeps the checks
    on their arguments: [ax.bar] refuses heights that do not broadcast on
    the positions, [ax.plot] two sequences of different lengths, and
    [set_xlim] / [set_ylim] a limit that is NaN or infinite, each with
    [ValueError]; labels, ticks, legends, [plt.show], [plt.close] and
    [print] return.  A figure is the list of the [ax.bar] / [ax.plot]
    calls of the plotting loop, with its labels and limits; sizes and
    styles of lines are left out. *)

From Stdlib Require Import ZArith List String Ascii Bool Lia Permutation FinFun.
From Stdlib Require Import Sorted Structures.OrderedTypeEx.
From Stdlib Require Import Floats.SpecFloat.
Import ListNotations.

Local Open Scope string_scope.
Local Open Scope Z_scope.
Local Open Scope list_scope.

(** ** Binary64 arithmetic *)

Module F64.

Definition prec : Z := 53.
Definition emax : Z := 1024.

Definition float : Type := spec_float.

Definition div : float -> float -> float := SFdiv prec emax.
Definition mul : float -> float -> float := SFmul prec emax.
Definition add : float -> float -> float := SFadd prec emax.
Definition ltb : float -> float -> bool := SFltb.
Definition leb : float -> float -> bool := SFleb.

(** Conversion of an integer ([int64] cell, [int] literal or count). *)
Definition of_Z (n : Z) : float := binary_normalize prec emax n 0 false.

Definition zero : float := S754_zero false.
Definition one : float := Eval vm_compute in of_Z 1.
Definition nan : float := S754_nan.

Definition is_nan (x : float) : bool :=
  match x with S754_nan => true | _ => false end.

(** A decimal literal [n/d] of the source, e.g. [1.2] is [lit 12 10]:
    the binary64 number nearest to the quotient. *)
Definition lit (n d : Z) : float := div (of_Z n) (of_Z d).

(** The cells a spreadsheet can hold: canonical binary64 numbers. *)
Definition valid (x : float) : bool := valid_binary prec emax x.

(** A finite, strictly positive number. *)
Definition finite_pos (x : float) : bool :=
  match x with
  | S754_finite false m e => bounded prec emax m e
  | _ => false
  end.

(** A number that is neither NaN nor infinite. *)
Definition is_finite (x : float) : bool :=
  match x with
  | S754_zero _ | S754_finite _ _ _ => true
  | _ => false
  end.

(** Python's [bool(x)] on a float: everything but a zero is true. *)
Definition truthy (x : float) : bool :=
  match x with S754_zero _ => false | _ => true end.

End F64.

Definition float : Type := F64.float.

(** ** The integer view of binary64 rounding

    Notions used to state what [SFdiv] computes: quotients and remainders
    of integers for the truncations, and values counted on the grid of
    the least positive number. *)

Definition loc_of_rem (r P : Z) : location :=
  if r =? 0 then loc_Exact else loc_Inexact (Z.compare (2 * r) P).

(** [mrs] holds the quotient of [N] by [P] and the place of the remainder
    with respect to the middle of [P]. *)
Definition represents (N P : Z) (mrs : shr_record) : Prop :=
  0 <= N /\ 0 < P /\ shr_m mrs = N / P
  /\ loc_of_shr_record mrs = loc_of_rem (N mod P) P.

Definition fexp64 (e : Z) : Z := fexp F64.prec F64.emax e.

(** The exponent at which the quotient is first computed. *)
Definition div_exponent (mt : positive) (et : Z) (mw : positive) (ew : Z) : Z :=
  Z.min (fexp64 (Z.pos (digits2_pos mt) + et - (Z.pos (digits2_pos mw) + ew)))
        (et - ew).

(** The numerator, shifted so that the quotient has enough bits. *)
Definition div_numerator (mt : positive) (et : Z) (mw : positive) (ew : Z) : Z :=
  Z.pos mt * 2 ^ (et - ew - div_exponent mt et mw ew).

(** The number built from the rounded mantissa and its exponent. *)
Definition finish (m e : Z) : float :=
  match m with
  | 0 => S754_zero false
  | Z.pos p => if e <=? 971 then S754_finite false p e else S754_infinity false
  | Z.neg _ => S754_nan
  end.

(** Zero at the least exponent, or a mantissa at its canonical exponent
    (with no upper bound on the exponent). *)
Definition canonical_or_zero (m e : Z) : Prop :=
  (m = 0 /\ e = -1074) \/ (0 < m /\ fexp64 (Zdigits2 m + e) = e).

(** [m * 2^e] counted in units of [2^-1074]. *)
Definition scaled (m e : Z) : Z := m * 2 ^ (e + 1074).

(** ** Exceptions *)

Record exn : Type := Raise { exn_class : string; exn_msg : string }.

Definition result (A : Type) : Type := (exn + A)%type.

Definition ok {A} (a : A) : result A := inr a.
Definition raise {A} (e : exn) : result A := inl e.

Definition rbind {A B} (m : result A) (k : A -> result B) : result B :=
  match m with
  | inl e => inl e
  | inr a => k a
  end.

Declare Scope result_scope.
Delimit Scope result_scope with result.
Notation "x <- m ;; k" := (rbind m (fun x => k))
  (at level 61, m at next level, right associativity) : result_scope.

(** ** Tables *)

(** One row of the results worksheet.  [group] is the key column ([None]
    is a blank cell), [compute_elements] the integer count of compute
    elements, [walltime] a binary64 cell (NaN when blank) and
    [filter_value] the cell of the optional filter column, which is read
    only when [--filter_column] names it. *)
Record Row : Type := mkRow {
  group : option string;
  compute_elements : Z;
  walltime : float;
  filter_value : float
}.

Definition DataFrame : Type := list Row.
Definition Series (A : Type) : Type := list A.

(** [rdf[c]]: a column of the frame. *)
Definition column {R A} (c : R -> A) (rdf : list R) : Series A := map c rdf.

(** [rdf.loc[mask]] with a boolean mask computed row by row. *)
Definition loc {R} (mask : R -> bool) (rdf : list R) : list R := filter mask rdf.

(** The exception of [float(series)] on a series that does not hold
    exactly one cell. *)
Definition not_one_row : exn :=
  Raise "TypeError" "cannot convert the series to <class 'float'>".

(** [float(series)]: pandas converts a series of exactly one cell and
    raises [TypeError] for any other length. *)
Definition series_to_float (s : Series float) : result float :=
  match s with
  | [x] => ok x
  | _ => raise not_one_row
  end.

(** [t / series], [series * series] (an integer column is cast to
    [float64] first). *)
Definition scalar_rdiv (t : float) (s : Series float) : Series float :=
  map (fun x => F64.div t x) s.

Fixpoint series_mul (a : Series float) (b : Series Z) : Series float :=
  match a, b with
  | x :: a', n :: b' => F64.mul x (F64.of_Z n) :: series_mul a' b'
  | _, _ => []
  end.

(** ** Metric engine *)

Definition calculate_speedup_and_efficiency
    (rdf : DataFrame) (compute_element_col_index : Row -> Z)
    (time_col_index : Row -> float)
  : result (Series float * Series float * Series float) :=
  (t1 <- series_to_float
           (column time_col_index
              (loc (fun r => Z.eqb (compute_element_col_index r) 1) rdf)) ;;
   let speedup := scalar_rdiv t1 (column time_col_index rdf) in
   let strong_efficiency :=
     scalar_rdiv t1 (series_mul (column time_col_index rdf)
                                (column compute_element_col_index rdf)) in
   let weak_efficiency := scalar_rdiv t1 (column time_col_index rdf) in
   ok (speedup, strong_efficiency, weak_efficiency))%result.

(** ** Strings and paths *)

Definition str_nonempty (s : string) : bool :=
  match s with EmptyString => false | String _ _ => true end.

Definition slash : ascii := "/"%char.

(** [p[:i], p[i:]] with [i = p.rfind('/') + 1]. *)
Fixpoint rsplit_slash (p : string) : string * string :=
  match p with
  | EmptyString => (EmptyString, EmptyString)
  | String c rest =>
      let (h, t) := rsplit_slash rest in
      if str_nonempty h then (String c h, t)
      else if Ascii.eqb c slash then (String c EmptyString, rest)
      else (EmptyString, String c rest)
  end.

(** [s.rstrip('/')]. *)
Fixpoint rstrip_slash (s : string) : string :=
  match s with
  | EmptyString => EmptyString
  | String c r =>
      let r' := rstrip_slash r in
      if Ascii.eqb c slash && negb (str_nonempty r') then EmptyString
      else String c r'
  end.

Fixpoint has_slash (s : string) : bool :=
  match s with
  | EmptyString => false
  | String c r => Ascii.eqb c slash || has_slash r
  end.

(** [os.path.split] (posixpath): a head made of slashes only is kept,
    any other head loses its trailing slashes. *)
Definition path_split (p : string) : string * string :=
  let (head, tail) := rsplit_slash p in
  if str_nonempty head && str_nonempty (rstrip_slash head)
  then (rstrip_slash head, tail)
  else (head, tail).

Definition starts_with_slash (s : string) : bool :=
  match s with String c _ => Ascii.eqb c slash | EmptyString => false end.

Fixpoint ends_with_slash (s : string) : bool :=
  match s with
  | EmptyString => false
  | String c EmptyString => Ascii.eqb c slash
  | String _ r => ends_with_slash r
  end.

(** [os.path.join(a, b)] (posixpath, two components). *)
Definition path_join (a b : string) : string :=
  if starts_with_slash b then b
  else if negb (str_nonempty a) || ends_with_slash a then (a ++ b)%string
  else (a ++ "/" ++ b)%string.

Definition add_optional_prefix (base_string : string) (prefix : option string)
    (separator : string) : string :=
  match prefix with
  | Some p => if str_nonempty p then (p ++ separator ++ base_string)%string
              else base_string
  | None => base_string
  end.

(** ** Figures and the outside world *)

Inductive Ticks : Type :=
| IntTicks (xs : list Z)
| NameTicks (xs : list string).

(** One [ax.bar] or [ax.plot] call of a plotting loop. *)
Record Artist : Type := mkArtist {
  art_values : Series float;
  art_colour : string;
  art_label : string
}.

Record Figure : Type := mkFigure {
  fig_title : string;
  fig_xlabel : string;
  fig_ylabel : string;
  fig_ticks : Ticks;
  fig_xmax : option float;
  fig_ymax : float;
  fig_artists : list Artist
}.

Inductive Event : Type :=
| EvStyle (name : string)
| EvReadExcel (file sheet : string) (usecols : list string)
| EvPrint (line : string)
| EvMakedirs (dir : string)
| EvTightLayout
| EvSavefig (path : string) (fig : Figure)
| EvClose
| EvShow (fig : Figure).

(** A row of the worksheet read by the categorical variant. *)
Record CatRow : Type := mkCatRow {
  category : option string;
  cat_walltime : float;
  cat_filter_value : float
}.

(** What a run can observe and change: the table loader (an external
    collaborator answering [pd.read_excel], for the worksheet layout of
    either script), the style library of matplotlib, the file system and
    the chronological list of the effects performed so far.  The file
    system and the backend of matplotlib are external collaborators too:
    [os_path_exists], [os_makedirs], [plt_figure] and [plt_savefig] give
    the answers of [os.path.exists], [os.makedirs],
    [plt.figure(figsize=(width, width * 3 / 4))] and [plt.savefig] after
    the effects listed in their first argument; the last three may
    raise. *)
Record World : Type := mkWorld {
  read_excel : string -> string -> list string -> result (list Row);
  read_excel_categorical :
    string -> string -> list string -> result (list CatRow);
  style_library : list string;
  os_path_exists : list Event -> string -> bool;
  os_makedirs : list Event -> string -> result unit;
  plt_figure : list Event -> Z -> result unit;
  plt_savefig : list Event -> string -> Figure -> result unit;
  trace : list Event
}.

(** The same collaborators after other effects. *)
Definition with_trace (w : World) (t : list Event) : World :=
  mkWorld (read_excel w) (read_excel_categorical w) (style_library w)
          (os_path_exists w) (os_makedirs w) (plt_figure w) (plt_savefig w) t.

Definition emit (e : Event) (w : World) : World :=
  with_trace w (trace w ++ [e]).

Definition IO (A : Type) : Type := World -> result A * World.

Definition ret {A} (a : A) : IO A := fun w => (inr a, w).
Definition throw {A} (e : exn) : IO A := fun w => (inl e, w).
Definition bind {A B} (m : IO A) (k : A -> IO B) : IO B :=
  fun w => match m w with
           | (inl e, w') => (inl e, w')
           | (inr a, w') => k a w'
           end.
Definition lift {A} (r : result A) : IO A := fun w => (r, w).
Definition perform (e : Event) : IO unit := fun w => (inr tt, emit e w).

Declare Scope io_scope.
Delimit Scope io_scope with io.
Notation "x <- m ;; k" := (bind m (fun x => k))
  (at level 61, m at next level, right associativity) : io_scope.
Notation "m ;;; k" := (bind m (fun _ => k))
  (at level 61, right associativity) : io_scope.

(** [try: body except <classes>: handler]; [handles e] tells whether the
    clause matches the exception. *)
Definition try_except {A} (body : IO A) (handles : exn -> bool)
    (handler : exn -> IO A) : IO A :=
  fun w => match body w with
           | (inl e, w') => if handles e then handler e w' else (inl e, w')
           | (inr a, w') => (inr a, w')
           end.

Fixpoint mapM {A B} (f : A -> IO B) (l : list A) : IO (list B) :=
  match l with
  | [] => ret []
  | x :: l' => (y <- f x ;; ys <- mapM f l' ;; ret (y :: ys))%io
  end.

Definition print (line : string) : IO unit := perform (EvPrint line).

(** [matplotlib.style.use]: an unknown style name raises [OSError]. *)
Definition style_use (name : string) : IO unit :=
  fun w =>
    if existsb (String.eqb name) (style_library w)
    then perform (EvStyle name) w
    else throw (Raise "OSError"
                  ("'" ++ name ++ "' not found in the style library")) w.

(** [os.path.exists], [os.makedirs] and [plt.savefig]: the file system
    answers; a call that returns is recorded, a call that raises ends the
    run with the exception of the file system. *)
Definition path_exists (d : string) : IO bool :=
  fun w => (inr (os_path_exists w (trace w) d), w).

Definition makedirs (d : string) : IO unit :=
  fun w => match os_makedirs w (trace w) d with
           | inl e => (inl e, w)
           | inr _ => (inr tt, emit (EvMakedirs d) w)
           end.

Definition savefig (path : string) (fig : Figure) : IO unit :=
  fun w => match plt_savefig w (trace w) path fig with
           | inl e => (inl e, w)
           | inr _ => (inr tt, emit (EvSavefig path fig) w)
           end.

Definition read_dataframe_from_excel (filename worksheet : string)
    (usecols : list string) : IO (list Row) :=
  fun w => (read_excel w filename worksheet usecols,
            emit (EvReadExcel filename worksheet usecols) w).

(** The directory, file name and final path computed by [save]. *)
Definition save_directory (path : string) : string :=
  let directory := fst (path_split path) in
  if String.eqb directory EmptyString then "." else directory.

Definition save_filename (path ext : string) : string :=
  (snd (path_split path) ++ "." ++ ext)%string.

Definition savepath (path ext : string) : string :=
  path_join (save_directory path) (save_filename path ext).

(** [save]: the pyplot current figure is passed explicitly as [fig]. *)
Definition save (fig : Figure) (path ext : string) (close verbose : bool)
  : IO unit :=
  (let directory := save_directory path in
   there <- path_exists directory ;;
   (if negb there then makedirs directory else ret tt) ;;;
   let savepath := savepath path ext in
   (if verbose then print ("Saving figure to '" ++ savepath ++ "'...")
    else ret tt) ;;;
   savefig savepath fig ;;;
   (if close then perform EvClose else ret tt) ;;;
   (if verbose then print "Done" else ret tt))%io.

(** ** Chart renderer (the plotting loops and the show-or-save switch) *)

(** Python's [zip] of three sequences stops at the shortest one. *)
Fixpoint zip3 {A B C} (a : list A) (b : list B) (c : list C)
  : list (A * B * C) :=
  match a, b, c with
  | x :: a', y :: b', z :: c' => (x, y, z) :: zip3 a' b' c'
  | _, _, _ => []
  end.

Definition draw (t : Series float * string * string) : Artist :=
  let '(values, colour, name) := t in mkArtist values colour name.

Definition show_or_save (show : bool) (fig : Figure)
    (file_name file_extension : string) : IO unit :=
  if show then perform (EvShow fig)
  else save fig file_name file_extension true true.

(** [plt.figure(figsize=plot_size)] followed by [fig.add_subplot(111)];
    [plot_size] is [(width, width * 3 / 4)] and is given by its width. *)
Definition figure (plot_size : Z) : IO unit :=
  fun w => (plt_figure w (trace w) plot_size, w).

(** [ax.set_xlim] and [ax.set_ylim]: matplotlib refuses a limit that is
    NaN or infinite.  The lower limit of every call below is [0], a tick
    position, a tick or the upper limit itself, so that only the upper
    limit can be refused. *)
Definition set_lim (upper : float) : IO unit :=
  if F64.is_finite upper then ret tt
  else throw (Raise "ValueError" "Axis limits cannot be NaN or Inf").

(** [ax.bar(x, height, ...)] on an array of positions: numpy broadcasts
    the heights on the positions, and refuses when the two lengths differ
    and neither is one. *)
Definition broadcasts (positions : nat) (values : Series float) : bool :=
  Nat.eqb (List.length values) positions
  || Nat.eqb (List.length values) 1
  || Nat.eqb positions 1.

Definition ax_bar (positions : nat) (t : Series float * string * string)
  : IO Artist :=
  if broadcasts positions (fst (fst t)) then ret (draw t)
  else throw (Raise "ValueError"
                "shape mismatch: objects cannot be broadcast to a single shape").

(** [ax.plot(x, y, ...)]: the two sequences must have the same length. *)
Definition ax_plot (points : nat) (t : Series float * string * string)
  : IO Artist :=
  if Nat.eqb (List.length (fst (fst t))) points then ret (draw t)
  else throw (Raise "ValueError" "x and y must have same first dimension").

Definition plot_walltime (series : list (Series float)) (colours : list string)
    (series_names : list string) (compute_elements : list Z) (ymax : float)
    (plot_size : Z)
    (xlabel ylabel title file_name file_extension : string) (show : bool)
  : IO unit :=
  (figure plot_size ;;;
   (* bar_width = group_width / bars_per_group *)
   (if Nat.eqb (List.length series) 0
    then throw (Raise "ZeroDivisionError" "float division by zero")
    else ret tt) ;;;
   (* plot_left = x_ind[0] - group_width *)
   (if Nat.eqb (List.length compute_elements) 0
    then throw (Raise "IndexError" "index 0 is out of bounds for axis 0 with size 0")
    else ret tt) ;;;
   artists <- mapM (ax_bar (List.length compute_elements))
                (zip3 series colours series_names) ;;
   (* ax.set_ylim(0, ymax) *)
   set_lim ymax ;;;
   let fig := mkFigure title xlabel ylabel (IntTicks compute_elements) None ymax
                artists in
   show_or_save show fig file_name file_extension)%io.

Definition plot_speedup (series : list (Series float)) (colours : list string)
    (series_names : list string) (compute_elements : list Z) (xmax ymax : float)
    (plot_size : Z)
    (xlabel ylabel title file_name file_extension : string) (show : bool)
  : IO unit :=
  (figure plot_size ;;;
   (* ax.set_xlim(plot_left, plot_right); ax.set_ylim(plot_left, ymax) *)
   set_lim xmax ;;;
   set_lim ymax ;;;
   artists <- mapM (ax_plot (List.length compute_elements))
                (zip3 series colours series_names) ;;
   let fig := mkFigure title xlabel ylabel (IntTicks compute_elements)
                (Some xmax) ymax artists in
   show_or_save show fig file_name file_extension)%io.

Definition plot_efficiency (series : list (Series float)) (colours : list string)
    (series_names : list string) (compute_elements : list Z) (xmax ymax : float)
    (plot_size : Z)
    (xlabel ylabel title file_name file_extension : string) (show : bool)
  : IO unit :=
  (figure plot_size ;;;
   (* ax.set_xlim(plot_left, plot_right); ax.set_ylim(0, ymax) *)
   set_lim xmax ;;;
   set_lim ymax ;;;
   artists <- mapM (ax_plot (List.length compute_elements))
                (zip3 series colours series_names) ;;
   let fig := mkFigure title xlabel ylabel (IntTicks compute_elements)
                (Some xmax) ymax artists in
   show_or_save show fig file_name file_extension)%io.

(** ** Filter and aggregate *)

Definition notnull {A} (c : option A) : bool :=
  match c with Some _ => true | None => false end.

(** [series.mean()] as the grouped mean of pandas computes it: the cells
    that are not NaN are summed in row order from [0.0] and the sum is
    divided by their count; no such cell gives NaN. *)
Definition mean (s : Series float) : float :=
  let vals := filter (fun x => negb (F64.is_nan x)) s in
  match vals with
  | [] => F64.nan
  | _ => F64.div (fold_left F64.add vals F64.zero)
                 (F64.of_Z (Z.of_nat (List.length vals)))
  end.

(** [series.unique()]: the distinct cells in order of first appearance. *)
Fixpoint unique {A} (eqb : A -> A -> bool) (l : list A) : list A :=
  match l with
  | [] => []
  | x :: l' => x :: filter (fun y => negb (eqb x y)) (unique eqb l')
  end.

Section Sort.
Context {A : Type}.
Variable le : A -> A -> bool.

Fixpoint insert_sorted (x : A) (l : list A) : list A :=
  match l with
  | [] => [x]
  | y :: l' => if le x y then x :: l else y :: insert_sorted x l'
  end.

(** A stable ascending sort. *)
Definition sort (l : list A) : list A := fold_right insert_sorted [] l.
End Sort.

Section GroupBy.
(** [rdf.groupby(keys).mean().reset_index()] for rows of type [R] with
    key cells of type [K]: one row per distinct key, in ascending key
    order; rows with a blank key are left out. *)
Context {R K : Type}.
Variable key_compare : K -> K -> comparison.
Variable key : R -> option K.
Variable time filt : R -> float.
Variable rebuild : K -> float -> float -> R.

Definition same_key (k k' : K) : bool :=
  match key_compare k k' with Eq => true | _ => false end.

Definition key_leb (k k' : K) : bool :=
  match key_compare k k' with Gt => false | _ => true end.

(** The key cells that are not blank, in row order. *)
Definition present_keys (rdf : list R) : list K :=
  flat_map (fun r => match key r with Some k => [k] | None => [] end) rdf.

Definition sorted_keys (rdf : list R) : list K :=
  sort key_leb (unique same_key (present_keys rdf)).

Definition members (k : K) (rdf : list R) : list R :=
  loc (fun r => match key r with
                | Some k' => same_key k k'
                | None => false
                end) rdf.

Definition groupby_mean (rdf : list R) : list R :=
  map (fun k => rebuild k (mean (column time (members k rdf)))
                          (mean (column filt (members k rdf))))
      (sorted_keys rdf).
End GroupBy.

Definition group_ce_compare (a b : string * Z) : comparison :=
  match String.compare (fst a) (fst b) with
  | Eq => Z.compare (snd a) (snd b)
  | c => c
  end.

Definition group_ce_key (r : Row) : option (string * Z) :=
  match group r with
  | Some g => Some (g, compute_elements r)
  | None => None
  end.

(** [results[results.group.notnull() & (results.walltime > 0)]] *)
Definition filter_incomplete (results : DataFrame) : DataFrame :=
  loc (fun r => notnull (group r) && F64.ltb F64.zero (walltime r)) results.

(** [results[results[args.filter_column] > 0]] *)
Definition apply_filter_column (filter_column : string) (results : DataFrame)
  : DataFrame :=
  if str_nonempty filter_column
  then loc (fun r => F64.ltb F64.zero (filter_value r)) results
  else results.

(** [results.groupby(['group','compute_elements']).mean().reset_index()] *)
Definition aggregate (results : DataFrame) : DataFrame :=
  groupby_mean group_ce_compare group_ce_key walltime filter_value
    (fun k w f => mkRow (Some (fst k)) (snd k) w f) results.

Definition option_string_eqb (a b : option string) : bool :=
  match a, b with
  | Some x, Some y => String.eqb x y
  | None, None => true
  | _, _ => false
  end.

(** The cells of a column that are not blank, in row order. *)
Definition some_cells {A} (l : list (option A)) : list A :=
  flat_map (fun c => match c with Some x => [x] | None => [] end) l.

(** Whether the group of row [r] has a row at [compute_elements == 1]. *)
Definition has_reference (results : DataFrame) (r : Row) : bool :=
  existsb (fun r1 => option_string_eqb (group r1) (group r)
                     && (compute_elements r1 =? 1)) results.

(** ** [scaling_plot.py] *)

Record Args : Type := mkArgs {
  results_file : string;
  worksheet_name : string;
  compute_element_name : string;
  walltime_units : string;
  filter_column : string;
  title_prefix : option string;
  file_prefix : option string;
  window : bool;
  plot_width : Z;
  speedup_max : float;
  weak : bool;
  style : string
}.

(** [get_args] on a command line that gives the results file only: the
    defaults of the parser. *)
Definition default_args (results_file : string) : Args :=
  mkArgs results_file "results" "Threads" "Minutes" EmptyString None None
         false 10 (F64.lit 161 10) false EmptyString.

(** The palette of the main block (CSIRO colours). *)
Definition colours : list string :=
  [ "#00a9ce"; "#78be20"; "#DF1995"; "#E87722"; "#E4002B";
    "#00616c"; "#FFB81C"; "#6D2077"; "#1E22AA" ].

(** A group's frame once the three metric columns have been assigned. *)
Record GroupData : Type := mkGroupData {
  gd_rows : DataFrame;
  gd_speedup : Series float;
  gd_strong_efficiency : Series float;
  gd_weak_efficiency : Series float
}.

(** A [dict] in insertion order; assigning an existing key keeps its place. *)
Fixpoint dict_set {V} (d : list (string * V)) (k : string) (v : V)
  : list (string * V) :=
  match d with
  | [] => [(k, v)]
  | (k', v') :: d' =>
      if String.eqb k k' then (k', v) :: d' else (k', v') :: dict_set d' k v
  end.

(** The loop creating one frame per group, sorted by compute elements. *)
Definition split_groups (results : DataFrame) : list (string * DataFrame) :=
  fold_left
    (fun group_dataframes g =>
       match g with
       | Some name =>
           let df := loc (fun r => option_string_eqb (group r) (Some name))
                         results in
           if negb (Nat.eqb (List.length df) 0)
           then dict_set group_dataframes name
                  (sort (fun a b => compute_elements a <=? compute_elements b) df)
           else group_dataframes
       | None => group_dataframes
       end)
    (unique option_string_eqb (column group results)) [].

(** The loop assigning the metric columns of every group. *)
Definition add_metrics (group_dataframes : list (string * DataFrame))
  : IO (list (string * GroupData)) :=
  mapM (fun nd : string * DataFrame =>
          (m <- lift (calculate_speedup_and_efficiency (snd nd)
                        compute_elements walltime) ;;
           let '(speedup, strong_efficiency, weak_efficiency) := m in
           ret (fst nd,
                mkGroupData (snd nd) speedup strong_efficiency
                            weak_efficiency))%io)
       group_dataframes.

(** Python's [max] over a sequence of floats. *)
Definition py_max (s : Series float) : result float :=
  match s with
  | [] => raise (Raise "ValueError" "max() arg is an empty sequence")
  | x :: s' => ok (fold_left (fun m y => if F64.ltb m y then y else m) s' x)
  end.

(** [array.max()] of numpy. *)
Definition np_max (a : list Z) : result Z :=
  match a with
  | [] => raise (Raise "ValueError"
             "zero-size array to reduction operation maximum which has no identity")
  | x :: a' => ok (fold_left Z.max a' x)
  end.

(** The collections handed to the charts. *)
Record Assembled : Type := mkAssembled {
  walltimes : list (Series float);
  strong_efficiencies : list (Series float);
  weak_efficiencies : list (Series float);
  speedups : list (Series float);
  series_names : list string;
  max_walltime : float
}.

Definition assemble_step (acc : Assembled) (item : string * GroupData)
  : result Assembled :=
  let (name, data) := item in
  (local_max_walltime <- py_max (column walltime (gd_rows data)) ;;
   ok (mkAssembled
         (walltimes acc ++ [column walltime (gd_rows data)])
         (strong_efficiencies acc ++ [gd_strong_efficiency data])
         (weak_efficiencies acc ++ [gd_weak_efficiency data])
         (speedups acc ++ [gd_speedup data])
         (series_names acc ++ [name])
         (if F64.ltb (max_walltime acc) local_max_walltime
          then local_max_walltime else max_walltime acc)))%result.

Fixpoint assemble_from (acc : Assembled) (items : list (string * GroupData))
  : result Assembled :=
  match items with
  | [] => ok acc
  | item :: items' =>
      (acc' <- assemble_step acc item ;; assemble_from acc' items')%result
  end.

Definition assemble (group_dataframes : list (string * GroupData))
  : result Assembled :=
  assemble_from (mkAssembled [] [] [] [] [] F64.zero) group_dataframes.

(** The columns asked from the loader. *)
Definition usecols (filter_column : string) : list string :=
  ["group"; "compute_elements"; "walltime"]
  ++ (if str_nonempty filter_column then [filter_column] else []).

(** The three statements between the loader and the per-group frames. *)
Definition filter_and_aggregate (filter_column : string) (results : DataFrame)
  : DataFrame :=
  aggregate (apply_filter_column filter_column (filter_incomplete results)).

Definition use_style_silently (style : string) : IO unit :=
  if str_nonempty style
  then try_except (style_use style) (fun _ => true) (fun _ => ret tt)
  else ret tt.

Definition walltime_file (args : Args) : string :=
  add_optional_prefix "walltime" (file_prefix args) "-".
Definition speedup_file (args : Args) : string :=
  add_optional_prefix "speedup" (file_prefix args) "-".
Definition efficiency_file (args : Args) : string :=
  add_optional_prefix
    (if weak args then "weak-efficiency" else "strong-efficiency")
    (file_prefix args) "-".

(** The plot calls that end the main block. *)
Definition make_plots (args : Args) (a : Assembled) (compute_elements : list Z)
  : IO unit :=
  (let show_instead_of_save := window args in
   let plot_size := plot_width args in
   let walltime_title := add_optional_prefix "Walltime" (title_prefix args) " - " in
   let speedup_title := add_optional_prefix "Speedup" (title_prefix args) " - " in
   let efficiency_title :=
     add_optional_prefix "Efficiency" (title_prefix args) " - " in
   plot_walltime (walltimes a) colours (series_names a) compute_elements
     (F64.mul (max_walltime a) (F64.lit 12 10)) plot_size
     (compute_element_name args) (walltime_units args) walltime_title
     (walltime_file args) "png" show_instead_of_save ;;;
   ce_max <- lift (np_max compute_elements) ;;
   plot_efficiency
     (if weak args then weak_efficiencies a else strong_efficiencies a)
     colours (series_names a) compute_elements
     (F64.mul (F64.of_Z ce_max) (F64.lit 11 10)) (F64.lit 13 10) plot_size
     (compute_element_name args) "Efficiency" efficiency_title
     (efficiency_file args) "png" show_instead_of_save ;;;
   if negb (weak args) then
     ce_max <- lift (np_max compute_elements) ;;
     plot_speedup (speedups a) colours (series_names a) compute_elements
       (F64.mul (F64.of_Z ce_max) (F64.lit 105 100)) (speedup_max args) plot_size
       (compute_element_name args) "Speedup" speedup_title
       (speedup_file args) "png" show_instead_of_save
   else ret tt)%io.

Definition main (args : Args) : IO unit :=
  (use_style_silently (style args) ;;;
   let usecols := usecols (filter_column args) in
   results <- read_dataframe_from_excel (results_file args)
                (worksheet_name args) usecols ;;
   let results := filter_and_aggregate (filter_column args) results in
   group_dataframes <- add_metrics (split_groups results) ;;
   let compute_elements :=
     sort Z.leb (unique Z.eqb (column compute_elements results)) in
   a <- lift (assemble group_dataframes) ;;
   make_plots args a compute_elements)%io.

(** ** [scaling_plot_categorical.py] *)

(** The objects a module binds at its top level. *)
Inductive PyObject : Type :=
| PyModule
| PyFunction
| PyStrList (items : list string).

Definition Namespace : Type := list (string * PyObject).

(** The top-level names of [scaling_plot.py].  The assignments of its
    [if __name__ == '__main__':] block are made only when the file is run
    as a script ([as_main]), not when it is imported. *)
Definition scaling_plot_module (as_main : bool) : Namespace :=
  [ ("os", PyModule); ("sys", PyModule); ("pd", PyModule); ("np", PyModule);
    ("matplotlib", PyModule); ("plt", PyModule); ("argparse", PyModule);
    ("get_args", PyFunction); ("save", PyFunction);
    ("read_dataframe_from_excel", PyFunction);
    ("calculate_speedup_and_efficiency", PyFunction);
    ("plot_walltime", PyFunction); ("plot_speedup", PyFunction);
    ("plot_efficiency", PyFunction); ("add_optional_prefix", PyFunction) ]
  ++ (if as_main then [ ("colours", PyStrList colours) ] else []).

Fixpoint namespace_lookup (name : string) (ns : Namespace) : option PyObject :=
  match ns with
  | [] => None
  | (n, o) :: ns' => if String.eqb name n then Some o
                     else namespace_lookup name ns'
  end.

(** [from module import (names)]: the first name the module does not
    bind raises [ImportError]. *)
Fixpoint import_from (module : string) (ns : Namespace) (names : list string)
  : result (list PyObject) :=
  match names with
  | [] => ok []
  | n :: names' =>
      match namespace_lookup n ns with
      | Some o => (os <- import_from module ns names' ;; ok (o :: os))%result
      | None => raise (Raise "ImportError"
                         ("cannot import name '" ++ n ++ "' from '"
                          ++ module ++ "'"))
      end
  end.

Record CatArgs : Type := mkCatArgs {
  c_results_file : string;
  c_worksheet_name : string;
  c_category_column : string;
  c_baseline_category : string;
  c_walltime_units : string;
  c_filter_column : string;
  c_title_prefix : option string;
  c_file_prefix : option string;
  c_file_extension : string;
  c_window : bool;
  c_plot_width : Z;
  c_style : string;
  c_log_scale : bool;
  c_tight : bool
}.

(** A row of the categorical table once [speedup] has been assigned. *)
Record CatResult : Type := mkCatResult {
  cr_row : CatRow;
  cr_speedup : float
}.

(** [series.max()] of pandas: the largest cell that is not NaN, NaN when
    there is none. *)
Definition series_max (s : Series float) : float :=
  match filter (fun x => negb (F64.is_nan x)) s with
  | [] => F64.nan
  | x :: s' => fold_left (fun m y => if F64.ltb m y then y else m) s' x
  end.

Definition cell_name (c : option string) : string :=
  match c with Some s => s | None => "nan" end.

Section Categorical.
(** [COLOURS] and [add_sorted_legend] are imported from [scaling_plot],
    which does not define them: they are parameters here. *)
Variable COLOURS : list string.
Variable add_sorted_legend : Figure -> Figure.

Definition draw_bar (t : nat * float * string * string) : Artist :=
  let '(index, walltime, colour, name) := t in mkArtist [walltime] colour name.

Definition plot_bar (tight : bool) (series : Series float)
    (colours : list string) (series_names : list string) (ymax : float)
    (plot_size : Z)
    (xlabel ylabel title file_name file_extension : string) (show : bool)
  : IO unit :=
  (let x_ind := seq 0 (List.length series) in
   figure plot_size ;;;
   (* plot_left = x_ind[0] - bar_width *)
   (if Nat.eqb (List.length x_ind) 0
    then throw (Raise "IndexError"
                  "index 0 is out of bounds for axis 0 with size 0")
    else ret tt) ;;;
   (* ax.set_ylim(0, ymax) *)
   set_lim ymax ;;;
   let fig := add_sorted_legend
                (mkFigure title xlabel ylabel (NameTicks series_names) None
                   ymax
                   (map draw_bar
                      (zip3 (combine x_ind series) colours series_names))) in
   if show then perform (EvShow fig)
   else ((if tight then perform EvTightLayout else ret tt) ;;;
         save fig file_name file_extension true true))%io.

Definition use_style_or_warn (style : string) : IO unit :=
  if str_nonempty style
  then try_except (style_use style)
         (fun e => String.eqb (exn_class e) "OSError")
         (fun _ => print ("Warning: '" ++ style
                          ++ "' is not a valid matplotlib style. Using default style."))
  else ret tt.

Definition read_categorical (filename worksheet : string)
    (usecols : list string) : IO (list CatRow) :=
  fun w => (read_excel_categorical w filename worksheet usecols,
            emit (EvReadExcel filename worksheet usecols) w).

Definition cat_filter_incomplete (results : list CatRow) : list CatRow :=
  loc (fun r => notnull (category r) && F64.ltb F64.zero (cat_walltime r))
      results.

Definition cat_apply_filter_column (filter_column : string)
    (results : list CatRow) : list CatRow :=
  if str_nonempty filter_column
  then loc (fun r => F64.ltb F64.zero (cat_filter_value r)) results
  else results.

Definition cat_aggregate (results : list CatRow) : list CatRow :=
  groupby_mean String.compare category cat_walltime cat_filter_value
    (fun k w f => mkCatRow (Some k) w f) results.

Definition cat_usecols (category_column filter_column : string)
  : list string :=
  [category_column; "walltime"]
  ++ (if str_nonempty filter_column then [filter_column] else []).

Definition cat_filter_and_aggregate (filter_column : string)
    (results : list CatRow) : list CatRow :=
  cat_aggregate
    (cat_apply_filter_column filter_column (cat_filter_incomplete results)).

(** The speedup step of the main block. *)
Definition cat_speedup (baseline_category : string) (results : list CatRow)
  : result (list CatResult) :=
  (t1 <- series_to_float
           (column cat_walltime
              (loc (fun r => option_string_eqb (category r)
                               (Some baseline_category)) results)) ;;
   ok (map (fun rs => mkCatResult (fst rs) (snd rs))
           (combine results
              (scalar_rdiv t1 (column cat_walltime results)))))%result.

(** The two plot calls that end the main block. *)
Definition cat_make_plots (args : CatArgs) (results : list CatResult)
  : IO unit :=
  (let show_instead_of_save := c_window args in
   let plot_size := c_plot_width args in
   let walltime_title :=
     add_optional_prefix "Walltime" (c_title_prefix args) " - " in
   let speedup_title :=
     add_optional_prefix "Speedup" (c_title_prefix args) " - " in
   let walltime_file :=
     add_optional_prefix "walltime" (c_file_prefix args) "-" in
   let speedup_file :=
     add_optional_prefix "speedup" (c_file_prefix args) "-" in
   let categories := map cell_name (column (fun r => category (cr_row r)) results) in
   plot_bar (c_tight args)
     (column (fun r => cat_walltime (cr_row r)) results) COLOURS categories
     (F64.mul (series_max (column (fun r => cat_walltime (cr_row r)) results))
              (F64.lit 12 10)) plot_size
     (c_category_column args) (c_walltime_units args) walltime_title
     walltime_file (c_file_extension args) show_instead_of_save ;;;
   plot_bar (c_tight args)
     (column cr_speedup results) COLOURS categories
     (F64.mul (series_max (column cr_speedup results)) (F64.lit 12 10)) plot_size
     (c_category_column args) "Speedup" speedup_title
     speedup_file (c_file_extension args) show_instead_of_save)%io.

(** The figures that the two plot calls set up. *)
Definition cat_walltime_figure (args : CatArgs) (results : list CatResult)
  : Figure :=
  add_sorted_legend
    (mkFigure (add_optional_prefix "Walltime" (c_title_prefix args) " - ")
       (c_category_column args) (c_walltime_units args)
       (NameTicks (map cell_name (column (fun r => category (cr_row r)) results)))
       None
       (F64.mul (series_max (column (fun r => cat_walltime (cr_row r)) results))
                (F64.lit 12 10))
       (map draw_bar
          (zip3 (combine (seq 0 (List.length results))
                         (column (fun r => cat_walltime (cr_row r)) results))
                COLOURS
                (map cell_name (column (fun r => category (cr_row r)) results))))).

Definition cat_speedup_figure (args : CatArgs) (results : list CatResult)
  : Figure :=
  add_sorted_legend
    (mkFigure (add_optional_prefix "Speedup" (c_title_prefix args) " - ")
       (c_category_column args) "Speedup"
       (NameTicks (map cell_name (column (fun r => category (cr_row r)) results)))
       None
       (F64.mul (series_max (column cr_speedup results)) (F64.lit 12 10))
       (map draw_bar
          (zip3 (combine (seq 0 (List.length results)) (column cr_speedup results))
                COLOURS
                (map cell_name (column (fun r => category (cr_row r)) results))))).

(** [results[...]["walltime"]] after the grouped mean.  The mean keeps the
    columns that hold numbers: a worksheet without data rows is read with
    columns of type [object], [walltime] is left out of the aggregated
    table and the selection raises [KeyError]. *)
Definition walltime_column (loaded : list CatRow) : IO unit :=
  if Nat.eqb (List.length loaded) 0
  then throw (Raise "KeyError" "'walltime'") else ret tt.

Definition categorical_main (args : CatArgs) : IO unit :=
  (use_style_or_warn (c_style args) ;;;
   let usecols :=
     cat_usecols (c_category_column args) (c_filter_column args) in
   loaded <- read_categorical (c_results_file args) (c_worksheet_name args)
               usecols ;;
   let results := cat_filter_and_aggregate (c_filter_column args) loaded in
   walltime_column loaded ;;;
   results <- lift (cat_speedup (c_baseline_category args) results) ;;
   cat_make_plots args results)%io.

(** The script: its import statement, then the main block. *)
Definition scaling_plot_categorical (scaling_plot : Namespace)
    (args : CatArgs) : IO unit :=
  (lift (import_from "scaling_plot" scaling_plot
           [ "COLOURS"; "add_optional_prefix"; "add_sorted_legend";
             "read_dataframe_from_excel"; "save" ]) ;;;
   categorical_main args)%io.
End Categorical.

(** ** Observations on the effects of a run *)

Definition is_chart (e : Event) : bool :=
  match e with
  | EvSavefig _ _ | EvShow _ => true
  | _ => false
  end.

(** The charts produced: saved to a file or shown in a window. *)
Definition charts (t : list Event) : list Event := filter is_chart t.

Definition saved_files (t : list Event) : list string :=
  flat_map (fun e => match e with EvSavefig p _ => [p] | _ => [] end) t.

Definition shown_figures (t : list Event) : list Figure :=
  flat_map (fun e => match e with EvShow f => [f] | _ => [] end) t.

Definition printed (t : list Event) : list string :=
  flat_map (fun e => match e with EvPrint l => [l] | _ => [] end) t.

Definition files_read (t : list Event) : list string :=
  flat_map (fun e => match e with EvReadExcel f _ _ => [f] | _ => [] end) t.

(** The figures of the charts produced, saved or shown, in order. *)
Definition figures (t : list Event) : list Figure :=
  flat_map (fun e => match e with
                     | EvSavefig _ f | EvShow f => [f]
                     | _ => []
                     end) t.

(** The requests made to the table loader, the styles applied and the
    directories created. *)
Definition read_requests (t : list Event)
  : list (string * string * list string) :=
  flat_map (fun e => match e with
                     | EvReadExcel f s c => [(f, s, c)]
                     | _ => []
                     end) t.

Definition styles_applied (t : list Event) : list string :=
  flat_map (fun e => match e with EvStyle n => [n] | _ => [] end) t.

Definition created_directories (t : list Event) : list string :=
  flat_map (fun e => match e with EvMakedirs d => [d] | _ => [] end) t.

(** The number of calls of [plt.tight_layout]. *)
Definition tight_layouts (t : list Event) : nat :=
  List.length
    (filter (fun e => match e with EvTightLayout => true | _ => false end) t).

(** The effects of a [save] that returns, after the effects [t]: the
    directory is made when [os.path.exists] answers false for it. *)
Definition save_events (w : World) (t : list Event) (fig : Figure)
    (path ext : string) : list Event :=
  (if os_path_exists w t (save_directory path) then []
   else [EvMakedirs (save_directory path)])
  ++ [ EvPrint ("Saving figure to '" ++ savepath path ext ++ "'...");
       EvSavefig (savepath path ext) fig; EvClose; EvPrint "Done" ].

(** The effects of a chart that is shown or saved. *)
Definition chart_events (show : bool) (w : World) (t : list Event)
    (fig : Figure) (path ext : string) : list Event :=
  if show then [EvShow fig] else save_events w t fig path ext.

(** The effects of a chart of [plot_bar]: [plt.tight_layout] comes before
    the [save]. *)
Definition bar_events (tight show : bool) (w : World) (t : list Event)
    (fig : Figure) (path ext : string) : list Event :=
  if show then [EvShow fig]
  else (if tight then [EvTightLayout] else [])
       ++ save_events w (t ++ (if tight then [EvTightLayout] else []))
            fig path ext.

(** The effects of a sequence of charts drawn one after the other. *)
Fixpoint charts_events (show : bool) (w : World) (t : list Event)
    (charts : list (Figure * string)) (ext : string) : list Event :=
  match charts with
  | [] => []
  | (fig, name) :: charts' =>
      chart_events show w t fig name ext
      ++ charts_events show w (t ++ chart_events show w t fig name ext)
           charts' ext
  end.

(** The directories made by a sequence of saved charts: for each chart in
    turn, its directory when [os.path.exists] answers false for it. *)
Fixpoint missing_directories (w : World) (t : list Event)
    (charts : list (Figure * string)) (ext : string) : list string :=
  match charts with
  | [] => []
  | (fig, name) :: charts' =>
      (if os_path_exists w t (save_directory name) then []
       else [save_directory name])
      ++ missing_directories w (t ++ save_events w t fig name ext) charts' ext
  end.

(** The figures that the plot calls of [scaling_plot.py] set up, with
    their file names; [ce_max] is [compute_elements.max()]. *)
Definition walltime_figure (args : Args) (a : Assembled)
    (compute_elements : list Z) : Figure :=
  mkFigure (add_optional_prefix "Walltime" (title_prefix args) " - ")
    (compute_element_name args) (walltime_units args)
    (IntTicks compute_elements) None
    (F64.mul (max_walltime a) (F64.lit 12 10))
    (map draw (zip3 (walltimes a) colours (series_names a))).

Definition efficiency_figure (args : Args) (a : Assembled)
    (compute_elements : list Z) (ce_max : Z) : Figure :=
  mkFigure (add_optional_prefix "Efficiency" (title_prefix args) " - ")
    (compute_element_name args) "Efficiency"
    (IntTicks compute_elements)
    (Some (F64.mul (F64.of_Z ce_max) (F64.lit 11 10))) (F64.lit 13 10)
    (map draw
       (zip3 (if weak args then weak_efficiencies a else strong_efficiencies a)
             colours (series_names a))).

Definition speedup_figure (args : Args) (a : Assembled)
    (compute_elements : list Z) (ce_max : Z) : Figure :=
  mkFigure (add_optional_prefix "Speedup" (title_prefix args) " - ")
    (compute_element_name args) "Speedup"
    (IntTicks compute_elements)
    (Some (F64.mul (F64.of_Z ce_max) (F64.lit 105 100))) (speedup_max args)
    (map draw (zip3 (speedups a) colours (series_names a))).

Definition charts_of_run (args : Args) (a : Assembled)
    (compute_elements : list Z) (ce_max : Z) : list (Figure * string) :=
  [ (walltime_figure args a compute_elements, walltime_file args);
    (efficiency_figure args a compute_elements ce_max, efficiency_file args) ]
  ++ (if weak args then []
      else [ (speedup_figure args a compute_elements ce_max,
              speedup_file args) ]).

(** The effects that a [save] performs before it calls [plt.savefig]. *)
Definition is_setup (e : Event) : bool :=
  match e with
  | EvMakedirs _ | EvPrint _ => true
  | _ => false
  end.

(** The exceptions that the file system or the backend raise. *)
Definition raised_outside (w : World) (e : exn) : Prop :=
  (exists t d, os_makedirs w t d = inl e)
  \/ (exists t n, plt_figure w t n = inl e)
  \/ (exists t p f, plt_savefig w t p f = inl e).

(** The events of the style selection of [scaling_plot.py]: the style is
    applied when its name is given and known, and nothing is printed. *)
Definition style_events (style : string) (w : World) : list Event :=
  if str_nonempty style && existsb (String.eqb style) (style_library w)
  then [EvStyle style] else [].

(** The events of the style selection of [scaling_plot_categorical.py]: a
    name that is given and not known prints the warning. *)
Definition cat_style_events (style : string) (w : World) : list Event :=
  if str_nonempty style
  then if existsb (String.eqb style) (style_library w)
       then [EvStyle style]
       else [EvPrint ("Warning: '" ++ style
                      ++ "' is not a valid matplotlib style. Using default style.")]
  else [].

(** The world after the style selection and the call of the loader, in
    either script. *)
Definition after_read (args : Args) (w : World) : World :=
  emit (EvReadExcel (results_file args) (worksheet_name args)
          (usecols (filter_column args)))
       (snd (use_style_silently (style args) w)).

Definition cat_after_read (args : CatArgs) (w : World) : World :=
  emit (EvReadExcel (c_results_file args) (c_worksheet_name args)
          (cat_usecols (c_category_column args) (c_filter_column args)))
       (snd (use_style_or_warn (c_style args) w)).

(** ** Sample tables *)

Definition sample_group : DataFrame :=
  [ mkRow (Some "A") 1 (F64.of_Z 100) F64.zero;
    mkRow (Some "A") 2 (F64.of_Z 60) F64.zero;
    mkRow (Some "A") 4 (F64.of_Z 20) F64.zero ].

Definition duplicated_rows : DataFrame :=
  [ mkRow (Some "A") 1 (F64.of_Z 10) F64.zero;
    mkRow (Some "A") 1 (F64.of_Z 20) F64.zero ].

Definition no_reference_group : DataFrame :=
  [ mkRow (Some "A") 2 (F64.of_Z 60) F64.zero;
    mkRow (Some "A") 4 (F64.of_Z 20) F64.zero ].

(** Two measurements of the reference run of a group, and one run on two
    compute elements. *)
Definition duplicated_reference : DataFrame :=
  duplicated_rows ++ [ mkRow (Some "A") 2 (F64.of_Z 5) F64.zero ].

(** A group that has no run on two compute elements beside one that
    has. *)
Definition ragged_groups : DataFrame :=
  [ mkRow (Some "A") 1 (F64.of_Z 100) F64.zero;
    mkRow (Some "A") 2 (F64.of_Z 60) F64.zero;
    mkRow (Some "B") 1 (F64.of_Z 50) F64.zero ].

(** Ten groups of one row each. *)
Definition ten_groups : DataFrame :=
  map (fun g => mkRow (Some g) 1 (F64.of_Z 10) F64.zero)
      ["a"; "b"; "c"; "d"; "e"; "f"; "g"; "h"; "i"; "j"].

(** A row that passes the completeness filter and whose filter cell is
    [-1]. *)
Definition negative_filter_row : Row :=
  mkRow (Some "A") 1 (F64.of_Z 10) (F64.of_Z (-1)).

Definition negative_filter_category : CatRow :=
  mkCatRow (Some "v1") (F64.of_Z 10) (F64.of_Z (-1)).

Definition sample_categories : list CatRow :=
  [ mkCatRow (Some "v1") (F64.of_Z 50) F64.zero;
    mkCatRow (Some "v2") (F64.of_Z 25) F64.zero ].

(** A world whose loader answers every request with the given tables,
    whose style library holds [ggplot] only, where a directory exists when
    it is [.] or has been made, and where the file system and the backend
    never raise. *)
Definition world_with (tbl : DataFrame) (cat : list CatRow) : World :=
  mkWorld (fun _ _ _ => inr tbl) (fun _ _ _ => inr cat) ["ggplot"]
          (fun t d => String.eqb d "."
                      || existsb (String.eqb d) (created_directories t))
          (fun _ _ => inr tt) (fun _ _ => inr tt) (fun _ _ _ => inr tt) [].

Definition sample_world : World := world_with sample_group sample_categories.

(** [scaling_plot.py results.xlsx], every option at its default. *)
Definition sample_args : Args := default_args "results.xlsx".

(** [scaling_plot.py results.xlsx --file_prefix out/run1/run]. *)
Definition prefixed_args : Args :=
  mkArgs "results.xlsx" "results" "Threads" "Minutes" EmptyString None
         (Some "out/run1/run") false 10 (F64.lit 161 10) false EmptyString.

(** [scaling_plot.py results.xlsx --style nosuchstyle]. *)
Definition bad_style_args : Args :=
  mkArgs "results.xlsx" "results" "Threads" "Minutes" EmptyString None None
         false 10 (F64.lit 161 10) false "nosuchstyle".

(** [scaling_plot_categorical.py results.xlsx --baseline_category v1]. *)
Definition sample_cat_args : CatArgs :=
  mkCatArgs "results.xlsx" "results" "version" "v1" "Minutes" EmptyString
            None None "png" false 10 EmptyString false false.

(** The groups of a table as the series assembler receives them. *)
Definition assembled_input (tbl : DataFrame) : list (string * GroupData) :=
  match fst (add_metrics (split_groups (filter_and_aggregate EmptyString tbl))
               (world_with tbl []))
  with
  | inr items => items
  | inl _ => []
  end.

(** * Properties *)

(** ** Lists, tables and the error monad *)

Lemma filter_singleton {A} (p : A -> bool) (l : list A) (x : A) :
  List.length (filter p l) = 1%nat -> In x l -> p x = true -> filter p l = [x].
Proof.
  intros Hlen Hin Hp.
  assert (Hx : In x (filter p l)) by (apply filter_In; split; assumption).
  destruct (filter p l) as [|y [|z t]]; simpl in *; try discriminate.
  destruct Hx as [-> | []]. reflexivity.
Qed.

Lemma series_mul_columns {R} (f : R -> float) (g : R -> Z) (rdf : list R) :
  series_mul (column f rdf) (column g rdf)
  = map (fun r => F64.mul (f r) (F64.of_Z (g r))) rdf.
Proof.
  unfold column. induction rdf as [|r rdf IH]; simpl; [reflexivity|].
  now rewrite IH.
Qed.

Lemma scalar_rdiv_map {R} (t : float) (f : R -> float) (rdf : list R) :
  scalar_rdiv t (map f rdf) = map (fun r => F64.div t (f r)) rdf.
Proof. unfold scalar_rdiv. apply map_map. Qed.

Section Unique.
Context {A : Type}.
Variable eqb : A -> A -> bool.
Hypothesis eqb_eq : forall x y, eqb x y = true <-> x = y.

Lemma unique_In (x : A) (l : list A) : In x (unique eqb l) <-> In x l.
Proof.
  induction l as [|y l IH]; simpl; [tauto|].
  rewrite filter_In, IH. cbv beta. split.
  - intros [H | [H _]]; auto.
  - intros [H | H]; auto.
    destruct (eqb y x) eqn:E.
    + left. now apply eqb_eq.
    + right. split; [exact H | reflexivity].
Qed.

Lemma unique_NoDup (l : list A) : NoDup (unique eqb l).
Proof.
  induction l as [|y l IH]; simpl; constructor.
  - rewrite filter_In. cbv beta. intros [_ H].
    assert (E : eqb y y = true) by now apply eqb_eq.
    rewrite E in H. discriminate.
  - now apply NoDup_filter.
Qed.

End Unique.

Section SortFacts.
Context {A : Type}.
Variable le : A -> A -> bool.

Lemma insert_sorted_perm (x : A) (l : list A) :
  Permutation (insert_sorted le x l) (x :: l).
Proof.
  induction l as [|y l IH]; simpl; [reflexivity|].
  destruct (le x y); [reflexivity|].
  rewrite IH. apply perm_swap.
Qed.

Lemma sort_perm (l : list A) : Permutation (sort le l) l.
Proof.
  unfold sort. induction l as [|x l IH]; simpl; [reflexivity|].
  rewrite insert_sorted_perm. now constructor.
Qed.
End SortFacts.

Lemma nth_error_zip3 {A B C} (a : list A) (b : list B) (c : list C) (i : nat) :
  nth_error (zip3 a b c) i
  = match nth_error a i, nth_error b i, nth_error c i with
    | Some x, Some y, Some z => Some (x, y, z)
    | _, _, _ => None
    end.
Proof.
  revert b c i. induction a as [|x a IH]; intros b c i.
  - destruct i; reflexivity.
  - destruct b as [|y b].
    + destruct i; simpl; [reflexivity|]. destruct (nth_error a i); reflexivity.
    + destruct c as [|z c].
      * destruct i; simpl; [reflexivity|].
        destruct (nth_error a i); [|reflexivity]. destruct (nth_error b i); reflexivity.
      * destruct i; simpl; [reflexivity|]. apply IH.
Qed.

Lemma length_zip3 {A B C} (a : list A) (b : list B) (c : list C) :
  List.length (zip3 a b c)
  = Nat.min (List.length a) (Nat.min (List.length b) (List.length c)).
Proof.
  revert b c. induction a as [|x a IH]; intros b c; [reflexivity|].
  destruct b as [|y b]; [reflexivity|]. destruct c as [|z c]; [simpl; lia|].
  simpl. now rewrite IH.
Qed.

Lemma dict_set_In {V} (d : list (string * V)) (k : string) (v : V) (k' : string) (v' : V) :
  In (k', v') (dict_set d k v) -> In (k', v') d \/ v' = v.
Proof.
  induction d as [|[k0 v0] d IH]; simpl.
  - intros [H | []]. inversion H. now right.
  - destruct (String.eqb k k0).
    + intros [H | H]; [inversion H; now right | left; now right].
    + intros [H | H]; [left; now left|].
      destruct (IH H); [left; now right | now right].
Qed.

Lemma NoDup_map_Some_inv {A} (l : list A) : NoDup (map Some l) -> NoDup l.
Proof. apply NoDup_map_inv. Qed.

Lemma string_compare_refl (s : string) : String.compare s s = Eq.
Proof.
  pose proof (String.compare_antisym s s) as H.
  destruct (String.compare s s); simpl in H; congruence.
Qed.

Lemma string_compare_eq (a b : string) : String.compare a b = Eq <-> a = b.
Proof.
  split; [apply String.compare_eq_iff|]. intros ->. apply string_compare_refl.
Qed.

Lemma option_string_eqb_eq (a b : option string) :
  option_string_eqb a b = true <-> a = b.
Proof.
  destruct a as [x|], b as [y|]; simpl; try (split; congruence).
  rewrite String.eqb_eq. split; congruence.
Qed.

(** ** Binary64: identities that hold exactly *)

Ltac float_step :=
  cbn [shr shr_record_of_loc shr_m shr_r shr_s round_nearest_even
       loc_of_shr_record Zdigits2 iter_pos shr_1 orb].

Lemma div_eucl_exact (a b : Z) : b <> 0 -> Z.div_eucl (a * b) b = (a, 0).
Proof.
  intros Hb.
  pose proof (Z.div_mul a b Hb) as Hd. pose proof (Z.mod_mul a b Hb) as Hm.
  unfold Z.div, Z.modulo in Hd, Hm.
  destruct (Z.div_eucl (a * b) b) as [q r]. simpl in *. congruence.
Qed.

Lemma new_location_0 (n : Z) : new_location n 0 = loc_Exact.
Proof.
  unfold new_location, new_location_even, new_location_odd.
  destruct (Z.even n); reflexivity.
Qed.

Lemma bounded_canonical m e :
  bounded F64.prec F64.emax m e = true ->
  fexp F64.prec F64.emax (Z.pos (digits2_pos m) + e) = e /\ e <= 971.
Proof.
  unfold bounded, canonical_mantissa. intros H.
  apply andb_true_iff in H. destruct H as [H1 H2].
  apply Z.eqb_eq in H1. apply Z.leb_le in H2. split; [exact H1|exact H2].
Qed.

(** Rounding an exact canonical mantissa gives the number itself. *)
Lemma round_canonical s m e :
  bounded F64.prec F64.emax m e = true ->
  binary_round_aux F64.prec F64.emax s (Z.pos m) e loc_Exact
  = S754_finite s m e.
Proof.
  intros H. destruct (bounded_canonical m e H) as [Hc He].
  unfold binary_round_aux, shr_fexp. simpl Zdigits2.
  rewrite Hc, Z.sub_diag. float_step.
  rewrite Hc, Z.sub_diag. float_step.
  apply Z.leb_le in He. unfold F64.emax, F64.prec. simpl. rewrite He.
  reflexivity.
Qed.

Lemma round_canonical_shifted s m e :
  bounded F64.prec F64.emax m e = true ->
  binary_round_aux F64.prec F64.emax s (Z.pos m~0) (e - 1) loc_Exact
  = S754_finite s m e.
Proof.
  intros H. destruct (bounded_canonical m e H) as [Hc He].
  unfold binary_round_aux, shr_fexp. simpl Zdigits2.
  replace (Z.pos (Pos.succ (digits2_pos m)) + (e - 1))
    with (Z.pos (digits2_pos m) + e) by lia.
  rewrite Hc. replace (e - (e - 1)) with 1 by lia. float_step.
  replace (e - 1 + 1) with e by lia.
  rewrite Hc, Z.sub_diag. float_step.
  apply Z.leb_le in He. unfold F64.emax, F64.prec. simpl. rewrite He.
  reflexivity.
Qed.

Lemma finite_pos_inv (x : float) :
  F64.finite_pos x = true ->
  exists m e, x = S754_finite false m e
              /\ bounded F64.prec F64.emax m e = true.
Proof.
  destruct x as [s|s| |s m e]; try discriminate.
  destruct s; try discriminate. intros H. now exists m, e.
Qed.

(** [x / x] is exactly [1.0]. *)
Lemma div_self (x : float) : F64.finite_pos x = true -> F64.div x x = F64.one.
Proof.
  intros H. destruct (finite_pos_inv x H) as (m & e & -> & _).
  unfold F64.div, SFdiv, SFdiv_core_binary.
  replace (Zdigits2 (Z.pos m) + e - (Zdigits2 (Z.pos m) + e)) with 0 by lia.
  replace (e - e) with 0 by lia.
  change (Z.min (fexp F64.prec F64.emax 0) 0) with (-53).
  change (0 - -53) with 53.
  cbv iota beta zeta.
  rewrite Z.shiftl_mul_pow2 by lia.
  rewrite (Z.mul_comm (Z.pos m)).
  rewrite div_eucl_exact by lia.
  rewrite new_location_0. reflexivity.
Qed.

(** [x / 1.0] is [x]. *)
Lemma div_one (x : float) : F64.finite_pos x = true -> F64.div x F64.one = x.
Proof.
  intros H. destruct (finite_pos_inv x H) as (m & e & -> & Hb).
  destruct (bounded_canonical m e Hb) as [Hc He].
  unfold F64.div, F64.one, SFdiv, SFdiv_core_binary.
  change (Zdigits2 4503599627370496) with 53.
  simpl Zdigits2.
  set (d := Z.pos (digits2_pos m)) in *.
  assert (Hd : 0 < d) by (unfold d; lia).
  unfold fexp, emin, F64.prec, F64.emax in *.
  destruct (Z.eq_dec (Z.max (d + e - (53 + -52) - 53) (3 - 1024 - 53)) e)
    as [E|E].
  - (* the quotient already has the exponent of [x] *)
    replace (Z.min (Z.max (d + e - (53 + -52) - 53) (3 - 1024 - 53)) (e - -52))
      with e by lia.
    replace (e - -52 - e) with 52 by lia.
    cbv iota beta zeta.
    rewrite Z.shiftl_mul_pow2 by lia.
    change (2 ^ 52) with 4503599627370496.
    rewrite div_eucl_exact by lia. rewrite new_location_0.
    apply round_canonical. exact Hb.
  - (* one more bit is computed and then shifted out *)
    replace (Z.min (Z.max (d + e - (53 + -52) - 53) (3 - 1024 - 53)) (e - -52))
      with (e - 1) by lia.
    replace (e - -52 - (e - 1)) with 53 by lia.
    cbv iota beta zeta.
    rewrite Z.shiftl_mul_pow2 by lia.
    change (2 ^ 53) with (2 * 4503599627370496).
    rewrite Z.mul_assoc.
    rewrite div_eucl_exact by lia. rewrite new_location_0.
    rewrite (Z.mul_comm (Z.pos m) 2). change (2 * Z.pos m) with (Z.pos m~0).
    apply round_canonical_shifted. exact Hb.
Qed.

(** [x * 1.0] is [x]. *)
Lemma mul_one (x : float) : F64.finite_pos x = true -> F64.mul x F64.one = x.
Proof.
  intros H. destruct (finite_pos_inv x H) as (m & e & -> & Hb).
  destruct (bounded_canonical m e Hb) as [Hc He].
  unfold F64.mul, F64.one, SFmul. cbn [xorb].
  rewrite Pos.mul_comm. cbn [Pos.mul].
  unfold binary_round_aux at 1, shr_fexp at 1.
  cbn [Zdigits2 digits2_pos].
  rewrite !Pos2Z.inj_succ.
  match goal with |- context [fexp _ _ ?a] =>
    replace a with (Z.pos (digits2_pos m) + e) by lia end.
  rewrite Hc. replace (e - (e + -52)) with 52 by lia.
  float_step.
  replace (e + -52 + 52) with e by lia.
  unfold shr_fexp. float_step. rewrite Hc, Z.sub_diag. float_step.
  apply Z.leb_le in He. unfold F64.emax, F64.prec. simpl. rewrite He.
  reflexivity.
Qed.

(** ** Binary64: truncation with a location: the integer view *)

Lemma represents_of_loc (N P : Z) :
  0 <= N -> 0 < P ->
  represents N P (shr_record_of_loc (N / P) (loc_of_rem (N mod P) P)).
Proof.
  intros HN HP. unfold represents. repeat split; try assumption.
  - destruct (loc_of_rem (N mod P) P) as [|[]]; reflexivity.
  - destruct (loc_of_rem (N mod P) P) as [|[]]; reflexivity.
Qed.

Lemma shr_1_m (mrs : shr_record) :
  0 <= shr_m mrs ->
  shr_m (shr_1 mrs) = shr_m mrs / 2
  /\ shr_r (shr_1 mrs) = Z.odd (shr_m mrs)
  /\ shr_s (shr_1 mrs) = (shr_r mrs || shr_s mrs)%bool.
Proof.
  destruct mrs as [m r s]. cbn [shr_m shr_r shr_s]. intros Hm.
  destruct m as [|p|p]; [| |lia].
  - repeat split.
  - destruct p as [p|p|]; cbn [shr_1 shr_m shr_r shr_s].
    + split; [|split; reflexivity]. rewrite Pos2Z.inj_xI.
      apply Z.div_unique with (r := 1); lia.
    + split; [|split; reflexivity]. rewrite Pos2Z.inj_xO.
      apply Z.div_unique with (r := 0); lia.
    + repeat split.
Qed.

Lemma shr_1_represents (N P : Z) (mrs : shr_record) :
  represents N P mrs -> represents N (2 * P) (shr_1 mrs).
Proof.
  intros (HN & HP & Hm & Hl).
  assert (Hq : 0 <= N / P) by (apply Z.div_pos; lia).
  destruct (shr_1_m mrs) as (H1 & H2 & H3); [lia|].
  pose proof (Z.mod_pos_bound N P HP) as Hr.
  assert (Hdiv : N / (2 * P) = N / P / 2).
  { rewrite (Z.mul_comm 2 P). rewrite Z.div_div by lia. reflexivity. }
  assert (Hmod : N mod (2 * P) = N mod P + P * ((N / P) mod 2)).
  { rewrite (Z.mul_comm 2 P). apply Z.rem_mul_r; lia. }
  unfold represents. split; [exact HN|]. split; [lia|].
  split; [now rewrite H1, Hm, Hdiv|].
  rewrite Hmod.
  assert (Hs : shr_s (shr_1 mrs) = negb (N mod P =? 0)).
  { rewrite H3. destruct mrs as [m r s]. cbn [shr_r shr_s loc_of_shr_record] in *.
    unfold loc_of_rem in Hl.
    destruct (N mod P =? 0); destruct r, s; try discriminate; reflexivity. }
  assert (Ho : shr_r (shr_1 mrs) = Z.odd (N / P)) by now rewrite H2, Hm.
  clear H1 H2 H3 Hl Hm.
  destruct (shr_1 mrs) as [m' r' s']. cbn [shr_r shr_s loc_of_shr_record] in *.
  subst r' s'.
  pose proof (Zmod_odd (N / P)) as Hodd.
  unfold loc_of_rem.
  destruct (Z.odd (N / P)); rewrite Hodd.
  - destruct (Z.eqb_spec (N mod P) 0) as [E|E]; cbn [negb].
    + replace (N mod P + P * 1 =? 0) with false by (symmetry; apply Z.eqb_neq; lia).
      replace (2 * (N mod P + P * 1) ?= 2 * P) with Eq
        by (symmetry; apply Z.compare_eq_iff; lia).
      reflexivity.
    + replace (N mod P + P * 1 =? 0) with false by (symmetry; apply Z.eqb_neq; lia).
      replace (2 * (N mod P + P * 1) ?= 2 * P) with Gt
        by (symmetry; apply Z.compare_gt_iff; lia).
      reflexivity.
  - destruct (Z.eqb_spec (N mod P) 0) as [E|E]; cbn [negb].
    + replace (N mod P + P * 0 =? 0) with true by (symmetry; apply Z.eqb_eq; lia).
      reflexivity.
    + replace (N mod P + P * 0 =? 0) with false by (symmetry; apply Z.eqb_neq; lia).
      replace (2 * (N mod P + P * 0) ?= 2 * P) with Lt
        by (symmetry; apply Z.compare_lt_iff; lia).
      reflexivity.
Qed.

Lemma pow2_xO (n : positive) : 2 ^ Z.pos n~0 = 2 ^ Z.pos n * 2 ^ Z.pos n.
Proof.
  replace (Z.pos n~0) with (Z.pos n + Z.pos n) by lia.
  apply Z.pow_add_r; lia.
Qed.

Lemma pow2_xI (n : positive) : 2 ^ Z.pos n~1 = 2 * (2 ^ Z.pos n * 2 ^ Z.pos n).
Proof.
  replace (Z.pos n~1) with (1 + (Z.pos n + Z.pos n)) by lia.
  rewrite Z.pow_add_r by lia. rewrite Z.pow_add_r by lia. reflexivity.
Qed.

Lemma iter_pos_shr_1_represents (n : positive) :
  forall (N P : Z) (mrs : shr_record),
    represents N P mrs ->
    represents N (P * 2 ^ Z.pos n) (iter_pos shr_1 n mrs).
Proof.
  induction n as [n IH|n IH|]; intros N P mrs H; cbn [iter_pos].
  - apply shr_1_represents in H. apply IH in H. apply IH in H.
    replace (P * 2 ^ Z.pos n~1) with (2 * P * 2 ^ Z.pos n * 2 ^ Z.pos n); [exact H|].
    rewrite pow2_xI. ring.
  - apply IH in H. apply IH in H.
    replace (P * 2 ^ Z.pos n~0) with (P * 2 ^ Z.pos n * 2 ^ Z.pos n); [exact H|].
    rewrite pow2_xO. ring.
  - apply shr_1_represents in H. rewrite Z.pow_1_r, Z.mul_comm. exact H.
Qed.

Lemma shr_represents (N P : Z) (mrs : shr_record) (e n : Z) :
  represents N P mrs ->
  0 <= n ->
  represents N (P * 2 ^ n) (fst (shr mrs e n)) /\ snd (shr mrs e n) = e + n.
Proof.
  intros H Hn. destruct n as [|p|p]; [| |lia].
  - cbn. rewrite Z.mul_1_r. split; [exact H | lia].
  - cbn [shr fst snd]. split; [|reflexivity]. now apply iter_pos_shr_1_represents.
Qed.

(** ** Binary64: number of binary digits *)

Lemma pow2_succ (d : Z) : 0 <= d -> 2 ^ (d + 1) = 2 * 2 ^ d.
Proof. intros H. rewrite Z.pow_add_r by lia. change (2 ^ 1) with 2. ring. Qed.

Lemma digits2_pos_bounds (m : positive) :
  2 ^ (Z.pos (digits2_pos m) - 1) <= Z.pos m < 2 ^ Z.pos (digits2_pos m).
Proof.
  induction m as [m IH|m IH|]; cbn [digits2_pos].
  - rewrite Pos2Z.inj_succ, Pos2Z.inj_xI.
    set (d := Z.pos (digits2_pos m)) in *.
    assert (Hd : 0 < d) by (unfold d; lia).
    replace (Z.succ d - 1) with (d - 1 + 1) by lia.
    unfold Z.succ. rewrite !pow2_succ by lia. lia.
  - rewrite Pos2Z.inj_succ, Pos2Z.inj_xO.
    set (d := Z.pos (digits2_pos m)) in *.
    assert (Hd : 0 < d) by (unfold d; lia).
    replace (Z.succ d - 1) with (d - 1 + 1) by lia.
    unfold Z.succ. rewrite !pow2_succ by lia. lia.
  - cbn. lia.
Qed.

Lemma Zdigits2_bounds (q : Z) :
  0 < q -> 0 < Zdigits2 q /\ 2 ^ (Zdigits2 q - 1) <= q < 2 ^ Zdigits2 q.
Proof.
  destruct q as [|p|p]; try lia. intros _. cbn [Zdigits2].
  split; [lia | apply digits2_pos_bounds].
Qed.

Lemma Zdigits2_unique (q D : Z) :
  2 ^ (D - 1) <= q < 2 ^ D -> 0 < D -> Zdigits2 q = D.
Proof.
  intros [Hlo Hhi] HD.
  assert (Hq : 0 < q).
  { pose proof (Z.pow_pos_nonneg 2 (D - 1)). lia. }
  destruct (Zdigits2_bounds q Hq) as (Hd & Hl & Hh).
  destruct (Z.lt_trichotomy (Zdigits2 q) D) as [H | [H | H]]; [|exact H|].
  - assert (2 ^ Zdigits2 q <= 2 ^ (D - 1)) by (apply Z.pow_le_mono_r; lia). lia.
  - assert (2 ^ D <= 2 ^ (Zdigits2 q - 1)) by (apply Z.pow_le_mono_r; lia). lia.
Qed.

(** A lower bound on the digits from a lower bound on the number. *)
Lemma Zdigits2_lower (q k : Z) : 0 <= k -> 2 ^ k <= q -> k + 1 <= Zdigits2 q.
Proof.
  intros Hk H.
  assert (Hq : 0 < q) by (pose proof (Z.pow_pos_nonneg 2 k); lia).
  destruct (Zdigits2_bounds q Hq) as (Hd & Hl & Hh).
  destruct (Z_lt_le_dec (Zdigits2 q) (k + 1)) as [Hlt|]; [|lia].
  assert (2 ^ Zdigits2 q <= 2 ^ k) by (apply Z.pow_le_mono_r; lia). lia.
Qed.

(** Digits after dropping [n] low bits. *)
Lemma Zdigits2_shift (q n : Z) :
  0 < q -> 0 <= n < Zdigits2 q -> Zdigits2 (q / 2 ^ n) = Zdigits2 q - n.
Proof.
  intros Hq Hn.
  destruct (Zdigits2_bounds q Hq) as (Hd & Hl & Hh).
  assert (Hp : 0 < 2 ^ n) by (apply Z.pow_pos_nonneg; lia).
  apply Zdigits2_unique; [|lia]. split.
  - apply Z.div_le_lower_bound; [exact Hp|].
    rewrite <- Z.pow_add_r by lia.
    replace (n + (Zdigits2 q - n - 1)) with (Zdigits2 q - 1) by lia. exact Hl.
  - apply Z.div_lt_upper_bound; [exact Hp|].
    rewrite <- Z.pow_add_r by lia.
    replace (n + (Zdigits2 q - n)) with (Zdigits2 q) by lia. exact Hh.
Qed.

Lemma div_pow2_small (q n : Z) : 0 <= q -> Zdigits2 q <= n -> q / 2 ^ n = 0.
Proof.
  intros Hq Hn. apply Z.div_small. split; [exact Hq|].
  destruct (Z.eq_dec q 0) as [->|Hne].
  - apply Z.pow_pos_nonneg; [lia|]. cbn in Hn. lia.
  - destruct (Zdigits2_bounds q) as (Hd & Hl & Hh); [lia|].
    assert (2 ^ Zdigits2 q <= 2 ^ n) by (apply Z.pow_le_mono_r; lia). lia.
Qed.

(** ** Binary64: the exponent function *)

Lemma fexp64_eq (e : Z) : fexp64 e = Z.max (e - 53) (-1074).
Proof. reflexivity. Qed.

Lemma fexp64_mono (a b : Z) : a <= b -> fexp64 a <= fexp64 b.
Proof. rewrite !fexp64_eq. lia. Qed.

Lemma fexp64_ge_emin (e : Z) : -1074 <= fexp64 e.
Proof. rewrite fexp64_eq. lia. Qed.

(** ** Binary64: the division kernel *)

Lemma new_location_spec (P r : Z) :
  0 < P -> 0 <= r < P -> new_location P r = loc_of_rem r P.
Proof.
  intros HP Hr. unfold new_location, new_location_even, new_location_odd, loc_of_rem.
  destruct (Z.even P) eqn:Ev; [reflexivity|].
  destruct (r =? 0); [reflexivity|]. f_equal.
  assert (Hodd : Z.odd P = true) by (rewrite <- Z.negb_even, Ev; reflexivity).
  apply Z.odd_spec in Hodd. destruct Hodd as [k Hk].
  destruct (Z.compare_spec (2 * r + 1) P), (Z.compare_spec (2 * r) P);
    try reflexivity; lia.
Qed.

Lemma div_eucl_div_mod (a b : Z) : Z.div_eucl a b = (a / b, a mod b).
Proof. unfold Z.div, Z.modulo. now destruct (Z.div_eucl a b). Qed.

Lemma div_exponent_le (mt : positive) (et : Z) (mw : positive) (ew : Z) :
  div_exponent mt et mw ew <= et - ew.
Proof. unfold div_exponent. lia. Qed.

Lemma div_numerator_pos (mt : positive) (et : Z) (mw : positive) (ew : Z) :
  0 < div_numerator mt et mw ew.
Proof.
  unfold div_numerator. apply Z.mul_pos_pos; [lia|].
  apply Z.pow_pos_nonneg; [lia|]. pose proof (div_exponent_le mt et mw ew). lia.
Qed.

Lemma div_core_spec (mt : positive) (et : Z) (mw : positive) (ew : Z) :
  SFdiv_core_binary F64.prec F64.emax (Z.pos mt) et (Z.pos mw) ew
  = (div_numerator mt et mw ew / Z.pos mw,
     div_exponent mt et mw ew,
     loc_of_rem (div_numerator mt et mw ew mod Z.pos mw) (Z.pos mw)).
Proof.
  unfold SFdiv_core_binary. cbn [Zdigits2].
  fold (fexp64 (Z.pos (digits2_pos mt) + et - (Z.pos (digits2_pos mw) + ew))).
  fold (div_exponent mt et mw ew).
  pose proof (div_exponent_le mt et mw ew) as Hle.
  unfold div_numerator.
  set (e' := div_exponent mt et mw ew) in *.
  assert (Hm : match et - ew - e' with
               | 0 => Z.pos mt
               | Z.pos _ => Z.shiftl (Z.pos mt) (et - ew - e')
               | Z.neg _ => 0
               end = Z.pos mt * 2 ^ (et - ew - e')).
  { destruct (et - ew - e') as [|p|p] eqn:Es; [| |lia].
    - now rewrite Z.pow_0_r, Z.mul_1_r.
    - rewrite Z.shiftl_mul_pow2 by lia. reflexivity. }
  cbv zeta. rewrite Hm. rewrite div_eucl_div_mod.
  rewrite new_location_spec; [reflexivity | lia |].
  apply Z.mod_pos_bound. lia.
Qed.

(** The quotient never has to be shifted left. *)
Lemma div_core_shift_nonneg (mt : positive) (et : Z) (mw : positive) (ew : Z) :
  div_exponent mt et mw ew
  <= fexp64 (Zdigits2 (div_numerator mt et mw ew / Z.pos mw)
             + div_exponent mt et mw ew).
Proof.
  pose proof (div_exponent_le mt et mw ew) as Hle.
  pose proof (digits2_pos_bounds mt) as Ht.
  pose proof (digits2_pos_bounds mw) as Hw.
  unfold div_numerator.
  set (e' := div_exponent mt et mw ew) in *.
  set (d1 := Z.pos (digits2_pos mt)) in *.
  set (d2 := Z.pos (digits2_pos mw)) in *.
  assert (Hd1 : 0 < d1) by (unfold d1; lia).
  assert (Hd2 : 0 < d2) by (unfold d2; lia).
  set (s := et - ew - e') in *.
  assert (Hs : 0 <= s) by (unfold s; lia).
  assert (He' : e' <= fexp64 (d1 + et - (d2 + ew))).
  { unfold e', div_exponent. fold d1 d2. lia. }
  set (q := Z.pos mt * 2 ^ s / Z.pos mw).
  assert (Hq0 : 0 <= q).
  { unfold q. apply Z.div_pos; [|lia].
    apply Z.mul_nonneg_nonneg; [lia|]. apply Z.pow_nonneg. lia. }
  assert (Hps : 0 < 2 ^ s) by (apply Z.pow_pos_nonneg; lia).
  (* the digits of the quotient reach the exponent difference *)
  assert (Hdig : d1 + s - d2 <= Zdigits2 q \/ (q = 0 /\ d1 + s - d2 <= 0)).
  { destruct (Z_lt_le_dec (d1 + s - d2 - 1) 0) as [Hneg|Hpos].
    - destruct (Z.eq_dec q 0) as [E|E]; [right; lia|].
      left. destruct (Zdigits2_bounds q); lia.
    - left.
      assert (2 ^ (d1 + s - d2 - 1) <= q).
      { unfold q. apply Z.div_le_lower_bound; [lia|].
        assert (Z.pos mw * 2 ^ (d1 + s - d2 - 1) <= 2 ^ d2 * 2 ^ (d1 + s - d2 - 1)).
        { apply Z.mul_le_mono_nonneg_r; [|lia].
          apply Z.pow_nonneg; lia. }
        rewrite <- Z.pow_add_r in H by lia.
        replace (d2 + (d1 + s - d2 - 1)) with (d1 - 1 + s) in H by lia.
        rewrite Z.pow_add_r in H by lia.
        assert (2 ^ (d1 - 1) * 2 ^ s <= Z.pos mt * 2 ^ s).
        { apply Z.mul_le_mono_nonneg_r; lia. }
        lia. }
      pose proof (Zdigits2_lower q (d1 + s - d2 - 1) Hpos H). lia. }
  destruct Hdig as [Hdig | [Hq Hdig]].
  - assert (d1 + et - (d2 + ew) <= Zdigits2 q + e') by (unfold s in Hdig; lia).
    pose proof (fexp64_mono _ _ H). lia.
  - rewrite Hq. cbn [Zdigits2].
    rewrite fexp64_eq in *. unfold s in Hdig. lia.
Qed.

(** ** Binary64: rounding to nearest *)

Lemma round_nearest_even_spec (N P : Z) (mrs : shr_record) :
  represents N P mrs ->
  let m2 := round_nearest_even (shr_m mrs) (loc_of_shr_record mrs) in
  (m2 = N / P \/ m2 = N / P + 1) /\ 2 * Z.abs (m2 * P - N) <= P.
Proof.
  intros (HN & HP & Hm & Hl). cbv zeta. rewrite Hm, Hl.
  pose proof (Z.mod_pos_bound N P HP) as Hr.
  pose proof (Z.div_mod N P ltac:(lia)) as Hdm.
  unfold loc_of_rem, round_nearest_even.
  set (q := N / P) in *. set (r := N mod P) in *.
  destruct (Z.eqb_spec r 0) as [E|E].
  - split; [now left | lia].
  - destruct (Z.compare_spec (2 * r) P) as [C|C|C].
    + destruct (Z.even q); (split; [tauto | lia]).
    + split; [now left | lia].
    + split; [now right | lia].
Qed.

Lemma first_shift_canonical (q e' : Z) :
  0 <= q -> e' <= fexp64 (Zdigits2 q + e') ->
  canonical_or_zero (q / 2 ^ (fexp64 (Zdigits2 q + e') - e'))
                    (fexp64 (Zdigits2 q + e')).
Proof.
  intros Hq Hn. unfold canonical_or_zero.
  set (e1 := fexp64 (Zdigits2 q + e')) in *.
  destruct (Z.eq_dec q 0) as [->|Hne].
  - left. split; [apply Z.div_0_l; apply Z.pow_nonzero; lia|].
    unfold e1 in *. cbn [Zdigits2] in *. rewrite fexp64_eq in *. lia.
  - destruct (Zdigits2_bounds q) as (Hd & Hl & Hh); [lia|].
    destruct (Z_lt_le_dec (e1 - e') (Zdigits2 q)) as [Hlt|Hge].
    + right.
      pose proof (Zdigits2_shift q (e1 - e') ltac:(lia) ltac:(lia)) as Hs.
      split.
      * destruct (Z.eq_dec (q / 2 ^ (e1 - e')) 0) as [E|E].
        -- rewrite E in Hs. cbn in Hs. lia.
        -- assert (0 <= q / 2 ^ (e1 - e')); [|lia].
           apply Z.div_pos; [lia|]. apply Z.pow_pos_nonneg; lia.
      * rewrite Hs. replace (Zdigits2 q - (e1 - e') + e1) with (Zdigits2 q + e') by lia.
        reflexivity.
    + left. split; [apply div_pow2_small; lia|].
      unfold e1 in *. rewrite fexp64_eq in *. lia.
Qed.

(** Digits of a successor: the same, or one more at a power of two. *)
Lemma Zdigits2_succ (m : Z) :
  0 < m ->
  Zdigits2 (m + 1) = Zdigits2 m
  \/ (Zdigits2 (m + 1) = Zdigits2 m + 1 /\ m + 1 = 2 ^ Zdigits2 m).
Proof.
  intros Hm. destruct (Zdigits2_bounds m Hm) as (Hd & Hl & Hh).
  destruct (Z.eq_dec (m + 1) (2 ^ Zdigits2 m)) as [E|E].
  - right. split; [|exact E]. apply Zdigits2_unique; [|lia].
    replace (Zdigits2 m + 1 - 1) with (Zdigits2 m) by lia.
    rewrite pow2_succ by lia. lia.
  - left. apply Zdigits2_unique; lia.
Qed.

Lemma second_shift (m1 m2 e1 : Z) :
  canonical_or_zero m1 e1 ->
  m2 = m1 \/ m2 = m1 + 1 ->
  exists m3 e3,
    shr_fexp F64.prec F64.emax m2 e1 loc_Exact
    = ({| shr_m := m3; shr_r := false; shr_s := false |}, e3)
    /\ e1 <= e3 /\ m3 * 2 ^ (e3 - e1) = m2 /\ canonical_or_zero m3 e3.
Proof.
  intros Hc Hm2. unfold shr_fexp. fold (fexp64 (Zdigits2 m2 + e1)).
  cbn [shr_record_of_loc].
  assert (Hsame : fexp64 (Zdigits2 m2 + e1) = e1 -> canonical_or_zero m2 e1 ->
                  exists m3 e3,
                    shr {| shr_m := m2; shr_r := false; shr_s := false |} e1
                        (fexp64 (Zdigits2 m2 + e1) - e1)
                    = ({| shr_m := m3; shr_r := false; shr_s := false |}, e3)
                    /\ e1 <= e3 /\ m3 * 2 ^ (e3 - e1) = m2
                    /\ canonical_or_zero m3 e3).
  { intros E C. rewrite E, Z.sub_diag. exists m2, e1. cbn [shr].
    split; [reflexivity|]. split; [lia|]. split; [|exact C].
    rewrite Z.sub_diag. cbn. lia. }
  destruct Hc as [[-> ->] | [Hpos Hcan]].
  - (* below the least positive number *)
    destruct Hm2 as [-> | ->].
    + apply Hsame; [reflexivity | left; split; reflexivity].
    + apply Hsame; [reflexivity | right; split; [lia | reflexivity]].
  - destruct Hm2 as [-> | ->].
    + apply Hsame; [exact Hcan | right; split; assumption].
    + destruct (Zdigits2_succ m1 Hpos) as [Hd | [Hd Hpow]].
      * apply Hsame; [now rewrite Hd | right; split; [lia | now rewrite Hd]].
      * destruct (Z.eq_dec (fexp64 (Zdigits2 (m1 + 1) + e1)) e1) as [E|E].
        -- apply Hsame; [exact E | right; split; [lia | exact E]].
        -- (* the mantissa has one bit too many: it is halved *)
           assert (E1 : fexp64 (Zdigits2 (m1 + 1) + e1) = e1 + 1).
           { rewrite Hd in *. rewrite fexp64_eq in *. lia. }
           rewrite E1. replace (e1 + 1 - e1) with 1 by lia.
           destruct (Zdigits2_bounds m1 Hpos) as (Hd1 & _ & _).
           exists (2 ^ (Zdigits2 m1 - 1)), (e1 + 1).
           assert (Hhalf : m1 + 1 = 2 * 2 ^ (Zdigits2 m1 - 1)).
           { rewrite Hpow. rewrite <- pow2_succ by lia. f_equal. lia. }
           split; [|split; [lia|split]].
           ++ cbn [shr iter_pos]. rewrite Hhalf.
              assert (Hp : 0 < 2 ^ (Zdigits2 m1 - 1))
                by (apply Z.pow_pos_nonneg; lia).
              destruct (2 ^ (Zdigits2 m1 - 1)) as [|p|p]; try lia.
              reflexivity.
           ++ replace (e1 + 1 - e1) with 1 by lia. rewrite Z.pow_1_r. lia.
           ++ right. split; [apply Z.pow_pos_nonneg; lia|].
              rewrite (Zdigits2_unique (2 ^ (Zdigits2 m1 - 1)) (Zdigits2 m1)).
              ** rewrite Hd in E1. rewrite <- E1. f_equal. lia.
              ** split; [lia|]. apply Z.pow_lt_mono_r; lia.
              ** lia.
Qed.

(** The two shifts and the rounding of [binary_round_aux], on a quotient
    [N / P] held at exponent [e']. *)
Lemma round_aux_structure (N P e' : Z) :
  0 <= N -> 0 < P -> e' <= fexp64 (Zdigits2 (N / P) + e') ->
  let e1 := fexp64 (Zdigits2 (N / P) + e') in
  let P1 := P * 2 ^ (e1 - e') in
  exists m2 m3 e3,
    binary_round_aux F64.prec F64.emax false (N / P) e'
      (loc_of_rem (N mod P) P)
    = finish m3 e3
    /\ canonical_or_zero (N / P1) e1
    /\ (m2 = N / P1 \/ m2 = N / P1 + 1)
    /\ 2 * Z.abs (m2 * P1 - N) <= P1
    /\ e1 <= e3 /\ m3 * 2 ^ (e3 - e1) = m2
    /\ canonical_or_zero m3 e3.
Proof.
  intros HN HP Hn. cbv zeta.
  set (e1 := fexp64 (Zdigits2 (N / P) + e')) in *.
  assert (Hq : 0 <= N / P) by (apply Z.div_pos; lia).
  assert (Hp2 : 0 < 2 ^ (e1 - e')) by (apply Z.pow_pos_nonneg; lia).
  pose proof (represents_of_loc N P HN HP) as Hrep.
  destruct (shr_represents N P _ e' (e1 - e') Hrep ltac:(lia)) as [Hrep1 He1].
  unfold binary_round_aux. unfold shr_fexp at 1.
  fold (fexp64 (Zdigits2 (N / P) + e')). fold e1.
  destruct (shr (shr_record_of_loc (N / P) (loc_of_rem (N mod P) P)) e' (e1 - e'))
    as [mrs1 e1'] eqn:Es.
  cbn [fst snd] in Hrep1, He1. replace e1' with e1 by lia. clear He1 Es e1'.
  destruct (round_nearest_even_spec N (P * 2 ^ (e1 - e')) mrs1 Hrep1) as [Hm2 Hnear].
  set (m2 := round_nearest_even (shr_m mrs1) (loc_of_shr_record mrs1)) in *.
  assert (Hc1 : canonical_or_zero (N / (P * 2 ^ (e1 - e'))) e1).
  { rewrite <- Z.div_div by lia. apply first_shift_canonical; assumption. }
  destruct (second_shift _ m2 e1 Hc1 Hm2) as (m3 & e3 & Hsh & Hle & Hval & Hc3).
  exists m2, m3, e3. rewrite Hsh. cbn [shr_m].
  split; [reflexivity|]. repeat split; assumption.
Qed.

(** ** Binary64: values on the grid of the least positive number *)

Lemma canonical_or_zero_bounds (m e : Z) :
  canonical_or_zero m e -> 0 <= m /\ -1074 <= e.
Proof.
  intros [[-> ->] | [H1 H2]]; [lia|].
  pose proof (fexp64_ge_emin (Zdigits2 m + e)). lia.
Qed.

Lemma scaled_nonneg (m e : Z) : canonical_or_zero m e -> 0 <= scaled m e.
Proof.
  intros H. destruct (canonical_or_zero_bounds m e H).
  unfold scaled. apply Z.mul_nonneg_nonneg; [lia|]. apply Z.pow_nonneg. lia.
Qed.

(** A canonical number with the smaller exponent is the smaller number. *)
Lemma scaled_lt_of_exponent (m e m' e' : Z) :
  0 < m -> fexp64 (Zdigits2 m + e) = e ->
  0 < m' -> fexp64 (Zdigits2 m' + e') = e' ->
  e < e' -> scaled m e < scaled m' e'.
Proof.
  intros Hm Hc Hm' Hc' Hlt.
  pose proof (fexp64_ge_emin (Zdigits2 m + e)) as Hge.
  destruct (Zdigits2_bounds m Hm) as (Hd & _ & Hh).
  destruct (Zdigits2_bounds m' Hm') as (Hd' & Hl' & _).
  assert (Hdig : Zdigits2 m + e < Zdigits2 m' + e').
  { destruct (Z_lt_le_dec (Zdigits2 m + e) (Zdigits2 m' + e')) as [|Hle]; [assumption|].
    pose proof (fexp64_mono _ _ Hle). lia. }
  unfold scaled.
  assert (Hp : 0 < 2 ^ (e + 1074)) by (apply Z.pow_pos_nonneg; lia).
  assert (Hp' : 0 < 2 ^ (e' + 1074)) by (apply Z.pow_pos_nonneg; lia).
  assert (H1 : m * 2 ^ (e + 1074) < 2 ^ Zdigits2 m * 2 ^ (e + 1074))
    by (apply Z.mul_lt_mono_pos_r; lia).
  rewrite <- Z.pow_add_r in H1 by lia.
  assert (H2 : 2 ^ (Zdigits2 m + (e + 1074)) <= 2 ^ (Zdigits2 m' - 1 + (e' + 1074)))
    by (apply Z.pow_le_mono_r; lia).
  rewrite (Z.pow_add_r 2 (Zdigits2 m' - 1)) in H2 by lia.
  assert (H3 : 2 ^ (Zdigits2 m' - 1) * 2 ^ (e' + 1074) <= m' * 2 ^ (e' + 1074))
    by (apply Z.mul_le_mono_nonneg_r; lia).
  lia.
Qed.

(** No canonical number lies strictly between a canonical number (or
    zero) and the next multiple of its unit. *)
Lemma canonical_gap (m1 e1 g eg : Z) :
  canonical_or_zero m1 e1 -> canonical_or_zero g eg ->
  scaled g eg <= scaled m1 e1 \/ scaled (m1 + 1) e1 <= scaled g eg.
Proof.
  intros H1 Hg.
  destruct (canonical_or_zero_bounds m1 e1 H1) as [Hm1 He1].
  destruct (canonical_or_zero_bounds g eg Hg) as [Hg0 Heg].
  pose proof (scaled_nonneg m1 e1 H1) as Hs1.
  destruct Hg as [[-> ->] | [Hgpos Hgc]].
  - left. unfold scaled at 1. lia.
  - destruct (Z_lt_le_dec eg e1) as [Hlt|Hge].
    + left. destruct H1 as [[-> ->] | [Hm1pos Hc1]]; [lia|].
      pose proof (scaled_lt_of_exponent g eg m1 e1 Hgpos Hgc Hm1pos Hc1 Hlt). lia.
    + unfold scaled.
      replace (eg + 1074) with (eg - e1 + (e1 + 1074)) by lia.
      rewrite Z.pow_add_r by lia.
      set (U := 2 ^ (e1 + 1074)).
      assert (HU : 0 < U) by (apply Z.pow_pos_nonneg; lia).
      set (k := g * 2 ^ (eg - e1)).
      replace (g * (2 ^ (eg - e1) * U)) with (k * U) by (unfold k; ring).
      destruct (Z_le_gt_dec k m1) as [Hk|Hk].
      * left. apply Z.mul_le_mono_nonneg_r; lia.
      * right. apply Z.mul_le_mono_nonneg_r; lia.
Qed.

(** The rounded mantissa is a nearest canonical number of the quotient
    [N / P1] held at exponent [e1]. *)
Lemma nearest_in_frame (N P1 e1 m2 g eg : Z) :
  0 <= N -> 0 < P1 ->
  canonical_or_zero (N / P1) e1 ->
  m2 = N / P1 \/ m2 = N / P1 + 1 ->
  2 * Z.abs (m2 * P1 - N) <= P1 ->
  canonical_or_zero g eg ->
  Z.abs (scaled m2 e1 * P1 - N * 2 ^ (e1 + 1074))
  <= Z.abs (scaled g eg * P1 - N * 2 ^ (e1 + 1074)).
Proof.
  intros HN HP Hc Hm2 Hnear Hg.
  destruct (canonical_or_zero_bounds _ _ Hc) as [Hm1 He1].
  pose proof (Z.mod_pos_bound N P1 HP) as Hr.
  pose proof (Z.div_mod N P1 ltac:(lia)) as Hdm.
  set (m1 := N / P1) in *. set (r := N mod P1) in *.
  set (U := 2 ^ (e1 + 1074)).
  assert (HU : 0 < U) by (apply Z.pow_pos_nonneg; lia).
  set (G := scaled g eg).
  assert (Hd : scaled m2 e1 * P1 - N * U = U * (m2 * P1 - N)) by (unfold scaled; fold U; ring).
  rewrite Hd, Z.abs_mul, (Z.abs_eq U) by lia.
  destruct (canonical_gap m1 e1 g eg Hc Hg) as [Hlow | Hhigh]; fold G in Hlow || fold G in Hhigh.
  - (* the candidate is at most the lower neighbour *)
    unfold scaled in Hlow. fold U in Hlow.
    assert (H1 : G * P1 <= m1 * U * P1) by (apply Z.mul_le_mono_nonneg_r; lia).
    assert (H2 : Z.abs (m2 * P1 - N) <= r) by (destruct Hm2 as [-> | ->]; lia).
    assert (H3 : U * Z.abs (m2 * P1 - N) <= U * r)
      by (apply Z.mul_le_mono_nonneg_l; lia).
    assert (H4 : N * U = m1 * U * P1 + U * r) by (rewrite Hdm; ring).
    lia.
  - (* the candidate is at least the upper neighbour *)
    unfold scaled in Hhigh. fold U in Hhigh.
    assert (H1 : (m1 + 1) * U * P1 <= G * P1) by (apply Z.mul_le_mono_nonneg_r; lia).
    assert (H2 : Z.abs (m2 * P1 - N) <= P1 - r) by (destruct Hm2 as [-> | ->]; lia).
    assert (H3 : U * Z.abs (m2 * P1 - N) <= U * (P1 - r))
      by (apply Z.mul_le_mono_nonneg_l; lia).
    assert (H4 : N * U = (m1 + 1) * U * P1 - U * (P1 - r)) by (rewrite Hdm; ring).
    lia.
Qed.

Lemma pow2_sum3 (x y z : Z) :
  0 <= x -> 0 <= y -> 0 <= z -> 2 ^ x * 2 ^ y * 2 ^ z = 2 ^ (x + y + z).
Proof. intros. rewrite !Z.pow_add_r by lia. reflexivity. Qed.

Lemma bounded_exponent (m : positive) (e : Z) :
  bounded F64.prec F64.emax m e = true ->
  fexp64 (Zdigits2 (Z.pos m) + e) = e /\ -1074 <= e <= 971.
Proof.
  intros H. destruct (bounded_canonical m e H) as [Hc He].
  split; [exact Hc|]. split; [|exact He].
  rewrite <- Hc. apply (fexp64_ge_emin (Z.pos (digits2_pos m) + e)).
Qed.

(** The quotient of two positive numbers is a canonical number nearest to
    the exact quotient (before the overflow test). *)
Lemma div_rounds_to_nearest (mt : positive) (et : Z) (mw : positive) (ew : Z) :
  bounded F64.prec F64.emax mt et = true ->
  bounded F64.prec F64.emax mw ew = true ->
  exists m3 e3,
    F64.div (S754_finite false mt et) (S754_finite false mw ew) = finish m3 e3
    /\ canonical_or_zero m3 e3
    /\ forall g eg,
         canonical_or_zero g eg ->
         Z.abs (scaled m3 e3 * scaled (Z.pos mw) ew
                - scaled (Z.pos mt) et * 2 ^ 1074)
         <= Z.abs (scaled g eg * scaled (Z.pos mw) ew
                   - scaled (Z.pos mt) et * 2 ^ 1074).
Proof.
  intros Ht Hw.
  destruct (bounded_exponent mt et Ht) as [_ Het].
  destruct (bounded_exponent mw ew Hw) as [_ Hew].
  unfold F64.div, SFdiv. cbn [xorb]. rewrite div_core_spec.
  pose proof (div_numerator_pos mt et mw ew) as HN.
  pose proof (div_core_shift_nonneg mt et mw ew) as Hn.
  pose proof (div_exponent_le mt et mw ew) as Hle.
  destruct (round_aux_structure (div_numerator mt et mw ew) (Z.pos mw)
              (div_exponent mt et mw ew) ltac:(lia) ltac:(lia) Hn)
    as (m2 & m3 & e3 & Hres & Hc1 & Hm2 & Hnear & He3 & Hval & Hc3).
  exists m3, e3. split; [exact Hres|]. split; [exact Hc3|].
  intros g eg Hg.
  set (N := div_numerator mt et mw ew) in *.
  set (e' := div_exponent mt et mw ew) in *.
  set (e1 := fexp64 (Zdigits2 (N / Z.pos mw) + e')) in *.
  set (P1 := Z.pos mw * 2 ^ (e1 - e')) in *.
  destruct (canonical_or_zero_bounds _ _ Hc1) as [_ He1].
  assert (HP1 : 0 < P1).
  { unfold P1. apply Z.mul_pos_pos; [lia|]. apply Z.pow_pos_nonneg; lia. }
  pose proof (nearest_in_frame N P1 e1 m2 g eg ltac:(lia) HP1 Hc1 Hm2 Hnear Hg)
    as Hfr.
  (* the result has the value of the rounded mantissa *)
  assert (Hv : scaled m3 e3 = scaled m2 e1).
  { unfold scaled. rewrite <- Hval.
    replace (e3 + 1074) with (e3 - e1 + (e1 + 1074)) by lia.
    rewrite Z.pow_add_r by lia. ring. }
  rewrite Hv.
  set (U := 2 ^ (e1 + 1074)) in *.
  set (W := scaled (Z.pos mw) ew).
  set (T := scaled (Z.pos mt) et).
  assert (HW : 0 < W).
  { unfold W, scaled. apply Z.mul_pos_pos; [lia|]. apply Z.pow_pos_nonneg; lia. }
  (* the exact quotient in the two frames *)
  assert (Hframe : T * 2 ^ 1074 * P1 = N * U * W).
  { unfold T, W, P1, N, U, div_numerator, scaled. fold e'.
    transitivity (Z.pos mt * Z.pos mw
                  * (2 ^ (et + 1074) * 2 ^ 1074 * 2 ^ (e1 - e'))); [ring|].
    transitivity (Z.pos mt * Z.pos mw
                  * (2 ^ (et - ew - e') * 2 ^ (e1 + 1074) * 2 ^ (ew + 1074)));
      [|ring].
    f_equal. rewrite !pow2_sum3 by lia. f_equal. lia. }
  assert (Hscale : forall X, W * (X * P1 - N * U) = P1 * (X * W - T * 2 ^ 1074)).
  { intros X.
    replace (W * (X * P1 - N * U)) with (X * P1 * W - N * U * W) by ring.
    rewrite <- Hframe. ring. }
  assert (Habs : forall X, P1 * Z.abs (X * W - T * 2 ^ 1074)
                          = W * Z.abs (X * P1 - N * U)).
  { intros X. rewrite <- (Z.abs_eq P1) at 1 by lia.
    rewrite <- Z.abs_mul, <- Hscale, Z.abs_mul, (Z.abs_eq W) by lia.
    reflexivity. }
  apply (Z.mul_le_mono_pos_l _ _ P1 HP1). rewrite !Habs.
  apply Z.mul_le_mono_nonneg_l; [lia | exact Hfr].
Qed.

(** ** Binary64: order of the results *)

(** Two nearest canonical numbers of two quotients [A / W] and [A / W']
    with [W' < W] are in the order of the quotients. *)
Lemma nearest_monotone (A W W' V V' : Z) :
  0 < A -> 0 < W' < W -> 0 <= V -> 0 <= V' ->
  Z.abs (V * W - A) <= Z.abs (V' * W - A) ->
  Z.abs (V' * W' - A) <= Z.abs (V * W' - A) ->
  V <= V'.
Proof.
  intros HA HW HV HV' H1 H2.
  destruct (Z_le_gt_dec V V') as [|Hgt]; [assumption|exfalso].
  assert (Ha : V' * W < V * W) by (apply Z.mul_lt_mono_pos_r; lia).
  assert (Hb : V' * W' < V * W') by (apply Z.mul_lt_mono_pos_r; lia).
  assert (Hc : (V + V') * W' < (V + V') * W) by (apply Z.mul_lt_mono_pos_l; lia).
  lia.
Qed.

Lemma leb_finish_refl (m e : Z) : 0 <= m -> F64.leb (finish m e) (finish m e) = true.
Proof.
  intros Hm. destruct m as [|p|p]; [reflexivity| |lia].
  unfold finish. destruct (e <=? 971); [|reflexivity].
  unfold F64.leb, SFleb, SFcompare. rewrite Z.compare_refl.
  change (Pos.compare_cont Eq p p) with (Pos.compare p p).
  now rewrite Pos.compare_refl.
Qed.

(** The order of the values is the order of the floating-point numbers. *)
Lemma leb_finish (m e m' e' : Z) :
  canonical_or_zero m e -> canonical_or_zero m' e' ->
  scaled m e <= scaled m' e' ->
  F64.leb (finish m e) (finish m' e') = true.
Proof.
  intros Hc Hc' Hle.
  destruct (canonical_or_zero_bounds _ _ Hc) as [Hm He].
  destruct (canonical_or_zero_bounds _ _ Hc') as [Hm' He'].
  destruct Hc as [[-> ->] | [Hpos Hcan]].
  - (* zero is below everything that a quotient can be *)
    destruct m' as [|p|p]; [reflexivity| |lia].
    unfold finish. destruct (e' <=? 971); reflexivity.
  - assert (Hp : 0 < 2 ^ (e + 1074)) by (apply Z.pow_pos_nonneg; lia).
    assert (Hp' : 0 < 2 ^ (e' + 1074)) by (apply Z.pow_pos_nonneg; lia).
    assert (Hs : 0 < scaled m e) by (unfold scaled; apply Z.mul_pos_pos; lia).
    destruct Hc' as [[-> ->] | [Hpos' Hcan']]; [unfold scaled in Hle at 2; lia|].
    assert (Hee : e <= e').
    { destruct (Z_le_gt_dec e e') as [|Hgt]; [assumption|].
      pose proof (scaled_lt_of_exponent m' e' m e Hpos' Hcan' Hpos Hcan ltac:(lia)).
      lia. }
    destruct m as [|p|p]; try lia. destruct m' as [|p'|p']; try lia.
    unfold finish.
    destruct (Z.leb_spec e' 971) as [Hfin'|Hinf'].
    + destruct (Z.leb_spec e 971) as [Hfin|Hinf]; [|lia].
      unfold F64.leb, SFleb, SFcompare.
      destruct (Z.compare_spec e e') as [E|E|E]; [|reflexivity|lia].
      subst e'. change (Pos.compare_cont Eq p p') with (Pos.compare p p').
      assert (Hpp : Z.pos p <= Z.pos p').
      { unfold scaled in Hle. apply Z.mul_le_mono_pos_r in Hle; lia. }
      destruct (Pos.compare_spec p p'); try reflexivity; lia.
    + destruct (e <=? 971); reflexivity.
Qed.

(** Two numbers a spreadsheet can hold, in their floating-point order,
    are equal or have strictly ordered values. *)
Lemma leb_scaled (m : positive) (e : Z) (m' : positive) (e' : Z) :
  bounded F64.prec F64.emax m e = true ->
  bounded F64.prec F64.emax m' e' = true ->
  F64.leb (S754_finite false m' e') (S754_finite false m e) = true ->
  (m' = m /\ e' = e) \/ scaled (Z.pos m') e' < scaled (Z.pos m) e.
Proof.
  intros Hb Hb' Hle.
  destruct (bounded_exponent m e Hb) as [Hc He].
  destruct (bounded_exponent m' e' Hb') as [Hc' He'].
  unfold F64.leb, SFleb, SFcompare in Hle.
  destruct (Z.compare_spec e' e) as [E|E|E]; [| |discriminate].
  - subst e'. change (Pos.compare_cont Eq m' m) with (Pos.compare m' m) in Hle.
    destruct (Pos.compare_spec m' m) as [P|P|P]; [left; auto | | discriminate].
    right. unfold scaled. apply Z.mul_lt_mono_pos_r; [|lia].
    apply Z.pow_pos_nonneg; lia.
  - right. apply scaled_lt_of_exponent; try assumption; lia.
Qed.

(** Division by a larger number gives a smaller (or equal) quotient. *)
Lemma div_antitone (t w w' : float) :
  F64.finite_pos t = true -> F64.finite_pos w = true ->
  F64.finite_pos w' = true ->
  F64.leb w' w = true ->
  F64.leb (F64.div t w) (F64.div t w') = true.
Proof.
  intros Ht Hw Hw' Hle.
  destruct (finite_pos_inv t Ht) as (mt & et & -> & Hbt).
  destruct (finite_pos_inv w Hw) as (mw & ew & -> & Hbw).
  destruct (finite_pos_inv w' Hw') as (mw' & ew' & -> & Hbw').
  destruct (div_rounds_to_nearest mt et mw ew Hbt Hbw) as (m & e & Hr & Hc & Hn).
  destruct (div_rounds_to_nearest mt et mw' ew' Hbt Hbw') as (m' & e' & Hr' & Hc' & Hn').
  destruct (leb_scaled mw ew mw' ew' Hbw Hbw' Hle) as [[-> ->] | Hlt].
  - rewrite Hr. apply leb_finish_refl.
    now destruct (canonical_or_zero_bounds _ _ Hc).
  - rewrite Hr, Hr'. apply leb_finish; try assumption.
    destruct (bounded_exponent mt et Hbt) as [_ Het].
    destruct (bounded_exponent mw' ew' Hbw') as [_ Hew'].
    apply (nearest_monotone (scaled (Z.pos mt) et * 2 ^ 1074)
             (scaled (Z.pos mw) ew) (scaled (Z.pos mw') ew')).
    + apply Z.mul_pos_pos; [|lia]. unfold scaled.
      apply Z.mul_pos_pos; [lia|]. apply Z.pow_pos_nonneg; lia.
    + split; [|exact Hlt]. unfold scaled.
      apply Z.mul_pos_pos; [lia|]. apply Z.pow_pos_nonneg; lia.
    + now apply scaled_nonneg.
    + now apply scaled_nonneg.
    + apply Hn. exact Hc'.
    + apply Hn'. exact Hc.
Qed.

(** ** Metric engine *)

Section MetricEngine.

Variable rdf : DataFrame.
Variable ref : Row.

(** Exactly one row of the group has [compute_elements == 1], and [ref]
    is that row. *)
Hypothesis one_reference :
  List.length (loc (fun r => compute_elements r =? 1) rdf) = 1%nat.
Hypothesis ref_in : In ref rdf.
Hypothesis ref_ce : compute_elements ref = 1.

Lemma reference_selected :
  loc (fun r => compute_elements r =? 1) rdf = [ref].
Proof.
  apply filter_singleton; [exact one_reference | exact ref_in |].
  now rewrite ref_ce.
Qed.

Lemma calculate_unfolded :
  calculate_speedup_and_efficiency rdf compute_elements walltime
  = inr (map (fun r => F64.div (walltime ref) (walltime r)) rdf,
         map (fun r => F64.div (walltime ref)
                         (F64.mul (walltime r)
                                  (F64.of_Z (compute_elements r)))) rdf,
         map (fun r => F64.div (walltime ref) (walltime r)) rdf).
Proof.
  unfold calculate_speedup_and_efficiency.
  rewrite reference_selected. cbn [column map series_to_float rbind ok].
  rewrite series_mul_columns.
  change (column walltime rdf) with (map walltime rdf).
  now rewrite !scalar_rdiv_map.
Qed.

End MetricEngine.

(** C1.  For a group with exactly one row at [compute_elements == 1], whose
    walltime is [t1], [calculate_speedup_and_efficiency] returns three
    series with one cell per row, and on every row [n]:
    [speedup(n) = t1 / walltime(n)],
    [strong_efficiency(n) = t1 / (walltime(n) * compute_elements(n))],
    [weak_efficiency(n) = t1 / walltime(n)]; the weak efficiency series is
    the speedup series. *)
Theorem calculate_speedup_and_efficiency_formulas :
  forall (rdf : DataFrame) (ref : Row),
    List.length (loc (fun r => compute_elements r =? 1) rdf) = 1%nat ->
    In ref rdf ->
    compute_elements ref = 1 ->
    exists speedup strong_efficiency weak_efficiency,
      calculate_speedup_and_efficiency rdf compute_elements walltime
      = inr (speedup, strong_efficiency, weak_efficiency)
      /\ List.length speedup = List.length rdf
      /\ List.length strong_efficiency = List.length rdf
      /\ List.length weak_efficiency = List.length rdf
      /\ (forall n row, nth_error rdf n = Some row ->
            nth_error speedup n
            = Some (F64.div (walltime ref) (walltime row))
            /\ nth_error strong_efficiency n
               = Some (F64.div (walltime ref)
                         (F64.mul (walltime row)
                                  (F64.of_Z (compute_elements row))))
            /\ nth_error weak_efficiency n
               = Some (F64.div (walltime ref) (walltime row)))
      /\ weak_efficiency = speedup.
Proof.
  intros rdf ref Hone Hin Hce.
  do 3 eexists. split; [apply (calculate_unfolded rdf ref Hone Hin Hce)|].
  rewrite !length_map. repeat split; try reflexivity.
  all: rewrite nth_error_map, H; reflexivity.
Qed.

Lemma calculate_speedup_and_efficiency_formulas_witness :
  exists speedup strong_efficiency weak_efficiency,
    calculate_speedup_and_efficiency sample_group compute_elements walltime
    = inr (speedup, strong_efficiency, weak_efficiency)
    /\ nth_error speedup 2 = Some (F64.of_Z 5)
    /\ nth_error strong_efficiency 2 = Some (F64.lit 5 4)
    /\ weak_efficiency = speedup.
Proof.
  destruct (calculate_speedup_and_efficiency_formulas sample_group
              (mkRow (Some "A") 1 (F64.of_Z 100) F64.zero))
    as (sp & st & wk & Hc & _ & _ & _ & Hrows & Hw).
  - reflexivity.
  - simpl. left. reflexivity.
  - reflexivity.
  - exists sp, st, wk. split; [exact Hc|].
    destruct (Hrows 2%nat (mkRow (Some "A") 4 (F64.of_Z 20) F64.zero)
                eq_refl) as (H1 & H2 & _).
    rewrite H1, H2. repeat split; try assumption; vm_compute; reflexivity.
Defined.

(** C8.  In a group with a unique reference row at [compute_elements == 1]
    and positive (finite) walltimes, the speedup computed at the
    [compute_elements == 1] row is exactly [1.0], and so is the strong
    efficiency computed at that row. *)
Theorem reference_row_speedup_and_efficiency_are_one :
  forall (rdf : DataFrame),
    List.length (loc (fun r => compute_elements r =? 1) rdf) = 1%nat ->
    (forall r, In r rdf -> F64.finite_pos (walltime r) = true) ->
    exists speedup strong_efficiency weak_efficiency,
      calculate_speedup_and_efficiency rdf compute_elements walltime
      = inr (speedup, strong_efficiency, weak_efficiency)
      /\ forall n row,
           nth_error rdf n = Some row ->
           compute_elements row = 1 ->
           nth_error speedup n = Some F64.one
           /\ nth_error strong_efficiency n = Some F64.one.
Proof.
  intros rdf Hone Hpos.
  destruct (loc (fun r => compute_elements r =? 1) rdf) as [|ref [|]] eqn:Hsel;
    try discriminate.
  assert (Href : In ref rdf /\ (compute_elements ref =? 1) = true).
  { apply (proj1 (filter_In (fun r => compute_elements r =? 1) ref rdf)).
    unfold loc in Hsel. rewrite Hsel. now left. }
  destruct Href as [Hin Hce]. apply Z.eqb_eq in Hce.
  assert (Hone' : List.length (loc (fun r => compute_elements r =? 1) rdf)
                  = 1%nat) by now rewrite Hsel.
  do 3 eexists. split; [apply (calculate_unfolded rdf ref Hone' Hin Hce)|].
  intros n row Hn Hrow.
  assert (row = ref) as ->.
  { assert (Hr : In row (loc (fun r => compute_elements r =? 1) rdf)).
    { apply (proj2 (filter_In (fun r => compute_elements r =? 1) row rdf)).
      split; [eapply nth_error_In; eauto|]. now apply Z.eqb_eq. }
    rewrite Hsel in Hr. destruct Hr as [<- | []]. reflexivity. }
  rewrite !nth_error_map, Hn. cbn [option_map]. rewrite Hce.
  change (F64.of_Z 1) with F64.one.
  rewrite (mul_one _ (Hpos ref Hin)), (div_self _ (Hpos ref Hin)).
  split; reflexivity.
Qed.

Lemma reference_row_speedup_and_efficiency_are_one_witness :
  exists speedup strong_efficiency weak_efficiency,
    calculate_speedup_and_efficiency sample_group compute_elements walltime
    = inr (speedup, strong_efficiency, weak_efficiency)
    /\ nth_error speedup 0 = Some F64.one
    /\ nth_error strong_efficiency 0 = Some F64.one.
Proof.
  destruct (reference_row_speedup_and_efficiency_are_one sample_group)
    as (sp & st & wk & Hc & Hrow).
  - reflexivity.
  - intros r [<- | [<- | [<- | []]]]; reflexivity.
  - exists sp, st, wk. split; [exact Hc|].
    apply (Hrow 0%nat (mkRow (Some "A") 1 (F64.of_Z 100) F64.zero));
      reflexivity.
Defined.

(** C9.  In a group with a unique reference row and positive (finite)
    walltimes, if the walltime does not increase when the number of compute
    elements increases, then the computed speedup does not decrease when
    the number of compute elements increases.  The order of the rows plays
    no part, so this holds for the frames sorted by compute elements. *)
Theorem speedup_is_monotone :
  forall (rdf : DataFrame),
    List.length (loc (fun r => compute_elements r =? 1) rdf) = 1%nat ->
    (forall r, In r rdf -> F64.finite_pos (walltime r) = true) ->
    (forall r1 r2, In r1 rdf -> In r2 rdf ->
       compute_elements r1 < compute_elements r2 ->
       F64.leb (walltime r2) (walltime r1) = true) ->
    exists speedup strong_efficiency weak_efficiency,
      calculate_speedup_and_efficiency rdf compute_elements walltime
      = inr (speedup, strong_efficiency, weak_efficiency)
      /\ forall i j ri rj,
           nth_error rdf i = Some ri ->
           nth_error rdf j = Some rj ->
           compute_elements ri < compute_elements rj ->
           exists si sj,
             nth_error speedup i = Some si
             /\ nth_error speedup j = Some sj
             /\ F64.leb si sj = true.
Proof.
  intros rdf Hone Hpos Hmono.
  destruct (loc (fun r => compute_elements r =? 1) rdf) as [|ref [|]] eqn:Hsel;
    try discriminate.
  assert (Href : In ref rdf /\ (compute_elements ref =? 1) = true).
  { apply (proj1 (filter_In (fun r => compute_elements r =? 1) ref rdf)).
    unfold loc in Hsel. rewrite Hsel. now left. }
  destruct Href as [Hin Hce]. apply Z.eqb_eq in Hce.
  assert (Hone' : List.length (loc (fun r => compute_elements r =? 1) rdf)
                  = 1%nat) by now rewrite Hsel.
  do 3 eexists. split; [apply (calculate_unfolded rdf ref Hone' Hin Hce)|].
  intros i j ri rj Hi Hj Hlt.
  rewrite !nth_error_map, Hi, Hj. cbn [option_map].
  do 2 eexists. split; [reflexivity|]. split; [reflexivity|].
  assert (Hri : In ri rdf) by (eapply nth_error_In; eauto).
  assert (Hrj : In rj rdf) by (eapply nth_error_In; eauto).
  apply div_antitone; auto.
Qed.

Lemma speedup_is_monotone_witness :
  exists speedup strong_efficiency weak_efficiency,
    calculate_speedup_and_efficiency sample_group compute_elements walltime
    = inr (speedup, strong_efficiency, weak_efficiency)
    /\ exists si sj,
         nth_error speedup 1 = Some si
         /\ nth_error speedup 2 = Some sj
         /\ F64.leb si sj = true.
Proof.
  destruct (speedup_is_monotone sample_group)
    as (sp & st & wk & Hc & Hord).
  - reflexivity.
  - intros r [<- | [<- | [<- | []]]]; reflexivity.
  - intros r1 r2 [<- | [<- | [<- | []]]] [<- | [<- | [<- | []]]] H;
      cbn [compute_elements] in H; try lia; reflexivity.
  - exists sp, st, wk. split; [exact Hc|].
    apply (Hord 1%nat 2%nat (mkRow (Some "A") 2 (F64.of_Z 60) F64.zero)
             (mkRow (Some "A") 4 (F64.of_Z 20) F64.zero));
      [reflexivity | reflexivity | cbn; lia].
Defined.

(** ** The stages of a run *)

Lemma with_trace_same (w : World) : with_trace w (trace w) = w.
Proof. now destruct w. Qed.

Lemma with_trace_nil (w : World) : with_trace w (trace w ++ []) = w.
Proof. rewrite app_nil_r. apply with_trace_same. Qed.

Lemma use_style_silently_exact (style : string) (w : World) :
  use_style_silently style w
  = (inr tt, with_trace w (trace w ++ style_events style w)).
Proof.
  unfold use_style_silently, style_events.
  destruct (str_nonempty style); cbn [andb].
  - unfold try_except, style_use.
    destruct (existsb (String.eqb style) (style_library w)); [reflexivity|].
    cbn. now rewrite with_trace_nil.
  - unfold ret. now rewrite with_trace_nil.
Qed.

Lemma use_style_or_warn_exact (style : string) (w : World) :
  use_style_or_warn style w
  = (inr tt, with_trace w (trace w ++ cat_style_events style w)).
Proof.
  unfold use_style_or_warn, cat_style_events.
  destruct (str_nonempty style).
  - unfold try_except, style_use.
    destruct (existsb (String.eqb style) (style_library w)); reflexivity.
  - unfold ret. now rewrite with_trace_nil.
Qed.

Lemma after_read_exact (args : Args) (w : World) :
  after_read args w
  = with_trace w
      (trace w ++ style_events (style args) w
       ++ [EvReadExcel (results_file args) (worksheet_name args)
             (usecols (filter_column args))]).
Proof.
  unfold after_read. rewrite use_style_silently_exact. cbn [snd].
  unfold emit, with_trace. cbn. now rewrite <- app_assoc.
Qed.

Lemma cat_after_read_exact (args : CatArgs) (w : World) :
  cat_after_read args w
  = with_trace w
      (trace w ++ cat_style_events (c_style args) w
       ++ [EvReadExcel (c_results_file args) (c_worksheet_name args)
             (cat_usecols (c_category_column args) (c_filter_column args))]).
Proof.
  unfold cat_after_read. rewrite use_style_or_warn_exact. cbn [snd].
  unfold emit, with_trace. cbn. now rewrite <- app_assoc.
Qed.

Lemma add_metrics_world (l : list (string * DataFrame)) (w : World) :
  snd (add_metrics l w) = w.
Proof.
  unfold add_metrics. induction l as [|[n d] l IH]; [reflexivity|].
  cbn [mapM]. unfold bind at 1. unfold bind at 1. unfold lift at 1. cbn [fst snd].
  destruct (calculate_speedup_and_efficiency d compute_elements walltime)
    as [e|[[sp st] wk]]; [reflexivity|].
  cbn [ret]. unfold bind at 1.
  destruct (mapM _ l w) as [[e|ys] w2] eqn:E; cbn in IH |- *; now subst.
Qed.

(** The main block up to its plot calls: the style, the loader, the
    metrics of every group and the collections of the charts. *)
Lemma main_data_stage (args : Args) (w : World) :
  main args w
  = match read_excel w (results_file args) (worksheet_name args)
            (usecols (filter_column args)) with
    | inl e => (inl e, after_read args w)
    | inr tbl =>
        let results := filter_and_aggregate (filter_column args) tbl in
        match fst (add_metrics (split_groups results) (after_read args w)) with
        | inl e => (inl e, after_read args w)
        | inr gd =>
            match assemble gd with
            | inl e => (inl e, after_read args w)
            | inr a =>
                make_plots args a
                  (sort Z.leb (unique Z.eqb (column compute_elements results)))
                  (after_read args w)
            end
        end
    end.
Proof.
  unfold main. unfold bind at 1. unfold after_read.
  rewrite use_style_silently_exact. cbn [snd].
  unfold bind at 1. unfold read_dataframe_from_excel at 1. cbn [read_excel with_trace].
  destruct (read_excel w _ _ _) as [e|tbl]; [reflexivity|].
  cbv zeta. unfold bind at 1.
  match goal with |- context [add_metrics ?l ?v] =>
    pose proof (add_metrics_world l v) as Hw;
    destruct (add_metrics l v) as [[e|gd] w0] end;
    cbn [fst snd] in *; subst w0; [reflexivity|].
  unfold bind at 1. unfold lift at 1.
  destruct (assemble gd) as [e|a]; reflexivity.
Qed.

Lemma categorical_data_stage COLOURS legend (args : CatArgs) (w : World) :
  categorical_main COLOURS legend args w
  = match read_excel_categorical w (c_results_file args) (c_worksheet_name args)
            (cat_usecols (c_category_column args) (c_filter_column args)) with
    | inl e => (inl e, cat_after_read args w)
    | inr [] => (inl (Raise "KeyError" "'walltime'"), cat_after_read args w)
    | inr (r :: tbl) =>
        match cat_speedup (c_baseline_category args)
                (cat_filter_and_aggregate (c_filter_column args) (r :: tbl)) with
        | inl e => (inl e, cat_after_read args w)
        | inr results =>
            cat_make_plots COLOURS legend args results (cat_after_read args w)
        end
    end.
Proof.
  unfold categorical_main. unfold bind at 1. unfold cat_after_read.
  rewrite use_style_or_warn_exact. cbn [snd].
  unfold bind at 1. unfold read_categorical at 1. cbn [read_excel_categorical with_trace].
  destruct (read_excel_categorical w _ _ _) as [e|[|r tbl]]; [reflexivity | reflexivity |].
  cbv zeta. unfold bind at 1. unfold walltime_column. cbn [List.length Nat.eqb ret].
  unfold bind at 1. unfold lift at 1.
  destruct (cat_speedup _ _) as [e|results]; reflexivity.
Qed.

(** *** Observations on the events of a chart *)

Lemma charts_app (t u : list Event) : charts (t ++ u) = charts t ++ charts u.
Proof. apply filter_app. Qed.

Lemma saved_files_app (t u : list Event) :
  saved_files (t ++ u) = saved_files t ++ saved_files u.
Proof. apply flat_map_app. Qed.

Lemma shown_figures_app (t u : list Event) :
  shown_figures (t ++ u) = shown_figures t ++ shown_figures u.
Proof. apply flat_map_app. Qed.

Lemma figures_app (t u : list Event) : figures (t ++ u) = figures t ++ figures u.
Proof. apply flat_map_app. Qed.

Lemma created_directories_app (t u : list Event) :
  created_directories (t ++ u) = created_directories t ++ created_directories u.
Proof. apply flat_map_app. Qed.

Lemma read_requests_app (t u : list Event) :
  read_requests (t ++ u) = read_requests t ++ read_requests u.
Proof. apply flat_map_app. Qed.

Lemma styles_applied_app (t u : list Event) :
  styles_applied (t ++ u) = styles_applied t ++ styles_applied u.
Proof. apply flat_map_app. Qed.

Lemma tight_layouts_app (t u : list Event) :
  tight_layouts (t ++ u) = (tight_layouts t + tight_layouts u)%nat.
Proof. unfold tight_layouts. now rewrite filter_app, length_app. Qed.

Lemma style_events_quiet (style : string) (w : World) :
  charts (style_events style w) = []
  /\ figures (style_events style w) = []
  /\ saved_files (style_events style w) = []
  /\ shown_figures (style_events style w) = []
  /\ created_directories (style_events style w) = []
  /\ read_requests (style_events style w) = [].
Proof. unfold style_events. destruct (_ && _); repeat split. Qed.

Lemma cat_style_events_quiet (style : string) (w : World) :
  charts (cat_style_events style w) = []
  /\ figures (cat_style_events style w) = []
  /\ saved_files (cat_style_events style w) = []
  /\ shown_figures (cat_style_events style w) = []
  /\ created_directories (cat_style_events style w) = []
  /\ read_requests (cat_style_events style w) = []
  /\ tight_layouts (cat_style_events style w) = 0%nat.
Proof.
  unfold cat_style_events.
  destruct (str_nonempty style); [destruct (existsb _ _)|]; repeat split.
Qed.

(** The events of a [save] that stops in [os.makedirs] or in
    [plt.savefig]: a directory made and a line printed, at most. *)
Lemma setup_events_quiet (evs : list Event) :
  forallb is_setup evs = true ->
  charts evs = [] /\ figures evs = [] /\ saved_files evs = []
  /\ shown_figures evs = [] /\ read_requests evs = []
  /\ styles_applied evs = [] /\ tight_layouts evs = 0%nat.
Proof.
  induction evs as [|e evs IH]; [repeat split|].
  cbn [forallb]. intros H. apply andb_true_iff in H. destruct H as [He H].
  destruct (IH H) as (H1 & H2 & H3 & H4 & H5 & H6 & H7).
  destruct e; try discriminate; cbn; repeat split; assumption.
Qed.

(** *** The chart renderer *)

Lemma mapM_guard {A B} (accepts : A -> bool) (f : A -> B) (e : exn)
    (l : list A) (w : World) :
  mapM (fun x => if accepts x then ret (f x) else throw e) l w
  = if forallb accepts l then (inr (map f l), w) else (inl e, w).
Proof.
  induction l as [|x l IH]; [reflexivity|].
  cbn [mapM forallb map]. unfold bind at 1.
  destruct (accepts x); cbn [andb]; [|reflexivity].
  unfold ret at 1. unfold bind at 1. rewrite IH.
  destruct (forallb accepts l); reflexivity.
Qed.

Lemma save_exact (fig : Figure) (path ext : string) (w : World) :
  save fig path ext true true w
  = let directory := save_directory path in
    let there := os_path_exists w (trace w) directory in
    match (if there then inr tt else os_makedirs w (trace w) directory) with
    | inl e => (inl e, w)
    | inr _ =>
        let said :=
          (if there then [] else [EvMakedirs directory])
          ++ [EvPrint ("Saving figure to '" ++ savepath path ext ++ "'...")] in
        match plt_savefig w (trace w ++ said) (savepath path ext) fig with
        | inl e => (inl e, with_trace w (trace w ++ said))
        | inr _ =>
            (inr tt,
             with_trace w (trace w ++ save_events w (trace w) fig path ext))
        end
    end.
Proof.
  cbv zeta. unfold save, save_events. unfold bind at 1. unfold path_exists at 1.
  destruct (os_path_exists w (trace w) (save_directory path)); cbn [negb].
  - unfold bind at 1. unfold ret at 1. unfold bind at 1. unfold print, perform at 1.
    unfold bind at 1. unfold savefig at 1. cbn [emit with_trace trace plt_savefig app].
    destruct (plt_savefig w _ _ _) as [e|[]]; [reflexivity|].
    unfold bind, perform, emit, with_trace. cbn. now rewrite <- !app_assoc.
  - unfold bind at 1. unfold makedirs at 1.
    destruct (os_makedirs w (trace w) (save_directory path)) as [e|[]]; [reflexivity|].
    unfold bind at 1. unfold print, perform at 1.
    unfold bind at 1. unfold savefig at 1. unfold emit.
    cbn [with_trace trace plt_savefig os_path_exists os_makedirs plt_figure
         read_excel read_excel_categorical style_library].
    rewrite <- !app_assoc. cbn [app].
    destruct (plt_savefig w _ _ _) as [e|[]]; [reflexivity|].
    unfold bind, perform, emit, with_trace. cbn. now rewrite <- !app_assoc.
Qed.

(** How one chart ends: shown or saved, or stopped by the file system or
    the backend after a directory was made and a line printed, at most. *)
Lemma show_or_save_outcome (show : bool) (fig : Figure) (name ext : string)
    (w : World) :
  show_or_save show fig name ext w
  = (inr tt, with_trace w (trace w ++ chart_events show w (trace w) fig name ext))
  \/ (show = false
      /\ exists e evs,
           show_or_save show fig name ext w
           = (inl e, with_trace w (trace w ++ evs))
           /\ forallb is_setup evs = true
           /\ raised_outside w e).
Proof.
  unfold show_or_save, chart_events. destruct show; [left; reflexivity|].
  rewrite save_exact. cbv zeta.
  destruct (os_path_exists w (trace w) (save_directory name)) eqn:Ex.
  - destruct (plt_savefig w _ _ _) as [e|[]] eqn:Es; [|left; reflexivity].
    right. split; [reflexivity|]. exists e. eexists. split; [reflexivity|].
    split; [reflexivity|]. right. right. eauto.
  - destruct (os_makedirs w _ _) as [e|[]] eqn:Em.
    + right. split; [reflexivity|]. exists e, []. rewrite with_trace_nil.
      split; [reflexivity|]. split; [reflexivity|]. left. eauto.
    + destruct (plt_savefig w _ _ _) as [e|[]] eqn:Es; [|left; reflexivity].
      right. split; [reflexivity|]. exists e. eexists. split; [reflexivity|].
      split; [reflexivity|]. right. right. eauto.
Qed.

Lemma plot_walltime_exact series cols names ce ymax size xl yl title name ext
    show w :
  plot_walltime series cols names ce ymax size xl yl title name ext show w
  = match plt_figure w (trace w) size with
    | inl e => (inl e, w)
    | inr _ =>
        if Nat.eqb (List.length series) 0
        then (inl (Raise "ZeroDivisionError" "float division by zero"), w)
        else if Nat.eqb (List.length ce) 0
        then (inl (Raise "IndexError"
                     "index 0 is out of bounds for axis 0 with size 0"), w)
        else if negb (forallb (fun t => broadcasts (List.length ce) (fst (fst t)))
                        (zip3 series cols names))
        then (inl (Raise "ValueError"
                     "shape mismatch: objects cannot be broadcast to a single shape"),
              w)
        else if negb (F64.is_finite ymax)
        then (inl (Raise "ValueError" "Axis limits cannot be NaN or Inf"), w)
        else show_or_save show
               (mkFigure title xl yl (IntTicks ce) None ymax
                  (map draw (zip3 series cols names))) name ext w
    end.
Proof.
  unfold plot_walltime. unfold bind at 1. unfold figure at 1.
  destruct (plt_figure w (trace w) size) as [e|[]]; [reflexivity|].
  unfold bind at 1. destruct (Nat.eqb (List.length series) 0); [reflexivity|].
  unfold ret at 1. unfold bind at 1.
  destruct (Nat.eqb (List.length ce) 0); [reflexivity|].
  unfold ret at 1. unfold bind at 1. unfold ax_bar. rewrite mapM_guard.
  destruct (forallb _ _); cbn [negb]; [|reflexivity].
  unfold bind at 1. unfold set_lim.
  destruct (F64.is_finite ymax); reflexivity.
Qed.

Lemma plot_lines_exact series cols names ce xmax ymax size xl yl title name ext
    show w :
  let outcome :=
    match plt_figure w (trace w) size with
    | inl e => (inl e, w)
    | inr _ =>
        if negb (F64.is_finite xmax && F64.is_finite ymax)
        then (inl (Raise "ValueError" "Axis limits cannot be NaN or Inf"), w)
        else if negb (forallb (fun t => Nat.eqb (List.length (fst (fst t)))
                                          (List.length ce))
                        (zip3 series cols names))
        then (inl (Raise "ValueError" "x and y must have same first dimension"), w)
        else show_or_save show
               (mkFigure title xl yl (IntTicks ce) (Some xmax) ymax
                  (map draw (zip3 series cols names))) name ext w
    end in
  plot_efficiency series cols names ce xmax ymax size xl yl title name ext show w
  = outcome
  /\ plot_speedup series cols names ce xmax ymax size xl yl title name ext show w
     = outcome.
Proof.
  cbv zeta. unfold plot_efficiency, plot_speedup.
  split; unfold bind at 1; unfold figure at 1;
    (destruct (plt_figure w (trace w) size) as [e|[]]; [reflexivity|]);
    unfold bind at 1; unfold set_lim at 1;
    (destruct (F64.is_finite xmax); cbn [andb negb]; [|reflexivity]);
    unfold ret at 1; unfold bind at 1; unfold set_lim at 1;
    (destruct (F64.is_finite ymax); cbn [negb]; [|reflexivity]);
    unfold ret at 1; unfold bind at 1; unfold ax_plot; rewrite mapM_guard;
    destruct (forallb _ _); reflexivity.
Qed.

Lemma plot_bar_exact legend tight series cols names ymax size xl yl title name
    ext show w :
  plot_bar legend tight series cols names ymax size xl yl title name ext show w
  = match plt_figure w (trace w) size with
    | inl e => (inl e, w)
    | inr _ =>
        if Nat.eqb (List.length series) 0
        then (inl (Raise "IndexError"
                     "index 0 is out of bounds for axis 0 with size 0"), w)
        else if negb (F64.is_finite ymax)
        then (inl (Raise "ValueError" "Axis limits cannot be NaN or Inf"), w)
        else
          let fig := legend
                       (mkFigure title xl yl (NameTicks names) None ymax
                          (map draw_bar
                             (zip3 (combine (seq 0 (List.length series)) series)
                                   cols names))) in
          if show then (inr tt, with_trace w (trace w ++ [EvShow fig]))
          else save fig name ext true true
                 (with_trace w (trace w ++ if tight then [EvTightLayout] else []))
    end.
Proof.
  unfold plot_bar. unfold bind at 1. unfold figure at 1.
  destruct (plt_figure w (trace w) size) as [e|[]]; [reflexivity|].
  unfold bind at 1. rewrite length_seq.
  destruct (Nat.eqb (List.length series) 0); [reflexivity|].
  unfold ret at 1. unfold bind at 1. unfold set_lim.
  destruct (F64.is_finite ymax); cbn [negb]; [|reflexivity].
  unfold ret at 1. cbv zeta. destruct show; [reflexivity|].
  unfold bind at 1. destruct tight.
  - reflexivity.
  - unfold ret at 1. now rewrite with_trace_nil.
Qed.

(** *** One chart *)

(** A plot call that raises before its chart is shown or saved. *)
Ltac stops_early :=
  right; eexists _, []; rewrite with_trace_nil;
  split; [reflexivity|]; split; [reflexivity|].

Lemma plot_walltime_outcome series cols names ce ymax size xl yl title name ext
    show w :
  series <> [] -> ce <> [] ->
  plot_walltime series cols names ce ymax size xl yl title name ext show w
  = (inr tt,
     with_trace w
       (trace w
        ++ chart_events show w (trace w)
             (mkFigure title xl yl (IntTicks ce) None ymax
                (map draw (zip3 series cols names))) name ext))
  \/ exists e evs,
       plot_walltime series cols names ce ymax size xl yl title name ext show w
       = (inl e, with_trace w (trace w ++ evs))
       /\ forallb is_setup evs = true
       /\ (exn_class e = "ValueError" \/ raised_outside w e).
Proof.
  intros Hs Hc. rewrite plot_walltime_exact.
  destruct (plt_figure w (trace w) size) as [e|[]] eqn:Ef.
  { stops_early. right. right. left. eauto. }
  destruct series as [|s0 series]; [congruence|].
  destruct ce as [|c0 ce]; [congruence|]. cbn [List.length Nat.eqb].
  destruct (forallb _ _); cbn [negb]; [|stops_early; now left].
  destruct (F64.is_finite ymax); cbn [negb]; [|stops_early; now left].
  match goal with |- context [show_or_save ?s ?f ?n ?x w] =>
    destruct (show_or_save_outcome s f n x w) as [E | (_ & e & evs & E & H1 & H2)] end.
  - left. exact E.
  - right. exists e, evs. rewrite E. split; [reflexivity|]. split; [exact H1|].
    right. exact H2.
Qed.

Lemma plot_lines_outcome series cols names ce xmax ymax size xl yl title name ext
    show w :
  let fig := mkFigure title xl yl (IntTicks ce) (Some xmax) ymax
               (map draw (zip3 series cols names)) in
  let outcome (r : result unit * World) :=
    r = (inr tt, with_trace w (trace w ++ chart_events show w (trace w) fig name ext))
    \/ exists e evs,
         r = (inl e, with_trace w (trace w ++ evs))
         /\ forallb is_setup evs = true
         /\ (exn_class e = "ValueError" \/ raised_outside w e) in
  outcome (plot_efficiency series cols names ce xmax ymax size xl yl title name
             ext show w)
  /\ outcome (plot_speedup series cols names ce xmax ymax size xl yl title name
                ext show w).
Proof.
  cbv zeta.
  destruct (plot_lines_exact series cols names ce xmax ymax size xl yl title name
              ext show w) as [-> ->].
  assert (H : forall r,
             r = match plt_figure w (trace w) size with
                 | inl e => (inl e, w)
                 | inr _ =>
                     if negb (F64.is_finite xmax && F64.is_finite ymax)
                     then (inl (Raise "ValueError" "Axis limits cannot be NaN or Inf"), w)
                     else if negb (forallb (fun t => Nat.eqb (List.length (fst (fst t)))
                                                       (List.length ce))
                                     (zip3 series cols names))
                     then (inl (Raise "ValueError"
                                  "x and y must have same first dimension"), w)
                     else show_or_save show
                            (mkFigure title xl yl (IntTicks ce) (Some xmax) ymax
                               (map draw (zip3 series cols names))) name ext w
                 end ->
             r = (inr tt,
                  with_trace w
                    (trace w
                     ++ chart_events show w (trace w)
                          (mkFigure title xl yl (IntTicks ce) (Some xmax) ymax
                             (map draw (zip3 series cols names))) name ext))
             \/ exists e evs,
                  r = (inl e, with_trace w (trace w ++ evs))
                  /\ forallb is_setup evs = true
                  /\ (exn_class e = "ValueError" \/ raised_outside w e)).
  { intros r ->.
    destruct (plt_figure w (trace w) size) as [e|[]] eqn:Ef.
    { stops_early. right. right. left. eauto. }
    destruct (F64.is_finite xmax && F64.is_finite ymax); cbn [negb];
      [|stops_early; now left].
    destruct (forallb _ _); cbn [negb]; [|stops_early; now left].
    match goal with |- context [show_or_save ?s ?f ?n ?x w] =>
      destruct (show_or_save_outcome s f n x w) as [E | (_ & e & evs & E & H1 & H2)] end.
    - left. exact E.
    - right. exists e, evs. rewrite E. split; [reflexivity|]. split; [exact H1|].
      right. exact H2. }
  split; apply H; reflexivity.
Qed.

(** *** The charts of [scaling_plot.py] *)

Lemma np_max_nonempty (axis : list Z) :
  axis <> [] -> exists m, np_max axis = inr m.
Proof. destruct axis; [congruence|]. intros _. eexists. reflexivity. Qed.

(** Without a series the walltime chart stops at its bar width. *)
Lemma make_plots_empty (args : Args) (a : Assembled) (axis : list Z) (w : World) :
  walltimes a = [] ->
  make_plots args a axis w
  = match plt_figure w (trace w) (plot_width args) with
    | inl e => (inl e, w)
    | inr _ => (inl (Raise "ZeroDivisionError" "float division by zero"), w)
    end.
Proof.
  intros H. unfold make_plots. cbv zeta. unfold bind at 1.
  rewrite plot_walltime_exact, H.
  now destruct (plt_figure w (trace w) (plot_width args)) as [e|[]].
Qed.

Lemma make_plots_outcome (args : Args) (a : Assembled) (axis : list Z) (m : Z)
    (w : World) :
  walltimes a <> [] -> np_max axis = inr m ->
  let cs := charts_of_run args a axis m in
  make_plots args a axis w
  = (inr tt,
     with_trace w
       (trace w ++ charts_events (window args) w (trace w) cs "png"))
  \/ exists e k evs,
       make_plots args a axis w
       = (inl e,
          with_trace w
            (trace w
             ++ charts_events (window args) w (trace w) (firstn k cs) "png"
             ++ evs))
       /\ (k < List.length cs)%nat
       /\ forallb is_setup evs = true
       /\ (exn_class e = "ValueError" \/ raised_outside w e).
Proof.
  intros Hs Hm. cbv zeta.
  assert (Hc : axis <> []) by (intros ->; discriminate).
  assert (Hlen : (2 <= List.length (charts_of_run args a axis m))%nat).
  { unfold charts_of_run. rewrite length_app. cbn. lia. }
  destruct (make_plots args a axis w) as [r w'] eqn:ER.
  unfold make_plots in ER. cbv zeta in ER. unfold bind at 1 in ER.
  match type of ER with context [plot_walltime ?s ?c ?n ?ce ?y ?z ?xl ?yl ?t ?f ?x ?sh w] =>
    destruct (plot_walltime_outcome s c n ce y z xl yl t f x sh w Hs Hc)
      as [E1 | (e & evs & E1 & H1 & H2)]; rewrite E1 in ER; clear E1 end.
  2:{ inversion ER; subst. right. exists e, 0%nat, evs.
      split; [reflexivity|]. split; [lia|]. split; assumption. }
  unfold bind at 1 in ER. unfold lift at 1 in ER. rewrite Hm in ER.
  unfold bind at 1 in ER.
  match type of ER with
    context [plot_efficiency ?s ?c ?n ?ce ?xm ?y ?z ?xl ?yl ?t ?f ?x ?sh ?v] =>
    destruct (plot_lines_outcome s c n ce xm y z xl yl t f x sh v) as [P _];
    cbv zeta in P;
    destruct P as [E2 | (e & evs & E2 & H1 & H2)]; rewrite E2 in ER; clear E2 end.
  2:{ inversion ER; subst. right. exists e, 1%nat, evs.
      split; [|split; [lia|split; assumption]].
      unfold charts_of_run, walltime_figure.
      cbn [firstn app charts_events with_trace trace].
      now rewrite app_nil_r, <- !app_assoc. }
  destruct (weak args) eqn:Ew; cbn [negb] in ER.
  { unfold ret in ER. inversion ER; subst. left.
    unfold charts_of_run, walltime_figure, efficiency_figure. rewrite Ew.
    cbn [app charts_events with_trace trace].
    now rewrite app_nil_r, <- !app_assoc. }
  unfold bind at 1 in ER. unfold lift at 1 in ER.
  match type of ER with
    context [plot_speedup ?s ?c ?n ?ce ?xm ?y ?z ?xl ?yl ?t ?f ?x ?sh ?v] =>
    destruct (plot_lines_outcome s c n ce xm y z xl yl t f x sh v) as [_ P];
    cbv zeta in P;
    destruct P as [E3 | (e & evs & E3 & H1 & H2)]; rewrite E3 in ER; clear E3 end.
  - inversion ER; subst. left.
    unfold charts_of_run, walltime_figure, efficiency_figure, speedup_figure.
    rewrite Ew. cbn [app charts_events with_trace trace].
    now rewrite app_nil_r, <- !app_assoc.
  - inversion ER; subst. right. exists e, 2%nat, evs.
    split; [|split; [|split; assumption]].
    + unfold charts_of_run, walltime_figure, efficiency_figure. rewrite Ew.
      cbn [firstn app charts_events with_trace trace].
      now rewrite app_nil_r, <- !app_assoc.
    + unfold charts_of_run. rewrite Ew. cbn. lia.
Qed.

(** A run that completes has drawn every chart. *)
Lemma make_plots_completed (args : Args) (a : Assembled) (axis : list Z)
    (w w' : World) :
  make_plots args a axis w = (inr tt, w') ->
  exists m,
    np_max axis = inr m
    /\ walltimes a <> []
    /\ w' = with_trace w
              (trace w
               ++ charts_events (window args) w (trace w)
                    (charts_of_run args a axis m) "png").
Proof.
  intros H.
  assert (Hs : walltimes a <> []).
  { intros E. rewrite (make_plots_empty args a axis w E) in H.
    destruct (plt_figure w (trace w) (plot_width args)) as [e|[]]; discriminate. }
  assert (Hc : axis <> []).
  { intros ->. revert H. unfold make_plots. cbv zeta. unfold bind at 1.
    rewrite plot_walltime_exact.
    destruct (plt_figure w (trace w) (plot_width args)) as [e|[]]; [discriminate|].
    destruct (Nat.eqb (List.length (walltimes a)) 0); discriminate. }
  destruct (np_max_nonempty axis Hc) as (m & Hm). exists m.
  split; [exact Hm|]. split; [exact Hs|].
  destruct (make_plots_outcome args a axis m w Hs Hm)
    as [E | (e & k & evs & E & _)]; rewrite E in H; [|discriminate].
  now inversion H.
Qed.

(** *** What the charts leave in the trace *)

Lemma save_events_seen (w : World) (t : list Event) (fig : Figure)
    (name ext : string) :
  figures (save_events w t fig name ext) = [fig]
  /\ saved_files (save_events w t fig name ext) = [savepath name ext]
  /\ shown_figures (save_events w t fig name ext) = []
  /\ read_requests (save_events w t fig name ext) = []
  /\ styles_applied (save_events w t fig name ext) = []
  /\ tight_layouts (save_events w t fig name ext) = 0%nat
  /\ created_directories (save_events w t fig name ext)
     = if os_path_exists w t (save_directory name) then []
       else [save_directory name].
Proof.
  unfold save_events.
  destruct (os_path_exists w t (save_directory name)); repeat split.
Qed.

Lemma chart_events_seen (show : bool) (w : World) (t : list Event) (fig : Figure)
    (name ext : string) :
  figures (chart_events show w t fig name ext) = [fig]
  /\ saved_files (chart_events show w t fig name ext)
     = (if show then [] else [savepath name ext])
  /\ shown_figures (chart_events show w t fig name ext)
     = (if show then [fig] else [])
  /\ read_requests (chart_events show w t fig name ext) = []
  /\ styles_applied (chart_events show w t fig name ext) = []
  /\ created_directories (chart_events show w t fig name ext)
     = if show || os_path_exists w t (save_directory name) then []
       else [save_directory name].
Proof.
  unfold chart_events. destruct show; [repeat split|].
  destruct (save_events_seen w t fig name ext) as (H1 & H2 & H3 & H4 & H5 & _ & H7).
  cbn [orb]. repeat split; assumption.
Qed.

Lemma charts_events_seen (show : bool) (w : World) (cs : list (Figure * string))
    (ext : string) :
  forall t,
    figures (charts_events show w t cs ext) = map fst cs
    /\ saved_files (charts_events show w t cs ext)
       = (if show then [] else map (fun c => savepath (snd c) ext) cs)
    /\ shown_figures (charts_events show w t cs ext)
       = (if show then map fst cs else [])
    /\ read_requests (charts_events show w t cs ext) = []
    /\ styles_applied (charts_events show w t cs ext) = [].
Proof.
  induction cs as [|[fig name] cs IH]; intros t.
  - destruct show; repeat split.
  - cbn [charts_events map fst snd].
    destruct (chart_events_seen show w t fig name ext) as (H1 & H2 & H3 & H4 & H5 & _).
    destruct (IH (t ++ chart_events show w t fig name ext))
      as (I1 & I2 & I3 & I4 & I5).
    rewrite figures_app, saved_files_app, shown_figures_app, read_requests_app,
      styles_applied_app, H1, H2, H3, H4, H5, I1, I2, I3, I4, I5.
    destruct show; repeat split.
Qed.

Lemma charts_events_firstn_seen (show : bool) (w : World)
    (cs : list (Figure * string)) (ext : string) (k : nat) (t evs : list Event) :
  forallb is_setup evs = true ->
  figures (charts_events show w t (firstn k cs) ext ++ evs) = firstn k (map fst cs)
  /\ saved_files (charts_events show w t (firstn k cs) ext ++ evs)
     = (if show then []
        else firstn k (map (fun c => savepath (snd c) ext) cs))
  /\ read_requests (charts_events show w t (firstn k cs) ext ++ evs) = []
  /\ styles_applied (charts_events show w t (firstn k cs) ext ++ evs) = [].
Proof.
  intros Hq.
  destruct (setup_events_quiet evs Hq) as (_ & Q2 & Q3 & _ & Q5 & Q6 & _).
  destruct (charts_events_seen show w (firstn k cs) ext t) as (I1 & I2 & _ & I4 & I5).
  rewrite figures_app, saved_files_app, read_requests_app, styles_applied_app,
    Q2, Q3, Q5, Q6, I1, I2, I4, I5, !app_nil_r, <- !firstn_map.
  destruct show; repeat split.
Qed.


Lemma charts_events_directories (show : bool) (w : World)
    (cs : list (Figure * string)) (ext : string) :
  forall t,
    created_directories (charts_events show w t cs ext)
    = if show then [] else missing_directories w t cs ext.
Proof.
  induction cs as [|[fig name] cs IH]; intros t.
  - now destruct show.
  - cbn [charts_events missing_directories]. rewrite created_directories_app, IH.
    destruct (chart_events_seen show w t fig name ext) as (_ & _ & _ & _ & _ & ->).
    destruct show; reflexivity.
Qed.

(** *** The world after a run of [scaling_plot.py] *)

Lemma after_read_seen (args : Args) (w : World) :
  os_path_exists (after_read args w) = os_path_exists w
  /\ os_makedirs (after_read args w) = os_makedirs w
  /\ plt_figure (after_read args w) = plt_figure w
  /\ plt_savefig (after_read args w) = plt_savefig w
  /\ figures (trace (after_read args w)) = figures (trace w)
  /\ charts (trace (after_read args w)) = charts (trace w)
  /\ saved_files (trace (after_read args w)) = saved_files (trace w)
  /\ shown_figures (trace (after_read args w)) = shown_figures (trace w)
  /\ created_directories (trace (after_read args w))
     = created_directories (trace w).
Proof.
  rewrite after_read_exact. cbn [with_trace os_path_exists os_makedirs plt_figure
    plt_savefig trace].
  destruct (style_events_quiet (style args) w) as (H1 & H2 & H3 & H4 & H5 & _).
  rewrite !figures_app, !charts_app, !saved_files_app, !shown_figures_app,
    !created_directories_app, H1, H2, H3, H4, H5. cbn.
  rewrite !app_nil_r. repeat split.
Qed.

(** A run that completes: the table was read, every group has its
    metrics, the collections were assembled and every chart was drawn. *)
Lemma main_completed (args : Args) (w w' : World) :
  main args w = (inr tt, w') ->
  exists tbl gd a m,
    read_excel w (results_file args) (worksheet_name args)
      (usecols (filter_column args)) = inr tbl
    /\ let results := filter_and_aggregate (filter_column args) tbl in
       let axis := sort Z.leb (unique Z.eqb (column compute_elements results)) in
       let w0 := after_read args w in
       add_metrics (split_groups results) w0 = (inr gd, w0)
       /\ assemble gd = inr a
       /\ np_max axis = inr m
       /\ walltimes a <> []
       /\ w' = with_trace w0
                 (trace w0
                  ++ charts_events (window args) w0 (trace w0)
                       (charts_of_run args a axis m) "png").
Proof.
  rewrite main_data_stage.
  destruct (read_excel w _ _ _) as [e|tbl]; [discriminate|]. cbv zeta.
  pose proof (add_metrics_world
                (split_groups (filter_and_aggregate (filter_column args) tbl))
                (after_read args w)) as Hw.
  destruct (add_metrics _ _) as [[e|gd] w0] eqn:Eadd; cbn [fst snd] in *;
    [discriminate|]. subst w0.
  destruct (assemble gd) as [e|a] eqn:Ea; [discriminate|].
  intros H. apply make_plots_completed in H. destruct H as (m & Hm & Hs & Hw').
  exists tbl, gd, a, m. repeat split; assumption.
Qed.

(** ** Missing or ambiguous reference row *)

Lemma series_to_float_not_one (s : Series float) :
  List.length s <> 1%nat -> series_to_float s = inl not_one_row.
Proof. destruct s as [|x [|y s]]; simpl; intros H; try reflexivity. now elim H. Qed.

Lemma calculate_fails (rdf : DataFrame) :
  List.length (loc (fun r => compute_elements r =? 1) rdf) <> 1%nat ->
  calculate_speedup_and_efficiency rdf compute_elements walltime
  = inl not_one_row.
Proof.
  intros H. unfold calculate_speedup_and_efficiency.
  rewrite series_to_float_not_one; [reflexivity|].
  unfold column. now rewrite length_map.
Qed.

Lemma calculate_total (rdf : DataFrame) :
  (exists m, calculate_speedup_and_efficiency rdf compute_elements walltime = inr m)
  \/ calculate_speedup_and_efficiency rdf compute_elements walltime = inl not_one_row.
Proof.
  unfold calculate_speedup_and_efficiency.
  destruct (column walltime (loc (fun r => compute_elements r =? 1) rdf))
    as [|x [|y s]]; simpl; eauto.
Qed.

Lemma add_metrics_fails (l : list (string * DataFrame)) (w : World) :
  (exists name df, In (name, df) l
     /\ List.length (loc (fun r => compute_elements r =? 1) df) <> 1%nat) ->
  add_metrics l w = (inl not_one_row, w).
Proof.
  unfold add_metrics. induction l as [|[n d] l IH]; intros (name & df & Hin & Hbad).
  - destruct Hin.
  - cbn [mapM]. unfold bind at 1. unfold bind at 1. unfold lift at 1. cbn [fst snd].
    destruct (calculate_total d) as [[[[sp st] wk] Hm] | Hm]; rewrite Hm.
    + cbn. unfold bind at 1.
      destruct Hin as [Heq | Hin].
      * inversion Heq; subst. rewrite (calculate_fails _ Hbad) in Hm. discriminate.
      * rewrite IH by eauto. reflexivity.
    + reflexivity.
Qed.

Lemma main_no_reference (args : Args) (w : World) (tbl : DataFrame) :
  read_excel w (results_file args) (worksheet_name args) (usecols (filter_column args)) = inr tbl ->
  (exists name df, In (name, df) (split_groups (filter_and_aggregate (filter_column args) tbl))
     /\ List.length (loc (fun r => compute_elements r =? 1) df) <> 1%nat) ->
  exists w', main args w = (inl not_one_row, w') /\ charts (trace w') = charts (trace w).
Proof.
  intros Hread Hbad. rewrite main_data_stage, Hread. cbv zeta.
  rewrite (add_metrics_fails _ _ Hbad). cbn [fst].
  eexists. split; [reflexivity|].
  now destruct (after_read_seen args w) as (_ & _ & _ & _ & _ & H & _).
Qed.

Lemma cat_speedup_fails (baseline : string) (results : list CatRow) :
  List.length (loc (fun r => option_string_eqb (category r) (Some baseline)) results) <> 1%nat ->
  cat_speedup baseline results = inl not_one_row.
Proof.
  intros H. unfold cat_speedup.
  rewrite series_to_float_not_one; [reflexivity|].
  unfold column. now rewrite length_map.
Qed.

Lemma cat_after_read_seen (args : CatArgs) (w : World) :
  os_path_exists (cat_after_read args w) = os_path_exists w
  /\ os_makedirs (cat_after_read args w) = os_makedirs w
  /\ plt_figure (cat_after_read args w) = plt_figure w
  /\ plt_savefig (cat_after_read args w) = plt_savefig w
  /\ figures (trace (cat_after_read args w)) = figures (trace w)
  /\ charts (trace (cat_after_read args w)) = charts (trace w)
  /\ saved_files (trace (cat_after_read args w)) = saved_files (trace w)
  /\ shown_figures (trace (cat_after_read args w)) = shown_figures (trace w)
  /\ created_directories (trace (cat_after_read args w))
     = created_directories (trace w)
  /\ tight_layouts (trace (cat_after_read args w)) = tight_layouts (trace w).
Proof.
  rewrite cat_after_read_exact. cbn [with_trace os_path_exists os_makedirs
    plt_figure plt_savefig trace].
  destruct (cat_style_events_quiet (c_style args) w)
    as (H1 & H2 & H3 & H4 & H5 & _ & H7).
  rewrite !figures_app, !charts_app, !saved_files_app, !shown_figures_app,
    !created_directories_app, !tight_layouts_app, H1, H2, H3, H4, H5, H7. cbn.
  rewrite !app_nil_r, !Nat.add_0_r. repeat split.
Qed.

Lemma categorical_main_no_baseline COLOURS legend (args : CatArgs) (w : World) (tbl : list CatRow) :
  read_excel_categorical w (c_results_file args) (c_worksheet_name args)
    (cat_usecols (c_category_column args) (c_filter_column args)) = inr tbl ->
  tbl <> [] ->
  List.length (loc (fun r => option_string_eqb (category r) (Some (c_baseline_category args)))
                 (cat_filter_and_aggregate (c_filter_column args) tbl)) <> 1%nat ->
  exists w', categorical_main COLOURS legend args w = (inl not_one_row, w')
             /\ charts (trace w') = charts (trace w).
Proof.
  intros Hread Hne Hbad. rewrite categorical_data_stage, Hread.
  destruct tbl as [|r tbl]; [congruence|].
  rewrite (cat_speedup_fails _ _ Hbad).
  eexists. split; [reflexivity|].
  now destruct (cat_after_read_seen args w) as (_ & _ & _ & _ & _ & H & _).
Qed.

Lemma categorical_main_no_rows COLOURS legend (args : CatArgs) (w : World) :
  read_excel_categorical w (c_results_file args) (c_worksheet_name args)
    (cat_usecols (c_category_column args) (c_filter_column args)) = inr [] ->
  exists w', categorical_main COLOURS legend args w
             = (inl (Raise "KeyError" "'walltime'"), w')
             /\ charts (trace w') = charts (trace w).
Proof.
  intros Hread. rewrite categorical_data_stage, Hread.
  eexists. split; [reflexivity|].
  now destruct (cat_after_read_seen args w) as (_ & _ & _ & _ & _ & H & _).
Qed.

(** C2 (as stated).  A group without a row at [compute_elements == 1] does
    not make the metric computation fail with a [DataError]: the exception
    raised is a [TypeError]. *)
Lemma missing_reference_is_not_a_data_error :
  calculate_speedup_and_efficiency no_reference_group compute_elements walltime
  = inl not_one_row
  /\ exn_class not_one_row = "TypeError"
  /\ ~ (exists msg,
          calculate_speedup_and_efficiency no_reference_group compute_elements
            walltime
          = inl (Raise "DataError" msg)).
Proof.
  split; [reflexivity|]. split; [reflexivity|].
  intros [msg H]. vm_compute in H. discriminate.
Qed.

(** C2 (amended).  When no row of a group matches [compute_elements == 1],
    or more than one row does, [calculate_speedup_and_efficiency] fails
    with the [TypeError] of [float(series)] instead of picking a reference
    row; a run of [scaling_plot.py] with such a group fails with that
    exception and no chart is produced.  The speedup step of the main
    block of [scaling_plot_categorical.py] does the same for the baseline
    category, and so does that block (its imports taken as given) on a
    worksheet with at least one data row; on a worksheet without data
    rows the block fails before, with [KeyError], and no chart is produced
    either. *)
Theorem missing_or_ambiguous_reference_raises_type_error :
  exn_class not_one_row = "TypeError"
  /\ (forall rdf : DataFrame,
        List.length (loc (fun r => compute_elements r =? 1) rdf) <> 1%nat ->
        calculate_speedup_and_efficiency rdf compute_elements walltime
        = inl not_one_row)
  /\ (forall (args : Args) (w : World) (tbl : DataFrame),
        read_excel w (results_file args) (worksheet_name args)
          (usecols (filter_column args)) = inr tbl ->
        (exists name df,
            In (name, df)
               (split_groups (filter_and_aggregate (filter_column args) tbl))
            /\ List.length (loc (fun r => compute_elements r =? 1) df) <> 1%nat) ->
        exists w', main args w = (inl not_one_row, w')
                   /\ charts (trace w') = charts (trace w))
  /\ (forall (baseline : string) (results : list CatRow),
        List.length (loc (fun r => option_string_eqb (category r) (Some baseline))
                         results) <> 1%nat ->
        cat_speedup baseline results = inl not_one_row)
  /\ (forall (COLOURS : list string) (add_sorted_legend : Figure -> Figure)
             (args : CatArgs) (w : World) (tbl : list CatRow),
        read_excel_categorical w (c_results_file args) (c_worksheet_name args)
          (cat_usecols (c_category_column args) (c_filter_column args))
        = inr tbl ->
        tbl <> [] ->
        List.length
          (loc (fun r => option_string_eqb (category r)
                           (Some (c_baseline_category args)))
               (cat_filter_and_aggregate (c_filter_column args) tbl)) <> 1%nat ->
        exists w', categorical_main COLOURS add_sorted_legend args w
                   = (inl not_one_row, w')
                   /\ charts (trace w') = charts (trace w))
  /\ (forall (COLOURS : list string) (add_sorted_legend : Figure -> Figure)
             (args : CatArgs) (w : World),
        read_excel_categorical w (c_results_file args) (c_worksheet_name args)
          (cat_usecols (c_category_column args) (c_filter_column args))
        = inr [] ->
        exists w', categorical_main COLOURS add_sorted_legend args w
                   = (inl (Raise "KeyError" "'walltime'"), w')
                   /\ charts (trace w') = charts (trace w)).
Proof.
  split; [reflexivity|]. split; [exact calculate_fails|].
  split; [exact main_no_reference|]. split; [exact cat_speedup_fails|].
  split; [exact categorical_main_no_baseline | exact categorical_main_no_rows].
Qed.

Lemma missing_or_ambiguous_reference_raises_type_error_witness :
  calculate_speedup_and_efficiency no_reference_group compute_elements walltime
  = inl not_one_row
  /\ (exists w', main sample_args (world_with no_reference_group [])
                 = (inl not_one_row, w')
                 /\ charts (trace w') = [])
  /\ cat_speedup "baseline" sample_categories = inl not_one_row
  /\ (exists w', categorical_main colours (fun f => f) sample_cat_args
                   (world_with [] [mkCatRow (Some "v2") (F64.of_Z 25) F64.zero])
                 = (inl not_one_row, w')
                 /\ charts (trace w') = [])
  /\ (exists w', categorical_main colours (fun f => f) sample_cat_args
                   (world_with [] [])
                 = (inl (Raise "KeyError" "'walltime'"), w')
                 /\ charts (trace w') = []).
Proof.
  destruct missing_or_ambiguous_reference_raises_type_error
    as (_ & Hcalc & Hmain & Hcat & Hcmain & Hempty).
  split; [|split; [|split; [|split]]].
  - apply Hcalc. vm_compute. discriminate.
  - apply (Hmain sample_args (world_with no_reference_group []) no_reference_group).
    + reflexivity.
    + exists "A", no_reference_group. split.
      * vm_compute. left. reflexivity.
      * vm_compute. discriminate.
  - apply Hcat. vm_compute. discriminate.
  - apply (Hcmain colours (fun f => f) sample_cat_args
             (world_with [] [mkCatRow (Some "v2") (F64.of_Z 25) F64.zero])
             [mkCatRow (Some "v2") (F64.of_Z 25) F64.zero]).
    + reflexivity.
    + discriminate.
    + vm_compute. discriminate.
  - apply (Hempty colours (fun f => f) sample_cat_args (world_with [] [])).
    reflexivity.
Defined.

(** ** Filter step *)

(** What the filter step keeps: the rows with a key, a walltime above zero
    and, when a filter column is named, a filter cell above zero. *)
Lemma filter_step_retains (filter_column : string) (results : DataFrame) (r : Row) :
  In r (apply_filter_column filter_column (filter_incomplete results))
  <-> In r results
      /\ group r <> None
      /\ F64.ltb F64.zero (walltime r) = true
      /\ (str_nonempty filter_column = true ->
          F64.ltb F64.zero (filter_value r) = true).
Proof.
  assert (Hn : notnull (group r) = true <-> group r <> None).
  { destruct (group r); simpl; split; congruence. }
  unfold apply_filter_column, filter_incomplete, loc.
  destruct (str_nonempty filter_column);
    rewrite !filter_In, andb_true_iff, Hn; intuition congruence.
Qed.

(** C3 (the code at the failing input).  A row with a key, a positive
    walltime and the filter cell [-1], which Python's boolean coercion
    makes true, is dropped by the filter step of either script. *)
Lemma truthy_negative_filter_cell_is_dropped :
  F64.truthy (filter_value negative_filter_row) = true
  /\ filter_incomplete [negative_filter_row] = [negative_filter_row]
  /\ apply_filter_column "keep" (filter_incomplete [negative_filter_row]) = []
  /\ F64.truthy (cat_filter_value negative_filter_category) = true
  /\ cat_filter_incomplete [negative_filter_category] = [negative_filter_category]
  /\ cat_apply_filter_column "keep"
       (cat_filter_incomplete [negative_filter_category]) = [].
Proof. repeat split. Qed.

(** ** Aggregation *)

Section GroupByFacts.
Context {R K : Type}.
Variable key_compare : K -> K -> comparison.
Variable key : R -> option K.
Variable time filt : R -> float.
Variable rebuild : K -> float -> float -> R.
Hypothesis compare_eq : forall a b, key_compare a b = Eq <-> a = b.
Hypothesis rebuild_key : forall k w f, key (rebuild k w f) = Some k.
Hypothesis rebuild_time : forall k w f, time (rebuild k w f) = w.

Lemma same_key_eq (a b : K) : same_key key_compare a b = true <-> a = b.
Proof.
  unfold same_key. rewrite <- compare_eq.
  destruct (key_compare a b); split; congruence.
Qed.

Lemma present_keys_In (k : K) (rdf : list R) :
  In k (present_keys key rdf) <-> exists r, In r rdf /\ key r = Some k.
Proof.
  unfold present_keys. rewrite in_flat_map. split.
  - intros (r & Hr & Hk). exists r. split; [exact Hr|].
    destruct (key r) as [k'|]; simpl in Hk; [|contradiction].
    destruct Hk as [-> | []]. reflexivity.
  - intros (r & Hr & Hk). exists r. split; [exact Hr|].
    rewrite Hk. now left.
Qed.

Lemma sorted_keys_In (k : K) (rdf : list R) :
  In k (sorted_keys key_compare key rdf) <-> exists r, In r rdf /\ key r = Some k.
Proof.
  unfold sorted_keys. rewrite <- present_keys_In.
  rewrite <- (unique_In _ same_key_eq k (present_keys key rdf)).
  split; apply Permutation_in; [|symmetry]; apply sort_perm.
Qed.

Lemma sorted_keys_NoDup (rdf : list R) : NoDup (sorted_keys key_compare key rdf).
Proof.
  unfold sorted_keys.
  eapply Permutation_NoDup; [symmetry; apply sort_perm|].
  apply (unique_NoDup _ same_key_eq).
Qed.

(** Where every key occurs once, a key selects its own row only. *)
Lemma members_single (k : K) (r : R) (rdf : list R) :
  NoDup (present_keys key rdf) -> In r rdf -> key r = Some k ->
  members key_compare key k rdf = [r].
Proof.
  unfold members, loc, present_keys.
  induction rdf as [|x rdf IH]; simpl; intros Hnd Hin Hk; [contradiction|].
  destruct (key x) as [kx|] eqn:Ex; simpl in Hnd.
  - inversion Hnd as [|? ? Hnotin Hnd']; subst.
    destruct (same_key key_compare k kx) eqn:Es.
    + apply same_key_eq in Es. subst kx.
      assert (Hnil : filter (fun r0 => match key r0 with
                                       | Some k' => same_key key_compare k k'
                                       | None => false end) rdf = []).
      { destruct (filter _ rdf) as [|y l] eqn:Ef; [reflexivity|].
        exfalso. apply Hnotin.
        assert (Hy : In y (y :: l)) by now left.
        rewrite <- Ef in Hy. apply filter_In in Hy. destruct Hy as [Hy1 Hy2].
        apply in_flat_map. exists y. split; [exact Hy1|].
        destruct (key y) as [ky|]; [|discriminate].
        apply same_key_eq in Hy2. subst. now left. }
      rewrite Hnil. destruct Hin as [-> | Hin]; [reflexivity|].
      exfalso. apply Hnotin. apply in_flat_map. exists r. split; [exact Hin|].
      rewrite Hk. now left.
    + destruct Hin as [-> | Hin].
      * rewrite Hk in Ex. inversion Ex; subst.
        assert (same_key key_compare kx kx = true) by now apply same_key_eq.
        congruence.
      * now apply IH.
  - destruct Hin as [-> | Hin]; [congruence|]. now apply IH.
Qed.

Lemma groupby_mean_In (r' : R) (rdf : list R) :
  In r' (groupby_mean key_compare key time filt rebuild rdf) <->
  exists k, (exists r, In r rdf /\ key r = Some k)
            /\ r' = rebuild k (mean (column time (members key_compare key k rdf)))
                              (mean (column filt (members key_compare key k rdf))).
Proof.
  unfold groupby_mean. rewrite in_map_iff. split.
  - intros (k & <- & Hk). exists k. split; [|reflexivity].
    now apply sorted_keys_In.
  - intros (k & Hk & ->). exists k. split; [reflexivity|].
    now apply sorted_keys_In.
Qed.

Lemma groupby_mean_keys (rdf : list R) :
  map key (groupby_mean key_compare key time filt rebuild rdf)
  = map Some (sorted_keys key_compare key rdf).
Proof.
  unfold groupby_mean. rewrite map_map. apply map_ext. intros k. apply rebuild_key.
Qed.

Lemma groupby_mean_NoDup (rdf : list R) :
  NoDup (map key (groupby_mean key_compare key time filt rebuild rdf)).
Proof.
  rewrite groupby_mean_keys. apply Injective_map_NoDup.
  - intros a b H. now inversion H.
  - apply sorted_keys_NoDup.
Qed.
End GroupByFacts.

Lemma group_ce_compare_eq (a b : string * Z) : group_ce_compare a b = Eq <-> a = b.
Proof.
  destruct a as [g n], b as [g' n']. unfold group_ce_compare. cbn [fst snd].
  split.
  - destruct (String.compare g g') eqn:E; try discriminate.
    apply string_compare_eq in E. intros H. apply Z.compare_eq in H. congruence.
  - intros H. inversion H; subst. rewrite string_compare_refl. apply Z.compare_refl.
Qed.

(** The rows sharing a (group, compute_elements) pair. *)
Lemma members_group_ce (g : string) (n : Z) (t : DataFrame) :
  members group_ce_compare group_ce_key (g, n) t
  = loc (fun r => option_string_eqb (group r) (Some g) && (compute_elements r =? n)) t.
Proof.
  unfold members, loc. apply filter_ext. intros r.
  unfold group_ce_key. destruct (group r) as [g'|]; [|reflexivity].
  apply eq_true_iff_eq.
  rewrite (same_key_eq group_ce_compare group_ce_compare_eq).
  rewrite andb_true_iff, option_string_eqb_eq, Z.eqb_eq.
  split; [intros H; inversion H; auto | intros [H1 H2]; inversion H1; congruence].
Qed.

Lemma members_category (c : string) (t : list CatRow) :
  members String.compare category c t
  = loc (fun r => option_string_eqb (category r) (Some c)) t.
Proof.
  unfold members, loc. apply filter_ext. intros r.
  destruct (category r) as [c'|]; [|reflexivity].
  apply eq_true_iff_eq.
  rewrite (same_key_eq String.compare string_compare_eq).
  rewrite option_string_eqb_eq. split; congruence.
Qed.

Lemma positive_not_nan (x : float) : F64.ltb F64.zero x = true -> F64.is_nan x = false.
Proof. destruct x; simpl; [reflexivity..|discriminate|reflexivity]. Qed.

Lemma mean_positive (s : Series float) :
  (forall x, In x s -> F64.ltb F64.zero x = true) ->
  s <> [] ->
  mean s = F64.div (fold_left F64.add s F64.zero)
                   (F64.of_Z (Z.of_nat (List.length s))).
Proof.
  intros Hpos Hne. unfold mean.
  rewrite forallb_filter_id.
  - destruct s; [now elim Hne | reflexivity].
  - apply forallb_forall. intros x Hx. now rewrite positive_not_nan by auto.
Qed.

Lemma mean_single (x : float) :
  F64.ltb F64.zero x = true -> F64.valid x = true -> mean [x] = x.
Proof.
  intros Hpos Hval. rewrite mean_positive.
  - cbn [fold_left List.length Z.of_nat]. change (F64.of_Z (Z.of_nat 1)) with F64.one.
    destruct x as [s|s| |s m e]; try discriminate.
    + destruct s; [discriminate | reflexivity].
    + destruct s; [discriminate|].
      change (F64.add F64.zero (S754_finite false m e)) with (S754_finite false m e).
      apply div_one. exact Hval.
  - intros y [<- | []]. exact Hpos.
  - discriminate.
Qed.

Lemma present_keys_group_ce (t : DataFrame) :
  (forall r, In r t -> group r <> None) ->
  map Some (present_keys group_ce_key t) = map group_ce_key t.
Proof.
  unfold present_keys, group_ce_key.
  induction t as [|r t IH]; intros H; [reflexivity|]. simpl.
  destruct (group r) as [g|] eqn:E.
  - simpl. f_equal. apply IH. intros; apply H; now right.
  - exfalso. apply (H r); [now left | exact E].
Qed.

Lemma present_keys_category (t : list CatRow) :
  (forall r, In r t -> category r <> None) ->
  map Some (present_keys category t) = map category t.
Proof.
  unfold present_keys.
  induction t as [|r t IH]; intros H; [reflexivity|]. simpl.
  destruct (category r) as [g|] eqn:E.
  - simpl. f_equal. apply IH. intros; apply H; now right.
  - exfalso. apply (H r); [now left | exact E].
Qed.

Section AggregateScaling.
Variable t : DataFrame.
Hypothesis filtered :
  forall r, In r t -> group r <> None /\ F64.ltb F64.zero (walltime r) = true.

Lemma aggregate_NoDup : NoDup (map group_ce_key (aggregate t)).
Proof.
  unfold aggregate. apply groupby_mean_NoDup.
  - apply group_ce_compare_eq.
  - intros [g n] w f. reflexivity.
Qed.

Lemma aggregate_row (r' : Row) :
  In r' (aggregate t) ->
  exists g, group r' = Some g
    /\ (exists r, In r t /\ group r = Some g
                  /\ compute_elements r = compute_elements r')
    /\ walltime r'
       = mean (column walltime
                 (loc (fun r => option_string_eqb (group r) (Some g)
                                && (compute_elements r =? compute_elements r')) t)).
Proof.
  unfold aggregate. intros H.
  apply (groupby_mean_In group_ce_compare group_ce_key walltime filter_value _
           group_ce_compare_eq) in H.
  destruct H as ([g n] & (r & Hr & Hk) & ->). cbn [group compute_elements walltime fst snd].
  exists g. split; [reflexivity|]. split.
  - exists r. split; [exact Hr|]. unfold group_ce_key in Hk.
    destruct (group r); inversion Hk; subst; auto.
  - now rewrite members_group_ce.
Qed.

Lemma aggregate_covers (r : Row) :
  In r t ->
  exists r', In r' (aggregate t) /\ group r' = group r
             /\ compute_elements r' = compute_elements r
             /\ walltime r'
                = mean (column walltime
                          (members group_ce_compare group_ce_key
                             (match group r with
                              | Some g => g
                              | None => EmptyString
                              end, compute_elements r) t)).
Proof.
  intros Hr. destruct (filtered r Hr) as [Hg _].
  destruct (group r) as [g|] eqn:Eg; [|congruence].
  eexists. split.
  - unfold aggregate.
    apply (groupby_mean_In group_ce_compare group_ce_key walltime filter_value _
             group_ce_compare_eq).
    exists (g, compute_elements r). split; [|reflexivity].
    exists r. split; [exact Hr|]. unfold group_ce_key. now rewrite Eg.
  - cbn [group compute_elements walltime fst snd]. auto.
Qed.
End AggregateScaling.

Section AggregateCategorical.
Variable t : list CatRow.
Hypothesis filtered :
  forall r, In r t -> category r <> None /\ F64.ltb F64.zero (cat_walltime r) = true.

Lemma cat_aggregate_NoDup : NoDup (map category (cat_aggregate t)).
Proof.
  unfold cat_aggregate. apply groupby_mean_NoDup.
  - apply string_compare_eq.
  - reflexivity.
Qed.

Lemma cat_aggregate_row (r' : CatRow) :
  In r' (cat_aggregate t) ->
  exists c, category r' = Some c
    /\ (exists r, In r t /\ category r = Some c)
    /\ cat_walltime r'
       = mean (column cat_walltime
                 (loc (fun r => option_string_eqb (category r) (Some c)) t)).
Proof.
  unfold cat_aggregate. intros H.
  apply (groupby_mean_In String.compare category cat_walltime cat_filter_value _
           string_compare_eq) in H.
  destruct H as (c & (r & Hr & Hk) & ->). cbn [category cat_walltime].
  exists c. split; [reflexivity|]. split; [now exists r|].
  now rewrite members_category.
Qed.

Lemma cat_aggregate_covers (r : CatRow) :
  In r t ->
  exists r', In r' (cat_aggregate t) /\ category r' = category r
             /\ cat_walltime r'
                = mean (column cat_walltime
                          (members String.compare category
                             (match category r with
                              | Some c => c
                              | None => EmptyString
                              end) t)).
Proof.
  intros Hr. destruct (filtered r Hr) as [Hg _].
  destruct (category r) as [c|] eqn:Ec; [|congruence].
  eexists. split.
  - unfold cat_aggregate.
    apply (groupby_mean_In String.compare category cat_walltime cat_filter_value _
             string_compare_eq).
    exists c. split; [|reflexivity]. now exists r.
  - cbn [category cat_walltime]. auto.
Qed.
End AggregateCategorical.

Lemma split_groups_rows (results : DataFrame) (name : string) (df : DataFrame) (r : Row) :
  In (name, df) (split_groups results) -> In r df -> In r results.
Proof.
  unfold split_groups.
  assert (G : forall (gs : list (option string)) (d : list (string * DataFrame)),
             (forall n f, In (n, f) d -> forall x, In x f -> In x results) ->
             forall n f,
               In (n, f)
                  (fold_left
                     (fun group_dataframes g =>
                        match g with
                        | Some name =>
                            let df := loc (fun r => option_string_eqb (group r) (Some name))
                                          results in
                            if negb (Nat.eqb (List.length df) 0)
                            then dict_set group_dataframes name
                                   (sort (fun a b => compute_elements a <=? compute_elements b) df)
                            else group_dataframes
                        | None => group_dataframes
                        end) gs d) ->
               forall x, In x f -> In x results).
  { induction gs as [|g gs IH]; intros d Hd n f; simpl; [apply Hd|].
    apply IH. destruct g as [g|]; [|exact Hd]. cbv zeta.
    destruct (negb _); [|exact Hd].
    intros n' f' Hin x Hx. apply dict_set_In in Hin. destruct Hin as [Hin | ->].
    - eapply Hd; eauto.
    - apply (Permutation_in _ (sort_perm _ _)) in Hx.
      unfold loc in Hx. now apply filter_In in Hx. }
  intros Hin Hr. eapply G; eauto. intros n f [].
Qed.

(** The rows of an aggregated table: one per pair, with the mean of the
    walltimes of the rows of the pair. *)
Lemma aggregate_means :
  forall t : DataFrame,
    (forall r, In r t ->
       group r <> None /\ F64.ltb F64.zero (walltime r) = true) ->
    NoDup (map group_ce_key (aggregate t))
    /\ (forall r, In r t ->
          exists r', In r' (aggregate t) /\ group r' = group r
                     /\ compute_elements r' = compute_elements r)
    /\ (forall r', In r' (aggregate t) ->
          let sharing :=
            loc (fun r => option_string_eqb (group r) (group r')
                          && (compute_elements r =? compute_elements r')) t in
          sharing <> []
          /\ walltime r'
             = F64.div (fold_left F64.add (column walltime sharing) F64.zero)
                       (F64.of_Z (Z.of_nat (List.length sharing))))
    /\ (NoDup (map group_ce_key t) ->
        (forall r, In r t -> F64.valid (walltime r) = true) ->
        forall r, In r t ->
          exists r', In r' (aggregate t) /\ group r' = group r
                     /\ compute_elements r' = compute_elements r
                     /\ walltime r' = walltime r).
Proof.
  intros t Hf. split; [apply aggregate_NoDup|]. split; [|split].
  + intros r Hr. destruct (aggregate_covers t Hf r Hr) as (r' & H1 & H2 & H3 & _).
    now exists r'.
  + intros r' Hr'. cbv zeta.
    destruct (aggregate_row t r' Hr') as (g & Hg & (r & Hr & Hrg & Hrn) & Hw).
    rewrite Hg.
    assert (Hin : In r (loc (fun r0 => option_string_eqb (group r0) (Some g)
                               && (compute_elements r0 =? compute_elements r')) t)).
    { apply filter_In. split; [exact Hr|]. rewrite Hrg, Hrn. simpl.
      now rewrite String.eqb_refl, Z.eqb_refl. }
    split; [intros E; rewrite E in Hin; destruct Hin|].
    rewrite Hw. rewrite <- (length_map walltime).
    apply mean_positive.
    * intros x Hx. apply in_map_iff in Hx. destruct Hx as (y & <- & Hy).
      apply filter_In in Hy. apply Hf. tauto.
    * intros E. apply (in_map walltime) in Hin. unfold column in E. rewrite E in Hin.
      destruct Hin.
  + intros Hnd Hval r Hr.
    destruct (aggregate_covers t Hf r Hr) as (r' & H1 & H2 & H3 & H4).
    exists r'. repeat split; try assumption.
    rewrite H4. destruct (Hf r Hr) as [Hg Hpos].
    destruct (group r) as [g|] eqn:Eg; [|congruence].
    rewrite (members_single group_ce_compare group_ce_key group_ce_compare_eq
               (g, compute_elements r) r t).
    * apply mean_single; auto.
    * apply NoDup_map_Some_inv. rewrite present_keys_group_ce; [exact Hnd|].
      intros x Hx. apply Hf. exact Hx.
    * exact Hr.
    * unfold group_ce_key. now rewrite Eg.
Qed.

Lemma cat_aggregate_means :
  forall t : list CatRow,
    (forall r, In r t ->
       category r <> None /\ F64.ltb F64.zero (cat_walltime r) = true) ->
    NoDup (map category (cat_aggregate t))
    /\ (forall r, In r t ->
          exists r', In r' (cat_aggregate t) /\ category r' = category r)
    /\ (forall r', In r' (cat_aggregate t) ->
          let sharing :=
            loc (fun r => option_string_eqb (category r) (category r')) t in
          sharing <> []
          /\ cat_walltime r'
             = F64.div (fold_left F64.add (column cat_walltime sharing) F64.zero)
                       (F64.of_Z (Z.of_nat (List.length sharing))))
    /\ (NoDup (map category t) ->
        (forall r, In r t -> F64.valid (cat_walltime r) = true) ->
        forall r, In r t ->
          exists r', In r' (cat_aggregate t) /\ category r' = category r
                     /\ cat_walltime r' = cat_walltime r).
Proof.
  intros t Hf. split; [apply cat_aggregate_NoDup|]. split; [|split].
  + intros r Hr. destruct (cat_aggregate_covers t Hf r Hr) as (r' & H1 & H2 & _).
    now exists r'.
  + intros r' Hr'. cbv zeta.
    destruct (cat_aggregate_row t r' Hr') as (c & Hc & (r & Hr & Hrc) & Hw).
    rewrite Hc.
    assert (Hin : In r (loc (fun r0 => option_string_eqb (category r0) (Some c)) t)).
    { apply filter_In. split; [exact Hr|]. rewrite Hrc. simpl.
      now rewrite String.eqb_refl. }
    split; [intros E; rewrite E in Hin; destruct Hin|].
    rewrite Hw. rewrite <- (length_map cat_walltime).
    apply mean_positive.
    * intros x Hx. apply in_map_iff in Hx. destruct Hx as (y & <- & Hy).
      apply filter_In in Hy. apply Hf. tauto.
    * intros E. apply (in_map cat_walltime) in Hin. unfold column in E. rewrite E in Hin.
      destruct Hin.
  + intros Hnd Hval r Hr.
    destruct (cat_aggregate_covers t Hf r Hr) as (r' & H1 & H2 & H4).
    exists r'. repeat split; try assumption.
    rewrite H4. destruct (Hf r Hr) as [Hg Hpos].
    destruct (category r) as [c|] eqn:Ec; [|congruence].
    rewrite (members_single String.compare category string_compare_eq c r t).
    * apply mean_single; auto.
    * apply NoDup_map_Some_inv. rewrite present_keys_category; [exact Hnd|].
      intros x Hx. apply Hf. exact Hx.
    * exact Hr.
    * exact Ec.
Qed.

Lemma cat_filter_step_retains (filter_column : string) (results : list CatRow)
    (r : CatRow) :
  In r (cat_apply_filter_column filter_column (cat_filter_incomplete results)) ->
  category r <> None /\ F64.ltb F64.zero (cat_walltime r) = true.
Proof.
  unfold cat_apply_filter_column, cat_filter_incomplete, loc.
  destruct (str_nonempty filter_column); rewrite !filter_In, andb_true_iff;
    intros H; (split; [|tauto]); destruct (category r); simpl in *;
    intuition congruence.
Qed.

(** What [add_metrics] returns: the frame of every group with the three
    series that the metric engine computes from that frame. *)
Lemma add_metrics_spec (l : list (string * DataFrame)) (w : World)
    (gd : list (string * GroupData)) :
  fst (add_metrics l w) = inr gd ->
  Forall2 (fun frame item =>
             fst item = fst frame
             /\ gd_rows (snd item) = snd frame
             /\ calculate_speedup_and_efficiency (snd frame) compute_elements
                  walltime
                = inr (gd_speedup (snd item), gd_strong_efficiency (snd item),
                       gd_weak_efficiency (snd item)))
          l gd.
Proof.
  unfold add_metrics. revert gd. induction l as [|[n d] l IH]; intros gd.
  - cbn. intros H. inversion H. constructor.
  - cbn [mapM]. unfold bind at 1. unfold bind at 1. unfold lift at 1. cbn [fst snd].
    destruct (calculate_speedup_and_efficiency d compute_elements walltime)
      as [e|[[sp st] wk]] eqn:Ec; [discriminate|].
    cbn [ret]. unfold bind at 1.
    destruct (mapM _ l w) as [[e|ys] w2] eqn:E; cbn [fst]; [discriminate|].
    intros H. inversion H; subst. constructor.
    + cbn [fst snd gd_rows gd_speedup gd_strong_efficiency gd_weak_efficiency].
      split; [reflexivity|]. split; [reflexivity | exact Ec].
    + apply IH. reflexivity.
Qed.

Lemma cat_speedup_length (baseline : string) (t : list CatRow) (results : list CatResult) :
  cat_speedup baseline t = inr results ->
  map cr_row results = t /\ List.length results = List.length t.
Proof.
  unfold cat_speedup, rbind.
  destruct (series_to_float _) as [e|t1]; [discriminate|].
  intros H. inversion H; subst. clear H. unfold scalar_rdiv, column.
  split.
  - rewrite map_map. cbn [cr_row]. rewrite <- (map_map fst (fun x => x)), map_id.
    induction t as [|r t IH]; [reflexivity|]. cbn. now rewrite IH.
  - rewrite length_map, length_combine, !length_map. lia.
Qed.

(** C4.  On a filtered table the aggregation step leaves one row per
    (group, compute_elements) pair (per category in the categorical
    script), every pair of the table is kept, and the walltime of the row
    of a pair is the arithmetic mean of the walltimes of the rows sharing
    it: their sum divided by their count.  Where every pair occurs once,
    every walltime is unchanged.  Two rows of one pair with walltimes 10
    and 20 give one row with walltime 15.

    The aggregation comes before any metric.  The rows that the filter
    step keeps are a filtered table; a run of [scaling_plot.py] gives the
    frames of the aggregated table of these rows, and nothing else, to the
    metric engine, which computes the three series of every group from
    the frame of that group; the shared axis is taken from the aggregated
    table too.  The main block of the categorical script computes its
    speedups from the aggregated table in the same way.  With two
    measurements of 10 and 20 of the reference run and one of 5 on two
    compute elements, the charts show the walltimes 15 and 5, the
    efficiencies 1 and 1.5 and the speedups 1 and 3. *)
Theorem aggregation_replaces_duplicates_by_their_mean :
  (forall t : DataFrame,
    (forall r, In r t ->
       group r <> None /\ F64.ltb F64.zero (walltime r) = true) ->
    NoDup (map group_ce_key (aggregate t))
    /\ (forall r, In r t ->
          exists r', In r' (aggregate t) /\ group r' = group r
                     /\ compute_elements r' = compute_elements r)
    /\ (forall r', In r' (aggregate t) ->
          let sharing :=
            loc (fun r => option_string_eqb (group r) (group r')
                          && (compute_elements r =? compute_elements r')) t in
          sharing <> []
          /\ walltime r'
             = F64.div (fold_left F64.add (column walltime sharing) F64.zero)
                       (F64.of_Z (Z.of_nat (List.length sharing))))
    /\ (NoDup (map group_ce_key t) ->
        (forall r, In r t -> F64.valid (walltime r) = true) ->
        forall r, In r t ->
          exists r', In r' (aggregate t) /\ group r' = group r
                     /\ compute_elements r' = compute_elements r
                     /\ walltime r' = walltime r))
  /\ (forall t : list CatRow,
    (forall r, In r t ->
       category r <> None /\ F64.ltb F64.zero (cat_walltime r) = true) ->
    NoDup (map category (cat_aggregate t))
    /\ (forall r, In r t ->
          exists r', In r' (cat_aggregate t) /\ category r' = category r)
    /\ (forall r', In r' (cat_aggregate t) ->
          let sharing :=
            loc (fun r => option_string_eqb (category r) (category r')) t in
          sharing <> []
          /\ cat_walltime r'
             = F64.div (fold_left F64.add (column cat_walltime sharing) F64.zero)
                       (F64.of_Z (Z.of_nat (List.length sharing))))
    /\ (NoDup (map category t) ->
        (forall r, In r t -> F64.valid (cat_walltime r) = true) ->
        forall r, In r t ->
          exists r', In r' (cat_aggregate t) /\ category r' = category r
                     /\ cat_walltime r' = cat_walltime r))
  /\ aggregate duplicated_rows = [ mkRow (Some "A") 1 (F64.of_Z 15) F64.zero ]
  /\ (forall results name df r,
        In (name, df) (split_groups results) -> In r df -> In r results)
  /\ (forall (filter_column : string) (tbl : DataFrame) (r : Row),
        In r (apply_filter_column filter_column (filter_incomplete tbl)) ->
        group r <> None /\ F64.ltb F64.zero (walltime r) = true)
  /\ (forall (filter_column : string) (tbl : list CatRow) (r : CatRow),
        In r (cat_apply_filter_column filter_column (cat_filter_incomplete tbl)) ->
        category r <> None /\ F64.ltb F64.zero (cat_walltime r) = true)
  /\ (forall (args : Args) (w : World) (tbl : DataFrame),
        read_excel w (results_file args) (worksheet_name args)
          (usecols (filter_column args)) = inr tbl ->
        let kept :=
          apply_filter_column (filter_column args) (filter_incomplete tbl) in
        let w0 := after_read args w in
        main args w
        = match fst (add_metrics (split_groups (aggregate kept)) w0) with
          | inl e => (inl e, w0)
          | inr group_dataframes =>
              match assemble group_dataframes with
              | inl e => (inl e, w0)
              | inr a =>
                  make_plots args a
                    (sort Z.leb
                       (unique Z.eqb (column compute_elements (aggregate kept))))
                    w0
              end
          end)
  /\ (forall (frames : list (string * DataFrame)) (w : World)
             (group_dataframes : list (string * GroupData)),
        fst (add_metrics frames w) = inr group_dataframes ->
        Forall2 (fun frame item =>
                   fst item = fst frame
                   /\ gd_rows (snd item) = snd frame
                   /\ calculate_speedup_and_efficiency (snd frame)
                        compute_elements walltime
                      = inr (gd_speedup (snd item),
                             gd_strong_efficiency (snd item),
                             gd_weak_efficiency (snd item)))
                frames group_dataframes)
  /\ (forall (COLOURS : list string) (add_sorted_legend : Figure -> Figure)
             (args : CatArgs) (w : World) (r : CatRow) (tbl : list CatRow),
        read_excel_categorical w (c_results_file args) (c_worksheet_name args)
          (cat_usecols (c_category_column args) (c_filter_column args))
        = inr (r :: tbl) ->
        let kept :=
          cat_apply_filter_column (c_filter_column args)
            (cat_filter_incomplete (r :: tbl)) in
        let w0 := cat_after_read args w in
        categorical_main COLOURS add_sorted_legend args w
        = match cat_speedup (c_baseline_category args) (cat_aggregate kept) with
          | inl e => (inl e, w0)
          | inr results => cat_make_plots COLOURS add_sorted_legend args results w0
          end)
  /\ (forall (baseline : string) (t : list CatRow) (results : list CatResult),
        cat_speedup baseline t = inr results -> map cr_row results = t)
  /\ (fst (main sample_args (world_with duplicated_reference [])) = inr tt
      /\ map (fun f => map art_values (fig_artists f))
            (figures
               (trace (snd (main sample_args (world_with duplicated_reference [])))))
         = [ [[F64.of_Z 15; F64.of_Z 5]];
             [[F64.one; F64.lit 3 2]];
             [[F64.one; F64.of_Z 3]] ]).
Proof.
  split; [exact aggregate_means|]. split; [exact cat_aggregate_means|].
  split; [vm_compute; reflexivity|]. split; [exact split_groups_rows|].
  split; [intros fc tbl r Hr; apply filter_step_retains in Hr; tauto|].
  split; [exact cat_filter_step_retains|].
  split; [intros args w tbl Hr; cbv zeta; now rewrite main_data_stage, Hr|].
  split; [exact add_metrics_spec|].
  split; [intros COLOURS legend args w r tbl Hr; cbv zeta;
          now rewrite categorical_data_stage, Hr|].
  split; [intros baseline t results H; now apply cat_speedup_length in H|].
  split; vm_compute; reflexivity.
Qed.

Lemma aggregation_replaces_duplicates_by_their_mean_witness :
  (exists r', In r' (aggregate duplicated_rows)
              /\ walltime r' = F64.of_Z 15)
  /\ (exists r', In r' (aggregate sample_group)
                 /\ compute_elements r' = 2
                 /\ walltime r' = F64.of_Z 60)
  /\ (exists r', In r' (cat_aggregate sample_categories)
                 /\ category r' = Some "v2"
                 /\ cat_walltime r' = F64.of_Z 25)
  /\ NoDup (map category (cat_aggregate sample_categories))
  /\ In (mkRow (Some "A") 4 (F64.of_Z 20) F64.zero) (aggregate sample_group)
  /\ (exists group_dataframes,
        fst (add_metrics (split_groups (aggregate duplicated_reference))
               (world_with duplicated_reference []))
        = inr group_dataframes
        /\ map (fun item => gd_speedup (snd item)) group_dataframes
           = [[F64.one; F64.of_Z 3]]).
Proof.
  destruct aggregation_replaces_duplicates_by_their_mean
    as (Hs & Hc & _ & Hrows & _ & _ & _ & Hmetrics & _).
  assert (Fdup : forall r, In r duplicated_rows ->
                   group r <> None /\ F64.ltb F64.zero (walltime r) = true).
  { intros r [<- | [<- | []]]; split; (discriminate || reflexivity). }
  assert (Fsam : forall r, In r sample_group ->
                   group r <> None /\ F64.ltb F64.zero (walltime r) = true).
  { intros r [<- | [<- | [<- | []]]]; split; (discriminate || reflexivity). }
  assert (Fcat : forall r, In r sample_categories ->
                   category r <> None /\ F64.ltb F64.zero (cat_walltime r) = true).
  { intros r [<- | [<- | []]]; split; (discriminate || reflexivity). }
  split; [|split; [|split; [|split; [|split]]]].
  - destruct (Hs duplicated_rows Fdup) as (_ & Hcov & Hmean & _).
    destruct (Hcov (mkRow (Some "A") 1 (F64.of_Z 10) F64.zero)) as (r' & Hin & Hg & Hn);
      [left; reflexivity|].
    exists r'. split; [exact Hin|].
    destruct (Hmean r' Hin) as (_ & Hw). rewrite Hw.
    cbn [group compute_elements] in Hg, Hn. rewrite Hg, Hn. vm_compute. reflexivity.
  - destruct (Hs sample_group Fsam) as (_ & _ & _ & Hsame).
    destruct (Hsame) with (r := mkRow (Some "A") 2 (F64.of_Z 60) F64.zero)
      as (r' & Hin & _ & Hn & Hw).
    + repeat constructor; simpl; intuition discriminate.
    + intros r [<- | [<- | [<- | []]]]; reflexivity.
    + right; left; reflexivity.
    + exists r'. split; [exact Hin|]. split; [exact Hn | exact Hw].
  - destruct (Hc sample_categories Fcat) as (_ & _ & _ & Hsame).
    destruct (Hsame) with (r := mkCatRow (Some "v2") (F64.of_Z 25) F64.zero)
      as (r' & Hin & Hg & Hw).
    + repeat constructor; simpl; intuition discriminate.
    + intros r [<- | [<- | []]]; reflexivity.
    + right; left; reflexivity.
    + exists r'. split; [exact Hin|]. split; [exact Hg | exact Hw].
  - destruct (Hc sample_categories Fcat) as (Hnd & _). exact Hnd.
  - apply (Hrows (aggregate sample_group) "A" (aggregate sample_group)).
    + vm_compute. left. reflexivity.
    + vm_compute. right. right. left. reflexivity.
  - destruct (fst (add_metrics (split_groups (aggregate duplicated_reference))
                     (world_with duplicated_reference [])))
      as [e|gd] eqn:E; [vm_compute in E; discriminate|].
    exists gd. split; [reflexivity|].
    pose proof (Hmetrics _ _ _ E) as H.
    assert (Hf : split_groups (aggregate duplicated_reference)
                 = [("A", [ mkRow (Some "A") 1 (F64.of_Z 15) F64.zero;
                            mkRow (Some "A") 2 (F64.of_Z 5) F64.zero ])])
      by (vm_compute; reflexivity).
    rewrite Hf in H. inversion H as [|frame item l l' (_ & _ & Hcalc) Hrest]; subst.
    inversion Hrest; subst. cbn [map snd] in *.
    match type of Hcalc with
    | ?x = _ =>
        assert (Hv : x = inr ([F64.one; F64.of_Z 3], [F64.one; F64.lit 3 2],
                              [F64.one; F64.of_Z 3]))
          by (vm_compute; reflexivity)
    end.
    rewrite Hv in Hcalc. inversion Hcalc as [[Hsp Hst Hwk]].
    cbn [map]. now f_equal.
Defined.

(** ** Series assembler *)

Lemma assemble_from_spec (items : list (string * GroupData)) :
  forall acc a,
    assemble_from acc items = inr a ->
    walltimes a
    = walltimes acc ++ map (fun it => column walltime (gd_rows (snd it))) items
    /\ strong_efficiencies a
       = strong_efficiencies acc ++ map (fun it => gd_strong_efficiency (snd it)) items
    /\ weak_efficiencies a
       = weak_efficiencies acc ++ map (fun it => gd_weak_efficiency (snd it)) items
    /\ speedups a = speedups acc ++ map (fun it => gd_speedup (snd it)) items
    /\ series_names a = series_names acc ++ map fst items.
Proof.
  induction items as [|[name data] items IH]; intros acc a H.
  - inversion H; subst. cbn [map]. now rewrite !app_nil_r.
  - cbn [assemble_from] in H. unfold assemble_step, rbind in H.
    destruct (py_max (column walltime (gd_rows data))) as [e|m]; [discriminate|].
    apply IH in H. cbn [walltimes strong_efficiencies weak_efficiencies speedups
                        series_names] in H.
    destruct H as (H1 & H2 & H3 & H4 & H5).
    rewrite H1, H2, H3, H4, H5. cbn [map fst snd].
    now rewrite <- !app_assoc.
Qed.

Lemma artists_of_zip (series : list (Series float)) (cols names : list string)
    (i : nat) :
  nth_error (map draw (zip3 series cols names)) i
  = match nth_error series i, nth_error cols i, nth_error names i with
    | Some values, Some colour, Some name => Some (mkArtist values colour name)
    | _, _, _ => None
    end.
Proof.
  rewrite nth_error_map, nth_error_zip3.
  destruct (nth_error series i); [|reflexivity].
  destruct (nth_error cols i); [|reflexivity].
  destruct (nth_error names i); reflexivity.
Qed.

Lemma figures_of_a_completed_run (args : Args) (w w' : World) :
  main args w = (inr tt, w') ->
  exists tbl gd a m,
    read_excel w (results_file args) (worksheet_name args)
      (usecols (filter_column args)) = inr tbl
    /\ let results := filter_and_aggregate (filter_column args) tbl in
       let axis := sort Z.leb (unique Z.eqb (column compute_elements results)) in
       fst (add_metrics (split_groups results) (after_read args w)) = inr gd
       /\ assemble gd = inr a
       /\ np_max axis = inr m
       /\ figures (trace w')
          = figures (trace w) ++ map fst (charts_of_run args a axis m).
Proof.
  intros H. destruct (main_completed args w w' H)
    as (tbl & gd & a & m & Hr & Hadd & Ha & Hm & _ & Hw').
  exists tbl, gd, a, m. split; [exact Hr|]. cbv zeta.
  split; [now rewrite Hadd|]. split; [exact Ha|]. split; [exact Hm|].
  rewrite Hw'. cbn [trace with_trace]. rewrite figures_app.
  destruct (after_read_seen args w) as (_ & _ & _ & _ & -> & _).
  now destruct (charts_events_seen (window args) (after_read args w)
                  (charts_of_run args a
                     (sort Z.leb
                        (unique Z.eqb
                           (column compute_elements
                              (filter_and_aggregate (filter_column args) tbl)))) m)
                  "png" (trace (after_read args w))) as (-> & _).
Qed.

(** C5 (the code at the failing input).  The series assembler returns one
    series of each metric and one name per group, in the order of the
    groups, and every chart of a run that completes is drawn by pairing
    the i-th series with the i-th colour of the palette and the i-th name.
    But the palette is not assigned round-robin: it is a list of nine
    colours, and the plotting loops stop at the shortest of their three
    sequences.  A chart has as many series as there are groups, and nine
    at most.  With ten groups [a] to [j] the run completes, every chart
    shows the nine groups [a] to [i], and the group [j] is assembled but
    never drawn. *)
Theorem groups_beyond_the_palette_are_not_drawn :
  List.length colours = 9%nat
  /\ (forall (args : Args) (w w' : World),
        main args w = (inr tt, w') ->
        exists tbl group_dataframes a figs,
          read_excel w (results_file args) (worksheet_name args)
            (usecols (filter_column args)) = inr tbl
          /\ fst (add_metrics
                    (split_groups (filter_and_aggregate (filter_column args) tbl))
                    (after_read args w))
             = inr group_dataframes
          /\ assemble group_dataframes = inr a
          /\ series_names a = map fst group_dataframes
          /\ walltimes a
             = map (fun item => column walltime (gd_rows (snd item)))
                   group_dataframes
          /\ strong_efficiencies a
             = map (fun item => gd_strong_efficiency (snd item)) group_dataframes
          /\ weak_efficiencies a
             = map (fun item => gd_weak_efficiency (snd item)) group_dataframes
          /\ speedups a = map (fun item => gd_speedup (snd item)) group_dataframes
          /\ figures (trace w') = figures (trace w) ++ figs
          /\ map fig_artists figs
             = [ map draw (zip3 (walltimes a) colours (series_names a));
                 map draw
                   (zip3 (if weak args then weak_efficiencies a
                          else strong_efficiencies a)
                         colours (series_names a)) ]
               ++ (if weak args then []
                   else [ map draw (zip3 (speedups a) colours (series_names a)) ])
          /\ Forall (fun f =>
                       List.length (fig_artists f)
                       = Nat.min (List.length group_dataframes) 9)
                    figs
          /\ (forall i name data colour,
                nth_error group_dataframes i = Some (name, data) ->
                nth_error colours i = Some colour ->
                map (fun f => nth_error (fig_artists f) i) figs
                = [ Some (mkArtist (column walltime (gd_rows data)) colour name);
                    Some (mkArtist
                            (if weak args then gd_weak_efficiency data
                             else gd_strong_efficiency data) colour name) ]
                  ++ (if weak args then []
                      else [ Some (mkArtist (gd_speedup data) colour name) ])))
  /\ (fst (main sample_args (world_with ten_groups [])) = inr tt
      /\ (exists a, assemble (assembled_input ten_groups) = inr a
                    /\ series_names a
                       = ["a"; "b"; "c"; "d"; "e"; "f"; "g"; "h"; "i"; "j"]
                    /\ List.length (walltimes a) = 10%nat
                    /\ List.length (speedups a) = 10%nat)
      /\ map (fun f => map art_label (fig_artists f))
            (figures (trace (snd (main sample_args (world_with ten_groups [])))))
         = [ ["a"; "b"; "c"; "d"; "e"; "f"; "g"; "h"; "i"];
             ["a"; "b"; "c"; "d"; "e"; "f"; "g"; "h"; "i"];
             ["a"; "b"; "c"; "d"; "e"; "f"; "g"; "h"; "i"] ]
      /\ map (fun f => map art_colour (fig_artists f))
            (figures (trace (snd (main sample_args (world_with ten_groups [])))))
         = [colours; colours; colours]).
Proof.
  split; [reflexivity|]. split.
  - intros args w w' H.
    destruct (figures_of_a_completed_run args w w' H)
      as (tbl & gd & a & m & Hr & Hadd & Ha & Hm & Hf).
    exists tbl, gd, a. eexists. split; [exact Hr|]. split; [exact Hadd|].
    split; [exact Ha|].
    unfold assemble in Ha. apply assemble_from_spec in Ha.
    cbn [walltimes strong_efficiencies weak_efficiencies speedups series_names app]
      in Ha.
    destruct Ha as (H1 & H2 & H3 & H4 & H5).
    split; [exact H5|]. split; [exact H1|]. split; [exact H2|]. split; [exact H3|].
    split; [exact H4|]. split; [exact Hf|].
    assert (Hlen : forall series : list (Series float),
               List.length series = List.length gd ->
               List.length (map draw (zip3 series colours (series_names a)))
               = Nat.min (List.length gd) 9).
    { intros series Hs. rewrite length_map, length_zip3, Hs, H5, length_map.
      cbn [List.length colours]. lia. }
    split; [|split].
    + unfold charts_of_run, walltime_figure, efficiency_figure, speedup_figure.
      now destruct (weak args).
    + unfold charts_of_run, walltime_figure, efficiency_figure, speedup_figure.
      destruct (weak args); cbn [map app fst fig_artists]; repeat constructor;
        apply Hlen; rewrite ?H1, ?H2, ?H3, ?H4; apply length_map.
    + intros i name data colour Hi Hc.
      unfold charts_of_run, walltime_figure, efficiency_figure, speedup_figure.
      destruct (weak args); cbn [map app fst fig_artists];
        rewrite !artists_of_zip, Hc, H1, ?H2, ?H3, ?H4, H5, !nth_error_map, Hi;
        reflexivity.
  - split; [vm_compute; reflexivity|]. split.
    + eexists. split; [vm_compute; reflexivity|]. repeat split.
    + split; vm_compute; reflexivity.
Qed.

(** ** Files written and figures shown *)

Lemma rsplit_no_slash (s : string) :
  has_slash s = false -> rsplit_slash s = (EmptyString, s).
Proof.
  induction s as [|c r IH]; simpl; [reflexivity|].
  intros H. apply orb_false_iff in H. destruct H as [Hc Hr].
  rewrite (IH Hr). simpl. now rewrite Hc.
Qed.

Lemma savepath_no_slash (name ext : string) :
  has_slash name = false ->
  save_directory name = "."
  /\ savepath name ext = ("./" ++ name ++ "." ++ ext)%string.
Proof.
  intros H. unfold savepath, save_directory, save_filename, path_split.
  rewrite (rsplit_no_slash name H). cbn [str_nonempty andb fst snd String.eqb].
  split; [reflexivity|].
  unfold path_join.
  assert (E : starts_with_slash (name ++ "." ++ ext)%string = false).
  { destruct name as [|c r]; [reflexivity|]. simpl in H |- *.
    apply orb_false_iff in H. tauto. }
  rewrite E. reflexivity.
Qed.

Lemma has_slash_app (a b : string) :
  has_slash (a ++ b)%string = has_slash a || has_slash b.
Proof.
  induction a as [|c a IH]; [reflexivity|]. cbn. now rewrite IH, orb_assoc.
Qed.

Lemma starts_with_slash_has_slash (s : string) :
  has_slash s = false -> starts_with_slash s = false.
Proof.
  destruct s as [|c s]; [reflexivity|]. cbn. intros H.
  apply orb_false_iff in H. tauto.
Qed.

Lemma rstrip_no_trailing_slash (s : string) :
  ends_with_slash s = false -> rstrip_slash s = s.
Proof.
  induction s as [|c s IH]; [reflexivity|]. cbn [ends_with_slash rstrip_slash].
  destruct s as [|c' s'].
  - intros H. cbn. now rewrite H.
  - intros H. rewrite (IH H). cbn [str_nonempty negb]. now rewrite andb_false_r.
Qed.

Lemma rstrip_slash_ends (s : string) : ends_with_slash (rstrip_slash s) = false.
Proof.
  induction s as [|c s IH]; [reflexivity|]. cbn [rstrip_slash].
  destruct (Ascii.eqb c slash && negb (str_nonempty (rstrip_slash s))) eqn:E;
    [reflexivity|].
  cbn [ends_with_slash]. destruct (rstrip_slash s) as [|c' s'] eqn:Er; [|exact IH].
  cbn in E. now rewrite andb_true_r in E.
Qed.

Lemma rstrip_slash_app_slash (s : string) :
  rstrip_slash (s ++ "/")%string = rstrip_slash s.
Proof.
  induction s as [|c s IH]; [reflexivity|]. cbn [append rstrip_slash]. now rewrite IH.
Qed.

Lemma ends_with_slash_app_slash (s : string) : ends_with_slash (s ++ "/")%string = true.
Proof.
  induction s as [|c s IH]; [reflexivity|]. cbn [append ends_with_slash].
  destruct (s ++ "/")%string eqn:E; [|exact IH]. destruct s; discriminate.
Qed.

Lemma rsplit_slash_empty_head (q h t : string) :
  rsplit_slash q = (h, t) -> str_nonempty h = false -> t = q.
Proof.
  revert h t. induction q as [|c q IH]; cbn [rsplit_slash]; intros h t H Hh.
  - now inversion H.
  - destruct (rsplit_slash q) as [h0 t0] eqn:E0.
    destruct (str_nonempty h0) eqn:Eh0.
    + inversion H; subst. discriminate.
    + destruct (Ascii.eqb c slash); inversion H; subst; [discriminate|reflexivity].
Qed.

Lemma rsplit_slash_tail (p : string) : has_slash (snd (rsplit_slash p)) = false.
Proof.
  induction p as [|c p IH]; [reflexivity|]. cbn [rsplit_slash].
  destruct (rsplit_slash p) as [h t] eqn:E. cbn [snd] in IH.
  destruct (str_nonempty h) eqn:Eh; [exact IH|].
  pose proof (rsplit_slash_empty_head p h t E Eh) as Ht. subst t.
  destruct (Ascii.eqb c slash) eqn:Ec; cbn [snd]; [exact IH|].
  cbn [has_slash]. now rewrite Ec.
Qed.

Lemma rsplit_slash_app (h f : string) :
  ends_with_slash h = true -> has_slash f = false ->
  rsplit_slash (h ++ f)%string = (h, f).
Proof.
  intros Hh Hf. induction h as [|c h IH]; [discriminate|].
  cbn [append rsplit_slash]. destruct h as [|c' h'].
  - cbn [append]. rewrite (rsplit_no_slash f Hf). cbn [str_nonempty].
    cbn [ends_with_slash] in Hh. now rewrite Hh.
  - rewrite IH by exact Hh. reflexivity.
Qed.

Lemma path_split_tail (p : string) : has_slash (snd (path_split p)) = false.
Proof.
  unfold path_split. pose proof (rsplit_slash_tail p) as H.
  destruct (rsplit_slash p) as [h t]. now destruct (_ && _).
Qed.

(** The directory computed by [save] is never empty, and either consists
    of slashes only or does not end with one. *)
Lemma save_directory_shape (path : string) :
  str_nonempty (save_directory path) = true
  /\ (ends_with_slash (save_directory path) = true ->
      rstrip_slash (save_directory path) = EmptyString).
Proof.
  unfold save_directory, path_split.
  destruct (rsplit_slash path) as [h t].
  destruct (str_nonempty h) eqn:Eh.
  - destruct (str_nonempty (rstrip_slash h)) eqn:Er; cbn [andb fst].
    + destruct (rstrip_slash h) as [|c r] eqn:E; [discriminate|].
      cbn [String.eqb]. split; [reflexivity|].
      rewrite <- E, rstrip_slash_ends. discriminate.
    + destruct h as [|c h']; [discriminate|]. cbn [String.eqb].
      split; [reflexivity|]. intros _.
      destruct (rstrip_slash (String c h')); [reflexivity | discriminate].
  - destruct h; [|discriminate]. cbn. split; [reflexivity | discriminate].
Qed.

Lemma append_slash_assoc (a b : string) :
  ((a ++ "/") ++ b)%string = (a ++ "/" ++ b)%string.
Proof. induction a as [|c a IH]; [reflexivity|]. cbn. now rewrite IH. Qed.

(** A name with a directory in front: the directory is the one of [save],
    and the file is written into it. *)
Lemma savepath_in_directory (dir name ext : string) :
  str_nonempty dir = true -> ends_with_slash dir = false ->
  has_slash name = false ->
  save_directory (dir ++ "/" ++ name) = dir
  /\ savepath (dir ++ "/" ++ name) ext = (dir ++ "/" ++ name ++ "." ++ ext)%string.
Proof.
  intros Hd He Hn.
  assert (Hs : path_split (dir ++ "/" ++ name) = (dir, name)).
  { unfold path_split. rewrite <- append_slash_assoc.
    rewrite (rsplit_slash_app _ name (ends_with_slash_app_slash dir) Hn).
    rewrite rstrip_slash_app_slash, (rstrip_no_trailing_slash dir He), Hd.
    destruct (dir ++ "/")%string eqn:E; [destruct dir; discriminate|]. reflexivity. }
  assert (Hdir : save_directory (dir ++ "/" ++ name) = dir).
  { unfold save_directory. rewrite Hs. cbn [fst].
    destruct dir; [discriminate | reflexivity]. }
  split; [exact Hdir|].
  unfold savepath, save_filename. rewrite Hdir, Hs. cbn [snd]. unfold path_join.
  assert (Hf : starts_with_slash (name ++ "." ++ ext) = false).
  { destruct name as [|c r]; [reflexivity|]. cbn in Hn |- *.
    apply orb_false_iff in Hn. tauto. }
  now rewrite Hf, Hd, He.
Qed.

(** The answers of the file system do not depend on the trace of the
    world that asks. *)
Lemma charts_events_world (show : bool) (w : World) (t0 : list Event)
    (cs : list (Figure * string)) (ext : string) :
  forall t,
    charts_events show (with_trace w t0) t cs ext = charts_events show w t cs ext.
Proof.
  induction cs as [|[fig name] cs IH]; intros t; [reflexivity|].
  cbn [charts_events]. now rewrite IH.
Qed.

Lemma missing_directories_world (w : World) (t0 : list Event)
    (cs : list (Figure * string)) (ext : string) :
  forall t,
    missing_directories (with_trace w t0) t cs ext = missing_directories w t cs ext.
Proof.
  induction cs as [|[fig name] cs IH]; intros t; [reflexivity|].
  cbn [missing_directories]. now rewrite IH.
Qed.

(** A [save] that returns. *)
Lemma save_completed (fig : Figure) (path ext : string) (w w' : World) :
  save fig path ext true true w = (inr tt, w') ->
  w' = with_trace w (trace w ++ save_events w (trace w) fig path ext).
Proof.
  rewrite save_exact. cbv zeta.
  destruct (os_path_exists w (trace w) (save_directory path)).
  - destruct (plt_savefig w _ _ _) as [e|[]]; [discriminate|]. now inversion 1.
  - destruct (os_makedirs w _ _) as [e|[]]; [discriminate|].
    destruct (plt_savefig w _ _ _) as [e|[]]; [discriminate|]. now inversion 1.
Qed.

(** A chart of [plot_bar] that is drawn. *)
Lemma plot_bar_completed legend tight series cols names ymax size xl yl title
    name ext show w w' :
  plot_bar legend tight series cols names ymax size xl yl title name ext show w
  = (inr tt, w') ->
  series <> []
  /\ w' = with_trace w
            (trace w
             ++ bar_events tight show w (trace w)
                  (legend
                     (mkFigure title xl yl (NameTicks names) None ymax
                        (map draw_bar
                           (zip3 (combine (seq 0 (List.length series)) series)
                                 cols names))))
                  name ext).
Proof.
  rewrite plot_bar_exact.
  destruct (plt_figure w (trace w) size) as [e|[]]; [discriminate|].
  destruct series as [|x series]; [discriminate|]. cbn [List.length Nat.eqb].
  destruct (F64.is_finite ymax); cbn [negb]; [|discriminate]. cbv zeta.
  unfold bar_events. destruct show.
  - intros H. inversion H. split; [discriminate | reflexivity].
  - intros H. apply save_completed in H. split; [discriminate|].
    rewrite H. cbn [with_trace trace]. unfold save_events.
    cbn [os_path_exists with_trace]. now rewrite <- !app_assoc.
Qed.

Lemma bar_events_seen (tight show : bool) (w : World) (t : list Event)
    (fig : Figure) (name ext : string) :
  figures (bar_events tight show w t fig name ext) = [fig]
  /\ saved_files (bar_events tight show w t fig name ext)
     = (if show then [] else [savepath name ext])
  /\ shown_figures (bar_events tight show w t fig name ext)
     = (if show then [fig] else [])
  /\ tight_layouts (bar_events tight show w t fig name ext)
     = (if tight && negb show then 1 else 0)%nat
  /\ created_directories (bar_events tight show w t fig name ext)
     = if show
          || os_path_exists w (t ++ (if tight then [EvTightLayout] else []))
               (save_directory name)
       then [] else [save_directory name].
Proof.
  unfold bar_events. destruct show; [now destruct tight|].
  destruct (save_events_seen w (t ++ (if tight then [EvTightLayout] else [])) fig
              name ext) as (H1 & H2 & H3 & _ & _ & H6 & H7).
  rewrite figures_app, saved_files_app, shown_figures_app, tight_layouts_app,
    created_directories_app, H1, H2, H3, H6, H7.
  destruct tight; repeat split.
Qed.

(** A run of the categorical main block that completes. *)
Lemma categorical_completed COLOURS legend (args : CatArgs) (w w' : World) :
  categorical_main COLOURS legend args w = (inr tt, w') ->
  exists r tbl results,
    read_excel_categorical w (c_results_file args) (c_worksheet_name args)
      (cat_usecols (c_category_column args) (c_filter_column args))
    = inr (r :: tbl)
    /\ cat_speedup (c_baseline_category args)
         (cat_filter_and_aggregate (c_filter_column args) (r :: tbl))
       = inr results
    /\ results <> []
    /\ let w0 := cat_after_read args w in
       let b1 := bar_events (c_tight args) (c_window args) w0 (trace w0)
                   (cat_walltime_figure COLOURS legend args results)
                   (add_optional_prefix "walltime" (c_file_prefix args) "-")
                   (c_file_extension args) in
       let b2 := bar_events (c_tight args) (c_window args) w0 (trace w0 ++ b1)
                   (cat_speedup_figure COLOURS legend args results)
                   (add_optional_prefix "speedup" (c_file_prefix args) "-")
                   (c_file_extension args) in
       w' = with_trace w0 (trace w0 ++ b1 ++ b2).
Proof.
  rewrite categorical_data_stage.
  destruct (read_excel_categorical w _ _ _) as [e|[|r tbl]]; try discriminate.
  destruct (cat_speedup _ _) as [e|results] eqn:Esp; [discriminate|].
  unfold cat_make_plots. cbv zeta. unfold bind at 1.
  match goal with |- context [plot_bar ?l ?t ?s ?c ?n ?y ?z ?xl ?yl ?ti ?f ?x ?sh ?v] =>
    destruct (plot_bar l t s c n y z xl yl ti f x sh v) as [[e|[]] w1] eqn:E1;
    [discriminate|]; apply plot_bar_completed in E1; destruct E1 as [Hne E1] end.
  intros H. apply plot_bar_completed in H. destruct H as [_ H].
  exists r, tbl, results. split; [reflexivity|]. split; [exact Esp|].
  split; [intros ->; now apply Hne|].
  rewrite H, E1. cbn [with_trace trace].
  unfold cat_walltime_figure, cat_speedup_figure, column.
  rewrite !length_map, <- !app_assoc. reflexivity.
Qed.

(** C6 (amended).  A run of [scaling_plot.py] that completes without
    [--window] saves, in this order, [<prefix->walltime.png],
    [<prefix->strong-efficiency.png] ([<prefix->weak-efficiency.png] under
    [--weak]) and, unless [--weak], [<prefix->speedup.png]; the prefix and
    its [-] are there exactly when a non-empty file prefix is given.  Each
    file goes to the directory part of its name: [./] when the name holds
    no [/], and [dir] for a name [dir/file]; before each file is written,
    [os.makedirs] is called for that directory exactly when
    [os.path.exists] answers false for it, and for no other directory.
    With [--window] nothing is saved, no directory is made and every chart
    is shown instead.  The main block of the categorical script, when it
    completes, does the same with [<prefix->walltime.<ext>] and
    [<prefix->speedup.<ext>], [<ext>] being the value of
    [--file-extension]. *)
Theorem saved_files_of_a_run :
  (forall (args : Args) (w w' : World),
     main args w = (inr tt, w') ->
     let names :=
       [ add_optional_prefix "walltime" (file_prefix args) "-";
         add_optional_prefix
           (if weak args then "weak-efficiency" else "strong-efficiency")
           (file_prefix args) "-" ]
       ++ (if weak args then []
           else [ add_optional_prefix "speedup" (file_prefix args) "-" ]) in
     if window args
     then saved_files (trace w') = saved_files (trace w)
          /\ created_directories (trace w') = created_directories (trace w)
          /\ List.length (shown_figures (trace w'))
             = (List.length (shown_figures (trace w)) + List.length names)%nat
     else saved_files (trace w')
          = saved_files (trace w) ++ map (fun n => savepath n "png") names
          /\ shown_figures (trace w') = shown_figures (trace w)
          /\ exists figs,
               List.length figs = List.length names
               /\ created_directories (trace w')
                  = created_directories (trace w)
                    ++ missing_directories w
                         (trace w ++ style_events (style args) w
                          ++ [EvReadExcel (results_file args) (worksheet_name args)
                                (usecols (filter_column args))])
                         (combine figs names) "png")
  /\ (forall (COLOURS : list string) (add_sorted_legend : Figure -> Figure)
             (args : CatArgs) (w w' : World),
        categorical_main COLOURS add_sorted_legend args w = (inr tt, w') ->
        let walltime_file :=
          add_optional_prefix "walltime" (c_file_prefix args) "-" in
        let speedup_file :=
          add_optional_prefix "speedup" (c_file_prefix args) "-" in
        if c_window args
        then saved_files (trace w') = saved_files (trace w)
             /\ created_directories (trace w') = created_directories (trace w)
             /\ List.length (shown_figures (trace w'))
                = (List.length (shown_figures (trace w)) + 2)%nat
        else saved_files (trace w')
             = saved_files (trace w)
               ++ [ savepath walltime_file (c_file_extension args);
                    savepath speedup_file (c_file_extension args) ]
             /\ shown_figures (trace w') = shown_figures (trace w)
             /\ exists t1 t2,
                  created_directories (trace w')
                  = created_directories (trace w)
                    ++ (if os_path_exists w t1 (save_directory walltime_file)
                        then [] else [save_directory walltime_file])
                    ++ (if os_path_exists w t2 (save_directory speedup_file)
                        then [] else [save_directory speedup_file]))
  /\ (forall base separator : string,
        add_optional_prefix base None separator = base
        /\ add_optional_prefix base (Some EmptyString) separator = base
        /\ forall p, str_nonempty p = true ->
             add_optional_prefix base (Some p) separator
             = (p ++ separator ++ base)%string)
  /\ (forall name ext : string,
        has_slash name = false ->
        save_directory name = "."
        /\ savepath name ext = ("./" ++ name ++ "." ++ ext)%string)
  /\ (forall dir name ext : string,
        str_nonempty dir = true -> ends_with_slash dir = false ->
        has_slash name = false ->
        save_directory (dir ++ "/" ++ name) = dir
        /\ savepath (dir ++ "/" ++ name) ext
           = (dir ++ "/" ++ name ++ "." ++ ext)%string)
  /\ (forall (fig : Figure) (path ext : string) (w w' : World),
        save fig path ext true true w = (inr tt, w') ->
        trace w'
        = trace w
          ++ (if os_path_exists w (trace w) (save_directory path) then []
              else [EvMakedirs (save_directory path)])
          ++ [ EvPrint ("Saving figure to '" ++ savepath path ext ++ "'...");
               EvSavefig (savepath path ext) fig; EvClose; EvPrint "Done" ]).
Proof.
  split; [|split; [|split; [|split; [|split]]]].
  - intros args w w' H.
    destruct (main_completed args w w' H)
      as (tbl & gd & a & m & _ & _ & _ & _ & _ & Hw').
    destruct (after_read_seen args w) as (_ & _ & _ & _ & _ & _ & S0 & F0 & D0).
    set (cs := charts_of_run args a _ m) in Hw'.
    destruct (charts_events_seen (window args) (after_read args w) cs "png"
                (trace (after_read args w))) as (_ & Hs & Hf & _).
    pose proof (charts_events_directories (window args) (after_read args w) cs "png"
                  (trace (after_read args w))) as Hd.
    rewrite Hw'. cbn [trace with_trace].
    rewrite saved_files_app, shown_figures_app, created_directories_app,
      Hs, Hf, Hd, S0, F0, D0.
    assert (Hn : map snd cs
                 = [ add_optional_prefix "walltime" (file_prefix args) "-";
                     add_optional_prefix
                       (if weak args then "weak-efficiency" else "strong-efficiency")
                       (file_prefix args) "-" ]
                   ++ (if weak args then []
                       else [ add_optional_prefix "speedup" (file_prefix args) "-" ])).
    { subst cs. unfold charts_of_run, efficiency_file. now destruct (weak args). }
    cbv zeta. rewrite <- Hn.
    destruct (window args).
    + rewrite !app_nil_r, length_app, !length_map. repeat split.
    + rewrite app_nil_r, map_map. split; [reflexivity|]. split; [reflexivity|].
      exists (map fst cs). split; [now rewrite !length_map|].
      rewrite after_read_exact, missing_directories_world. cbn [trace with_trace].
      f_equal. f_equal. clear. induction cs as [|[f n] cs IH]; [reflexivity|].
      cbn. now rewrite <- IH.
  - intros COLOURS legend args w w' H.
    destruct (categorical_completed COLOURS legend args w w' H)
      as (r & tbl & results & _ & _ & _ & Hw').
    cbv zeta in Hw'.
    destruct (cat_after_read_seen args w)
      as (Ex & _ & _ & _ & _ & _ & S0 & F0 & D0 & _).
    rewrite Hw'. cbn [trace with_trace].
    rewrite !saved_files_app, !shown_figures_app, !created_directories_app, S0, F0, D0.
    repeat match goal with
           | |- context [bar_events ?t ?s ?v ?h ?f ?n ?x] =>
               let B := fresh "B" in
               destruct (bar_events_seen t s v h f n x) as (_ & -> & -> & _ & ->)
           end.
    rewrite Ex. cbv zeta.
    destruct (c_window args); cbn [orb].
    + rewrite !app_nil_r, !length_app. cbn. split; [reflexivity|].
      split; [reflexivity | lia].
    + rewrite ?app_nil_r. split; [reflexivity|]. split; [reflexivity|].
      eexists _, _. reflexivity.
  - intros base separator. repeat split. intros p Hp. simpl. now rewrite Hp.
  - exact savepath_no_slash.
  - exact savepath_in_directory.
  - intros fig path ext w w' H. apply save_completed in H. now rewrite H.
Qed.

(** C6 (as stated).  A run with the default options saves no file named
    [efficiency.png]: the efficiency chart goes to
    [strong-efficiency.png]. *)
Lemma efficiency_chart_is_not_saved_as_efficiency :
  fst (main sample_args sample_world) = inr tt
  /\ saved_files (trace (snd (main sample_args sample_world)))
     = ["./walltime.png"; "./strong-efficiency.png"; "./speedup.png"]
  /\ ~ In "./efficiency.png"
          (saved_files (trace (snd (main sample_args sample_world)))).
Proof.
  split; [vm_compute; reflexivity|].
  assert (E : saved_files (trace (snd (main sample_args sample_world)))
              = ["./walltime.png"; "./strong-efficiency.png"; "./speedup.png"])
    by (vm_compute; reflexivity).
  split; [exact E|]. rewrite E.
  intros [H | [H | [H | []]]]; discriminate.
Qed.


Lemma saved_files_of_a_run_witness :
  saved_files (trace (snd (main prefixed_args sample_world)))
  = [ "out/run1/run-walltime.png"; "out/run1/run-strong-efficiency.png";
      "out/run1/run-speedup.png" ]
  /\ created_directories (trace (snd (main prefixed_args sample_world)))
     = [ "out/run1" ]
  /\ saved_files
       (trace (snd (categorical_main colours (fun f => f) sample_cat_args
                      sample_world)))
     = ["./walltime.png"; "./speedup.png"]
  /\ add_optional_prefix "walltime" (Some "out/run1/run") "-"
     = "out/run1/run-walltime"
  /\ savepath "walltime" "png" = "./walltime.png"
  /\ save_directory "out/run1/run-walltime" = "out/run1"
  /\ savepath "out/run1/run-walltime" "png" = "out/run1/run-walltime.png".
Proof.
  destruct saved_files_of_a_run as (Hrun & Hcat & Hprefix & Hflat & Hdir & _).
  assert (E : main prefixed_args sample_world
              = (inr tt, snd (main prefixed_args sample_world)))
    by (vm_compute; reflexivity).
  pose proof (Hrun prefixed_args sample_world _ E) as H.
  cbv zeta in H. change (window prefixed_args) with false in H.
  cbv iota in H. destruct H as (Hs & _ & figs & Hl & Hd).
  split; [|split; [|split; [|split; [|split]]]].
  - rewrite Hs. vm_compute. reflexivity.
  - rewrite Hd. destruct figs as [|f1 [|f2 [|f3 [|f4 figs]]]]; try discriminate Hl.
    vm_compute. reflexivity.
  - assert (Ec : categorical_main colours (fun f => f) sample_cat_args sample_world
                 = (inr tt,
                    snd (categorical_main colours (fun f => f) sample_cat_args
                           sample_world)))
      by (vm_compute; reflexivity).
    pose proof (Hcat colours (fun f => f) sample_cat_args sample_world _ Ec) as H.
    cbv zeta in H. change (c_window sample_cat_args) with false in H.
    cbv iota in H. destruct H as (Hc & _). rewrite Hc. vm_compute. reflexivity.
  - destruct (Hprefix "walltime" "-") as (_ & _ & H). apply H. reflexivity.
  - apply (Hflat "walltime" "png"). reflexivity.
  - apply (Hdir "out/run1" "run-walltime" "png"); reflexivity.
Defined.

(** ** Style selection *)

(** An invalid style never stops [scaling_plot.py], and never makes it
    print. *)
Lemma use_style_silently_invalid (style : string) (w : World) :
  existsb (String.eqb style) (style_library w) = false ->
  use_style_silently style w = (inr tt, w).
Proof.
  intros H. unfold use_style_silently. destruct (str_nonempty style); [|reflexivity].
  unfold try_except, style_use. now rewrite H.
Qed.

(** C7 (the code at the failing input).  With a style name that the style
    library does not hold, [scaling_plot.py] goes on without printing
    anything: the whole run is the run without [--style].  The categorical
    script prints its warning at the same point. *)
Lemma invalid_style_is_swallowed_without_warning :
  use_style_silently "nosuchstyle" sample_world = (inr tt, sample_world)
  /\ printed (trace (snd (use_style_silently "nosuchstyle" sample_world))) = []
  /\ main bad_style_args sample_world = main sample_args sample_world
  /\ fst (main bad_style_args sample_world) = inr tt
  /\ printed (trace (snd (use_style_or_warn "nosuchstyle" sample_world)))
     = ["Warning: 'nosuchstyle' is not a valid matplotlib style. Using default style."].
Proof. repeat split; vm_compute; reflexivity. Qed.

(** ** Import of the categorical script *)

(** C10.  Every invocation of the categorical script fails in its
    [from scaling_plot import ...] statement, before anything is read:
    [scaling_plot.py] binds neither [COLOURS] nor [add_sorted_legend] at
    its top level, and its palette [colours] is bound by the main block
    only. *)
Theorem categorical_script_fails_at_import :
  forall (COLOURS : list string) (add_sorted_legend : Figure -> Figure)
         (args : CatArgs) (w : World),
    scaling_plot_categorical COLOURS add_sorted_legend
      (scaling_plot_module false) args w
    = (inl (Raise "ImportError"
              "cannot import name 'COLOURS' from 'scaling_plot'"), w)
    /\ files_read (trace (snd (scaling_plot_categorical COLOURS add_sorted_legend
                                 (scaling_plot_module false) args w)))
       = files_read (trace w)
    /\ namespace_lookup "COLOURS" (scaling_plot_module false) = None
    /\ namespace_lookup "add_sorted_legend" (scaling_plot_module false) = None
    /\ namespace_lookup "colours" (scaling_plot_module false) = None
    /\ namespace_lookup "COLOURS" (scaling_plot_module true) = None
    /\ namespace_lookup "colours" (scaling_plot_module true)
       = Some (PyStrList colours).
Proof. intros. repeat split. Qed.

(** ** Filter step: the order of the selections *)

Lemma filter_comm {A} (p q : A -> bool) (l : list A) :
  filter p (filter q l) = filter q (filter p l).
Proof.
  induction l as [|x l IH]; [reflexivity|]. simpl.
  destruct (p x) eqn:P, (q x) eqn:Q; simpl; rewrite ?P, ?Q, IH; reflexivity.
Qed.

Lemma filter_idem {A} (p : A -> bool) (l : list A) :
  filter p (filter p l) = filter p l.
Proof.
  induction l as [|x l IH]; [reflexivity|]. simpl.
  destruct (p x) eqn:P; simpl; rewrite ?P, IH; reflexivity.
Qed.

(** X1.  The two selections of the filter step commute: dropping the
    incomplete rows first and selecting on the filter column second
    retains the same rows, in the same order, as the reverse; and
    filtering a filtered table again changes nothing.  The same holds in
    the categorical script. *)
Theorem filter_steps_commute :
  forall (filter_column : string) (results : DataFrame) (cat : list CatRow),
    apply_filter_column filter_column (filter_incomplete results)
    = filter_incomplete (apply_filter_column filter_column results)
    /\ apply_filter_column filter_column
         (filter_incomplete
            (apply_filter_column filter_column (filter_incomplete results)))
       = apply_filter_column filter_column (filter_incomplete results)
    /\ cat_apply_filter_column filter_column (cat_filter_incomplete cat)
       = cat_filter_incomplete (cat_apply_filter_column filter_column cat)
    /\ cat_apply_filter_column filter_column
         (cat_filter_incomplete
            (cat_apply_filter_column filter_column (cat_filter_incomplete cat)))
       = cat_apply_filter_column filter_column (cat_filter_incomplete cat).
Proof.
  intros fc results cat.
  unfold apply_filter_column, filter_incomplete, cat_apply_filter_column,
    cat_filter_incomplete, loc.
  destruct (str_nonempty fc).
  - repeat split.
    + apply filter_comm.
    + rewrite (filter_comm _ _ (filter _ (filter _ results))).
      rewrite filter_idem. rewrite (filter_comm _ _ (filter _ results)).
      now rewrite filter_idem.
    + apply filter_comm.
    + rewrite (filter_comm _ _ (filter _ (filter _ cat))).
      rewrite filter_idem. rewrite (filter_comm _ _ (filter _ cat)).
      now rewrite filter_idem.
  - repeat split; apply filter_idem.
Qed.

(** ** Frames of the groups and the shared axis *)

Section SortSorted.
Context {A : Type}.
Variable le : A -> A -> bool.
Hypothesis le_total : forall x y, le x y = false -> le y x = true.
Hypothesis le_trans : forall x y z, le x y = true -> le y z = true -> le x z = true.

Lemma insert_sorted_sorted (x : A) (l : list A) :
  StronglySorted (fun a b => le a b = true) l ->
  StronglySorted (fun a b => le a b = true) (insert_sorted le x l).
Proof.
  induction 1 as [|y l Hs IH Hy]; simpl.
  - constructor; constructor.
  - destruct (le x y) eqn:E.
    + constructor; [now constructor|]. constructor; [exact E|].
      rewrite Forall_forall in Hy |- *. intros z Hz. eapply le_trans; eauto.
    + constructor; [exact IH|].
      rewrite Forall_forall in Hy |- *. intros z Hz.
      apply (Permutation_in _ (insert_sorted_perm le x l)) in Hz.
      destruct Hz as [<- | Hz]; auto.
Qed.

Lemma sort_sorted (l : list A) :
  StronglySorted (fun a b => le a b = true) (sort le l).
Proof.
  induction l as [|x l IH]; simpl; [constructor|].
  now apply insert_sorted_sorted.
Qed.
End SortSorted.

Lemma sort_by_compute_elements (df : DataFrame) :
  StronglySorted (fun a b => compute_elements a <= compute_elements b)
    (sort (fun a b => compute_elements a <=? compute_elements b) df).
Proof.
  assert (H := sort_sorted (fun a b : Row => compute_elements a <=? compute_elements b)).
  specialize (H ltac:(intros x y E; apply Z.leb_gt in E; apply Z.leb_le; lia)
                ltac:(intros x y z E1 E2; apply Z.leb_le in E1, E2; apply Z.leb_le; lia) df).
  induction H as [|x l Hs IH Hx]; constructor; [exact IH|].
  eapply Forall_impl; [|exact Hx]. intros a Ha. now apply Z.leb_le.
Qed.

Lemma dict_set_fresh {V} (d : list (string * V)) (k : string) (v : V) :
  ~ In k (map fst d) -> dict_set d k v = d ++ [(k, v)].
Proof.
  induction d as [|[k' v'] d IH]; simpl; intros H; [reflexivity|].
  destruct (String.eqb k k') eqn:E.
  - apply String.eqb_eq in E. subst. tauto.
  - rewrite IH; tauto.
Qed.

Lemma some_cells_In {A} (x : A) (l : list (option A)) :
  In x (some_cells l) <-> In (Some x) l.
Proof.
  unfold some_cells. rewrite in_flat_map. split.
  - intros ([y|] & Hy & Hx); simpl in Hx; [|tauto].
    destruct Hx as [-> | []]. exact Hy.
  - intros H. exists (Some x). split; [exact H | now left].
Qed.

Lemma some_cells_NoDup {A} (l : list (option A)) :
  NoDup l -> NoDup (some_cells l).
Proof.
  induction 1 as [|c l Hc Hl IH]; simpl; [constructor|].
  destruct c as [x|]; simpl; [|exact IH].
  constructor; [|exact IH]. now rewrite some_cells_In.
Qed.

(** The frames of [split_groups], one per group name in order of first
    appearance. *)
Lemma split_groups_unfolded (results : DataFrame) :
  split_groups results
  = map (fun name =>
           (name,
            sort (fun a b => compute_elements a <=? compute_elements b)
              (loc (fun r => option_string_eqb (group r) (Some name)) results)))
        (some_cells (unique option_string_eqb (column group results))).
Proof.
  unfold split_groups.
  set (mk := fun name : string =>
           (name,
            sort (fun a b => compute_elements a <=? compute_elements b)
              (loc (fun r => option_string_eqb (group r) (Some name)) results))).
  match goal with |- fold_left ?f _ _ = _ => set (step := f) end.
  assert (G : forall gs d,
             NoDup gs ->
             (forall g, In g gs -> In g (column group results)) ->
             (forall n, In (Some n) gs -> ~ In n (map fst d)) ->
             fold_left step gs d = d ++ map mk (some_cells gs)).
  { induction gs as [|g gs IH]; intros d Hnd Hin Hfresh; simpl.
    - now rewrite app_nil_r.
    - inversion Hnd as [|? ? Hg Hnd']; subst.
      destruct g as [name|].
      + assert (Hne : negb (Nat.eqb (List.length
                   (loc (fun r => option_string_eqb (group r) (Some name)) results)) 0)
                 = true).
        { assert (H : In (Some name) (column group results)) by (apply Hin; now left).
          unfold column in H. apply in_map_iff in H. destruct H as (r & Hr & Hin').
          assert (H2 : In r (loc (fun r => option_string_eqb (group r) (Some name)) results)).
          { unfold loc. apply filter_In. split; [exact Hin'|].
            now apply option_string_eqb_eq. }
          destruct (loc _ results); [destruct H2 | reflexivity]. }
        unfold step at 2. cbv zeta. rewrite Hne.
        rewrite dict_set_fresh by (apply Hfresh; now left).
        rewrite IH.
        * cbn [some_cells flat_map app map]. fold (some_cells gs).
          rewrite <- app_assoc. reflexivity.
        * exact Hnd'.
        * intros g Hg'. apply Hin. now right.
        * intros n Hn. rewrite map_app, in_app_iff. cbn [map fst In].
          intros [H | [H | []]].
          -- revert H. apply Hfresh. now right.
          -- subst. contradiction.
      + unfold step at 2. cbn [some_cells flat_map app]. fold (some_cells gs).
        apply IH; auto.
        * intros g Hg'. apply Hin. now right.
        * intros n Hn. apply Hfresh. now right. }
  rewrite G; [reflexivity | | |].
  - apply unique_NoDup. apply option_string_eqb_eq.
  - intros g Hg.
    exact (proj1 (unique_In option_string_eqb option_string_eqb_eq g _) Hg).
  - intros n _ [].
Qed.

Lemma split_groups_facts :
  forall (results : DataFrame),
    map fst (split_groups results)
    = some_cells (unique option_string_eqb (column group results))
    /\ NoDup (map fst (split_groups results))
    /\ Forall (fun nd : string * DataFrame =>
         snd nd <> []
         /\ Permutation (snd nd)
              (loc (fun r => option_string_eqb (group r) (Some (fst nd))) results)
         /\ StronglySorted
              (fun a b => compute_elements a <= compute_elements b) (snd nd))
         (split_groups results)
    /\ Forall (fun r =>
         match group r with
         | Some name => exists df, In (name, df) (split_groups results) /\ In r df
         | None => True
         end) results.
Proof.
  intros results.
  assert (Hnames : map fst (split_groups results)
                   = some_cells (unique option_string_eqb (column group results))).
  { rewrite split_groups_unfolded, map_map. cbn [fst]. apply map_id. }
  split; [exact Hnames|]. split.
  { rewrite Hnames. apply some_cells_NoDup, unique_NoDup, option_string_eqb_eq. }
  split.
  - rewrite split_groups_unfolded. apply Forall_forall. intros [name df] Hin.
    apply in_map_iff in Hin. destruct Hin as (n & E & Hn). inversion E; subst.
    cbn [fst snd].
    assert (Hp := sort_perm (fun a b : Row => compute_elements a <=? compute_elements b)
                    (loc (fun r => option_string_eqb (group r) (Some name)) results)).
    split; [|split; [exact Hp | apply sort_by_compute_elements]].
    apply some_cells_In in Hn.
    apply (proj1 (unique_In option_string_eqb option_string_eqb_eq _ _)) in Hn.
    unfold column in Hn. apply in_map_iff in Hn. destruct Hn as (r & Hr & Hin).
    assert (H2 : In r (loc (fun r => option_string_eqb (group r) (Some name)) results)).
    { unfold loc. apply filter_In. split; [exact Hin|]. now apply option_string_eqb_eq. }
    intros E0. rewrite E0 in Hp. apply Permutation_nil in Hp. rewrite Hp in H2. exact H2.
  - apply Forall_forall. intros r Hr. destruct (group r) as [name|] eqn:Eg; [|exact I].
    eexists. split.
    + rewrite split_groups_unfolded. apply in_map_iff. exists name. split; [reflexivity|].
      apply some_cells_In.
      apply (proj2 (unique_In option_string_eqb option_string_eqb_eq _ _)).
      unfold column. apply in_map_iff. exists r. now split.
    + apply (Permutation_in _ (Permutation_sym (sort_perm _ _))).
      unfold loc. apply filter_In. split; [exact Hr|].
      apply option_string_eqb_eq. exact Eg.
Qed.

(** X2.  The loop of the main block that creates the frames of the groups
    gives one frame per group name of the table, in the order in which the
    names first appear (a [dict] keeps its insertion order), no name
    twice.  No frame is empty; a frame holds exactly the rows of its group
    (a permutation of them), sorted by ascending [compute_elements]; and
    every row of the table that has a group name is in the frame of that
    name. *)
Theorem split_groups_frames :
  forall (results : DataFrame),
    map fst (split_groups results)
    = some_cells (unique option_string_eqb (column group results))
    /\ NoDup (map fst (split_groups results))
    /\ Forall (fun nd : string * DataFrame =>
         snd nd <> []
         /\ Permutation (snd nd)
              (loc (fun r => option_string_eqb (group r) (Some (fst nd))) results)
         /\ StronglySorted
              (fun a b => compute_elements a <= compute_elements b) (snd nd))
         (split_groups results)
    /\ Forall (fun r =>
         match group r with
         | Some name => exists df, In (name, df) (split_groups results) /\ In r df
         | None => True
         end) results.
Proof. exact split_groups_facts. Qed.

Lemma StronglySorted_lt_of_le_NoDup (l : list Z) :
  StronglySorted Z.le l -> NoDup l -> StronglySorted Z.lt l.
Proof.
  induction 1 as [|x l Hs IH Hx]; intros Hnd; constructor;
    inversion Hnd as [|? ? Hx' Hnd']; subst.
  - now apply IH.
  - rewrite Forall_forall in Hx |- *. intros y Hy.
    specialize (Hx y Hy). assert (x <> y) by (intros ->; contradiction). lia.
Qed.

Lemma np_max_spec (a : list Z) :
  match a with
  | [] => True
  | _ :: _ => exists m, np_max a = inr m /\ In m a /\ Forall (fun n => n <= m) a
  end.
Proof.
  destruct a as [|x a]; [exact I|]. unfold np_max. eexists. split; [reflexivity|].
  revert x. induction a as [|y a IH]; intros x; cbn [fold_left].
  - split; [now left | constructor; [lia | constructor]].
  - destruct (IH (Z.max x y)) as [Hin Hall].
    inversion Hall as [|? ? Hm Hall']; subst. split.
    + destruct Hin as [E | Hin]; [|right; now right].
      destruct (Z.max_spec x y) as [[_ E'] | [_ E']]; rewrite E' in *.
      * right. now left.
      * now left.
    + constructor; [lia|]. constructor; [lia|]. exact Hall'.
Qed.

Lemma sorted_unique_In (l : list Z) (n : Z) :
  In n (sort Z.leb (unique Z.eqb l)) <-> In n l.
Proof.
  rewrite <- (unique_In Z.eqb Z.eqb_eq n l).
  split; apply Permutation_in; [apply sort_perm | apply Permutation_sym, sort_perm].
Qed.

(** X3.  The shared x axis [np.sort(results.compute_elements.unique())] is
    strictly ascending (sorted, no value twice) and holds exactly the
    compute-element counts of the table.  Its [max()] is the largest count
    of the table, and raises [ValueError] only for a table without
    rows. *)
Theorem compute_elements_axis_is_strictly_ascending :
  forall (results : DataFrame),
    let axis := sort Z.leb (unique Z.eqb (column compute_elements results)) in
    StronglySorted Z.lt axis
    /\ (forall n, In n axis <-> In n (column compute_elements results))
    /\ match results with
       | [] => np_max axis
               = inl (Raise "ValueError"
                        "zero-size array to reduction operation maximum which has no identity")
       | _ :: _ => exists m, np_max axis = inr m
                             /\ In m (column compute_elements results)
                             /\ Forall (fun r => compute_elements r <= m) results
       end.
Proof.
  intros results axis.
  assert (Hp : Permutation axis (unique Z.eqb (column compute_elements results)))
    by apply sort_perm.
  assert (Hin : forall n, In n axis <-> In n (column compute_elements results))
    by (intros n; apply sorted_unique_In).
  split; [|split; [exact Hin|]].
  - apply StronglySorted_lt_of_le_NoDup.
    + assert (H := sort_sorted Z.leb
                 ltac:(intros x y E; apply Z.leb_gt in E; apply Z.leb_le; lia)
                 ltac:(intros x y z E1 E2; apply Z.leb_le in E1, E2; apply Z.leb_le; lia)
                 (unique Z.eqb (column compute_elements results))).
      fold axis in H. clear -H.
      induction H as [|x l Hs IH Hx]; constructor; [exact IH|].
      eapply Forall_impl; [|exact Hx]. intros a Ha. now apply Z.leb_le.
    + apply (Permutation_NoDup (Permutation_sym Hp)).
      apply unique_NoDup, Z.eqb_eq.
  - destruct results as [|r rest].
    + reflexivity.
    + pose proof (np_max_spec axis) as Hm.
      destruct axis as [|x axis'] eqn:Ea.
      * exfalso. apply (proj2 (Hin (compute_elements r))). now left.
      * destruct Hm as (m & Hm & Hmin & Hall). exists m.
        split; [exact Hm|]. split; [now apply Hin|].
        apply Forall_forall. intros r' Hr'. rewrite Forall_forall in Hall.
        apply Hall, Hin. unfold column. now apply in_map.
Qed.

(** ** How a run ends *)

Lemma Permutation_filter {A} (p : A -> bool) (l l' : list A) :
  Permutation l l' -> Permutation (filter p l) (filter p l').
Proof.
  induction 1 as [|x l l' H IH|x y l|l l' l'' H1 IH1 H2 IH2]; simpl.
  - constructor.
  - destruct (p x); [now constructor | exact IH].
  - destruct (p x), (p y); try reflexivity. apply perm_swap.
  - now transitivity (filter p l').
Qed.

(** A selection of rows keeps their keys distinct. *)
Lemma NoDup_map_filter {R K} (key : R -> K) (mask : R -> bool) (rows : list R)
    (distinct : NoDup (map key rows)) :
  NoDup (map key (filter mask rows)).
Proof.
  induction rows as [|x rows IH]; simpl; [constructor|].
  inversion distinct as [|? ? Hx Hl]; subst.
  destruct (mask x); simpl; [|now apply IH].
  constructor; [|now apply IH].
  intros Hin. apply Hx. apply in_map_iff in Hin. destruct Hin as (y & E & Hy).
  apply in_map_iff. exists y. split; [exact E|]. now apply filter_In in Hy.
Qed.

Lemma NoDup_constant_map {A B} (f : A -> B) (b : B) (l : list A) :
  NoDup (map f l) -> (forall x, In x l -> f x = b) -> (List.length l <= 1)%nat.
Proof.
  destruct l as [|x [|y l]]; simpl; intros H Hc; try lia.
  exfalso. inversion H as [|? ? Hx _]; subst. apply Hx. left.
  rewrite (Hc x), (Hc y); auto.
Qed.

Lemma forallb_false_exists {A} (p : A -> bool) (l : list A) :
  forallb p l = false -> exists x, In x l /\ p x = false.
Proof.
  induction l as [|x l IH]; simpl; [discriminate|]. intros H.
  apply andb_false_iff in H. destruct H as [H | H].
  - exists x. split; [now left | exact H].
  - destruct (IH H) as (r & Hr & Hf). exists r. split; [now right | exact Hf].
Qed.

(** Every row of an aggregated table has a key. *)
Lemma aggregate_group (t : DataFrame) (r : Row) :
  In r (aggregate t) -> exists g, group r = Some g.
Proof.
  intros H. destruct (aggregate_row t r H) as (g & Hg & _). now exists g.
Qed.

(** After the aggregation no group has two rows at one number of compute
    elements. *)
Lemma frame_references (t : DataFrame) (name : string) (df : DataFrame) :
  In (name, df) (split_groups (aggregate t)) ->
  (List.length (loc (fun r => (compute_elements r =? 1)%Z) df) <= 1)%nat.
Proof.
  intros Hin.
  destruct (split_groups_facts (aggregate t)) as (_ & _ & Hall & _).
  rewrite Forall_forall in Hall. destruct (Hall _ Hin) as (_ & Hp & _).
  cbn [fst snd] in Hp.
  apply (NoDup_constant_map group_ce_key (Some (name, 1))).
  - unfold loc. apply NoDup_map_filter.
    apply (Permutation_NoDup (Permutation_sym (Permutation_map group_ce_key Hp))).
    unfold loc. apply NoDup_map_filter. apply aggregate_NoDup.
  - intros r Hr. unfold loc in Hr. apply filter_In in Hr. destruct Hr as [Hr Hce].
    apply Z.eqb_eq in Hce.
    apply (Permutation_in _ Hp) in Hr. unfold loc in Hr. apply filter_In in Hr.
    destruct Hr as [_ Hg]. apply option_string_eqb_eq in Hg.
    unfold group_ce_key. now rewrite Hg, Hce.
Qed.

Lemma has_reference_spec (results : DataFrame) (r : Row) :
  has_reference results r = true
  <-> exists r1, In r1 results /\ group r1 = group r /\ compute_elements r1 = 1.
Proof.
  unfold has_reference. rewrite existsb_exists. split.
  - intros (r1 & Hin & H). apply andb_true_iff in H. destruct H as [Hg Hc].
    exists r1. split; [exact Hin|]. split; [now apply option_string_eqb_eq | now apply Z.eqb_eq].
  - intros (r1 & Hin & Hg & Hc). exists r1. split; [exact Hin|].
    apply andb_true_iff. split; [now apply option_string_eqb_eq | now apply Z.eqb_eq].
Qed.

(** The frames of an aggregated table in which every group has its
    reference row hold exactly one such row each. *)
Lemma frames_with_reference (t : DataFrame) :
  forallb (has_reference (aggregate t)) (aggregate t) = true ->
  forall name df, In (name, df) (split_groups (aggregate t)) ->
    List.length (loc (fun r => compute_elements r =? 1) df) = 1%nat.
Proof.
  intros Hall name df Hin.
  pose proof (frame_references t name df Hin) as Hle.
  destruct (split_groups_facts (aggregate t)) as (_ & _ & Hfr & _).
  rewrite Forall_forall in Hfr. destruct (Hfr _ Hin) as (Hne & Hp & _).
  cbn [fst snd] in Hne, Hp.
  destruct df as [|r df']; [congruence|].
  assert (Hr : In r (loc (fun r => option_string_eqb (group r) (Some name)) (aggregate t))).
  { apply (Permutation_in _ Hp). now left. }
  unfold loc in Hr. apply filter_In in Hr. destruct Hr as [Hr Hg].
  apply option_string_eqb_eq in Hg.
  rewrite forallb_forall in Hall. specialize (Hall r Hr).
  apply has_reference_spec in Hall. destruct Hall as (r1 & Hr1 & Hg1 & Hc1).
  assert (H1 : In r1 (loc (fun r => compute_elements r =? 1) (r :: df'))).
  { unfold loc. apply filter_In. split; [|now apply Z.eqb_eq].
    apply (Permutation_in _ (Permutation_sym Hp)). unfold loc. apply filter_In.
    split; [exact Hr1|]. apply option_string_eqb_eq. congruence. }
  destruct (loc _ (r :: df')) as [|x [|y l]]; simpl in *; [tauto | reflexivity | lia].
Qed.

(** A group without its reference row gives a frame without one. *)
Lemma frame_without_reference (t : DataFrame) :
  forallb (has_reference (aggregate t)) (aggregate t) = false ->
  exists name df, In (name, df) (split_groups (aggregate t))
    /\ List.length (loc (fun r => compute_elements r =? 1) df) <> 1%nat.
Proof.
  intros Hall.
  assert (Hex : exists r, In r (aggregate t) /\ has_reference (aggregate t) r = false).
  { apply forallb_false_exists. exact Hall. }
  destruct Hex as (r & Hr & Hf).
  destruct (aggregate_group t r Hr) as (g & Hg).
  destruct (split_groups_facts (aggregate t)) as (_ & _ & Hfr & Hcov).
  rewrite Forall_forall in Hcov. specialize (Hcov r Hr). rewrite Hg in Hcov.
  destruct Hcov as (df & Hin & Hrdf). exists g, df. split; [exact Hin|].
  rewrite Forall_forall in Hfr. destruct (Hfr _ Hin) as (_ & Hp & _).
  cbn [fst snd] in Hp.
  destruct (loc (fun r => compute_elements r =? 1) df) as [|r1 l] eqn:E; [discriminate|].
  exfalso.
  assert (H1 : In r1 (loc (fun r => compute_elements r =? 1) df)) by (rewrite E; now left).
  unfold loc in H1. apply filter_In in H1. destruct H1 as [H1 Hc].
  apply (Permutation_in _ Hp) in H1. unfold loc in H1. apply filter_In in H1.
  destruct H1 as [H1 Hg1]. apply option_string_eqb_eq in Hg1.
  assert (Ht : has_reference (aggregate t) r = true).
  { apply has_reference_spec. exists r1. split; [exact H1|].
    split; [congruence | now apply Z.eqb_eq]. }
  congruence.
Qed.

Lemma add_metrics_ok (l : list (string * DataFrame)) (w : World) :
  (forall name df, In (name, df) l ->
     List.length (loc (fun r => compute_elements r =? 1) df) = 1%nat) ->
  exists gd, add_metrics l w = (inr gd, w)
    /\ map fst gd = map fst l
    /\ map (fun it => gd_rows (snd it)) gd = map snd l.
Proof.
  unfold add_metrics. induction l as [|[n d] l IH]; intros Hone.
  - exists []. repeat split.
  - cbn [mapM]. unfold bind at 1. unfold bind at 1. unfold lift at 1. cbn [fst snd].
    destruct (calculate_total d) as [[[[sp st] wk] Hm] | Hm].
    + rewrite Hm. cbn [ret]. unfold bind at 1.
      destruct IH as (gd & E & H1 & H2).
      { intros name df Hin. apply (Hone name df). now right. }
      rewrite E. eexists. split; [reflexivity|]. cbn [map fst snd gd_rows].
      now rewrite H1, H2.
    + exfalso. pose proof (Hone n d (or_introl eq_refl)) as H.
      unfold calculate_speedup_and_efficiency in Hm.
      destruct (loc (fun r => compute_elements r =? 1) d) as [|x [|y s]];
        simpl in H; discriminate.
Qed.

Lemma assemble_from_ok (items : list (string * GroupData)) :
  (forall it, In it items -> gd_rows (snd it) <> []) ->
  forall acc, exists a, assemble_from acc items = inr a.
Proof.
  induction items as [|[name data] items IH]; intros Hne acc.
  - now exists acc.
  - cbn [assemble_from]. unfold assemble_step, rbind.
    pose proof (Hne (name, data) (or_introl eq_refl)) as H. cbn [snd] in H.
    destruct (gd_rows data) as [|r rows] eqn:E; [congruence|].
    cbn [column map py_max ok]. apply IH.
    intros it Hit. apply Hne. now right.
Qed.

Lemma split_groups_nonempty (t : DataFrame) :
  aggregate t <> [] -> split_groups (aggregate t) <> [].
Proof.
  intros Hne E. destruct (aggregate t) as [|r rs] eqn:Er; [congruence|].
  assert (Hr : In r (aggregate t)) by (rewrite Er; now left).
  destruct (aggregate_group t r Hr) as (g & Hg).
  destruct (split_groups_facts (aggregate t)) as (_ & _ & _ & Hcov).
  rewrite Forall_forall in Hcov. specialize (Hcov r Hr). rewrite Hg in Hcov.
  destruct Hcov as (df & Hin & _). rewrite Er, E in Hin. destruct Hin.
Qed.

(** Where every group has its reference row, the metrics of every group
    are computed and the collections of the charts are assembled: one
    series per group, none when the table is empty. *)
Lemma data_stage_passes (t : DataFrame) (w : World) :
  forallb (has_reference (aggregate t)) (aggregate t) = true ->
  exists gd a,
    add_metrics (split_groups (aggregate t)) w = (inr gd, w)
    /\ assemble gd = inr a
    /\ (aggregate t = [] -> walltimes a = [])
    /\ (aggregate t <> [] ->
        walltimes a <> []
        /\ exists m,
             np_max (sort Z.leb (unique Z.eqb (column compute_elements (aggregate t))))
             = inr m).
Proof.
  intros Hall.
  destruct (add_metrics_ok (split_groups (aggregate t)) w
              (frames_with_reference t Hall)) as (gd & E & Hn & Hrows).
  destruct (assemble_from_ok gd) with (acc := mkAssembled [] [] [] [] [] F64.zero)
    as (a & Ea).
  { intros it Hit.
    assert (H : In (gd_rows (snd it)) (map snd (split_groups (aggregate t)))).
    { rewrite <- Hrows. now apply (in_map (fun it => gd_rows (snd it))). }
    apply in_map_iff in H. destruct H as ([n d] & Hd & Hin). cbn [snd] in Hd.
    destruct (split_groups_facts (aggregate t)) as (_ & _ & Hfr & _).
    rewrite Forall_forall in Hfr. destruct (Hfr _ Hin) as (Hne & _).
    cbn [snd] in Hne. congruence. }
  exists gd, a. split; [exact E|]. split; [exact Ea|].
  destruct (assemble_from_spec gd _ a Ea) as (Hw & _). cbn [walltimes app] in Hw.
  split.
  - intros Er. rewrite Er in Hn. cbn in Hn.
    destruct gd; [exact Hw | discriminate].
  - intros Hne. split.
    + rewrite Hw. intros E0. apply map_eq_nil in E0. subst gd.
      apply (split_groups_nonempty t Hne).
      destruct (split_groups (aggregate t)); [reflexivity | discriminate].
    + apply np_max_nonempty. intros E0.
      destruct (aggregate t) as [|r rs] eqn:Er; [congruence|].
      assert (H : In (compute_elements r)
                    (sort Z.leb (unique Z.eqb (column compute_elements (r :: rs))))).
      { apply sorted_unique_In. unfold column. apply in_map. now left. }
      rewrite E0 in H. destruct H.
Qed.

(** X4.  How a run of [scaling_plot.py] ends.  An exception of the table
    loader ends the run unchanged.  Otherwise, with [results] the filtered
    and aggregated table: if some group of [results] has no row at
    [compute_elements == 1] the run ends with the [TypeError] of
    [float()].  In both cases nothing was drawn.  Else the metrics of every
    group are computed, the collections are assembled and the plot calls
    are reached: no other step of the main block fails before (the
    [ValueError] of [max] cannot occur, and after the aggregation no group
    has two reference rows).  Then, if [results] has no row at all, the
    run ends in [plot_walltime], with the exception of [plt.figure] if it
    raises and else with the [ZeroDivisionError] of
    [bar_width = group_width / bars_per_group]; if [results] has a row, the
    run completes, or ends with a [ValueError] of the drawing calls or with
    an exception of [plt.figure], [os.makedirs] or [plt.savefig]. *)
Theorem outcome_of_a_run :
  forall (args : Args) (w : World),
    let w0 := after_read args w in
    match read_excel w (results_file args) (worksheet_name args)
            (usecols (filter_column args)) with
    | inl e => main args w = (inl e, w0)
    | inr tbl =>
        let results := filter_and_aggregate (filter_column args) tbl in
        let axis := sort Z.leb (unique Z.eqb (column compute_elements results)) in
        if negb (forallb (has_reference results) results)
        then main args w = (inl not_one_row, w0)
        else exists group_dataframes a,
               add_metrics (split_groups results) w0 = (inr group_dataframes, w0)
               /\ assemble group_dataframes = inr a
               /\ main args w = make_plots args a axis w0
               /\ match results with
                  | [] =>
                      main args w
                      = match plt_figure w (trace w0) (plot_width args) with
                        | inl e => (inl e, w0)
                        | inr _ =>
                            (inl (Raise "ZeroDivisionError"
                                    "float division by zero"), w0)
                        end
                  | _ :: _ =>
                      fst (main args w) = inr tt
                      \/ exists e,
                           fst (main args w) = inl e
                           /\ (exn_class e = "ValueError" \/ raised_outside w e)
                  end
    end.
Proof.
  intros args w. cbv zeta. rewrite main_data_stage.
  destruct (read_excel w _ _ _) as [e|tbl]; [reflexivity|]. cbv zeta.
  unfold filter_and_aggregate.
  set (t := apply_filter_column _ _).
  destruct (forallb (has_reference (aggregate t)) (aggregate t)) eqn:Hall; cbn [negb].
  - destruct (data_stage_passes t (after_read args w) Hall)
      as (gd & a & Eadd & Ea & Hempty & Hrows).
    exists gd, a. rewrite Eadd. cbn [fst]. rewrite Ea.
    split; [reflexivity|]. split; [reflexivity|]. split; [reflexivity|].
    destruct (after_read_seen args w) as (_ & _ & Hfig & _).
    destruct (aggregate t) as [|r rs] eqn:Er.
    + rewrite <- Hfig. apply make_plots_empty. now apply Hempty.
    + destruct Hrows as (Hs & m & Hm); [discriminate|].
      destruct (make_plots_outcome args a _ m (after_read args w) Hs Hm)
        as [E | (e & k & evs & E & _ & _ & He)]; rewrite E; cbn [fst].
      * now left.
      * right. exists e. split; [reflexivity|].
        destruct He as [He | He]; [now left | right].
        rewrite after_read_exact in He. exact He.
  - destruct (frame_without_reference t Hall) as (name & df & Hin & Hbad).
    rewrite (add_metrics_fails _ _ (ex_intro _ name (ex_intro _ df (conj Hin Hbad)))).
    reflexivity.
Qed.

(** ** The effects of [save] and of a run *)

(** X5.  What [save] does.  The directory it works with is never empty:
    it is [.] for a path without [/], and [dir] for a path [dir/name].
    [os.makedirs] is called for that directory exactly when
    [os.path.exists] answers false for it; if it raises, [save] ends with
    its exception and has done nothing.  A [save] that returns has then
    printed its line, written the figure to [join(directory, filename)],
    closed it and printed [Done].  A [save] that raises ends with an
    exception of [os.makedirs] or of [plt.savefig], and has written no
    file. *)
Theorem save_makes_the_directory_when_missing :
  forall (fig : Figure) (path ext : string) (w : World),
    let directory := save_directory path in
    let there := os_path_exists w (trace w) directory in
    directory <> EmptyString
    /\ (has_slash path = false -> directory = ".")
    /\ (forall dir name,
          str_nonempty dir = true -> ends_with_slash dir = false ->
          has_slash name = false -> path = (dir ++ "/" ++ name)%string ->
          directory = dir)
    /\ (there = false ->
        forall e, os_makedirs w (trace w) directory = inl e ->
                  save fig path ext true true w = (inl e, w))
    /\ match save fig path ext true true w with
       | (inr _, w') =>
           (there = false -> os_makedirs w (trace w) directory = inr tt)
           /\ trace w'
              = trace w
                ++ (if there then [] else [EvMakedirs directory])
                ++ [ EvPrint ("Saving figure to '"
                              ++ path_join directory (save_filename path ext)
                              ++ "'...");
                     EvSavefig (path_join directory (save_filename path ext)) fig;
                     EvClose; EvPrint "Done" ]
       | (inl e, w') =>
           raised_outside w e
           /\ saved_files (trace w') = saved_files (trace w)
           /\ (there = true ->
               created_directories (trace w') = created_directories (trace w))
       end.
Proof.
  intros fig path ext w. cbv zeta.
  split; [|split; [|split; [|split]]].
  - unfold save_directory.
    destruct (String.eqb (fst (path_split path)) EmptyString) eqn:E; [discriminate|].
    intros H. rewrite H in E. discriminate.
  - intros H. now apply savepath_no_slash.
  - intros dir name Hd He Hn ->. now apply savepath_in_directory.
  - intros Hex e He. rewrite save_exact. cbv zeta. now rewrite Hex, He.
  - rewrite save_exact. cbv zeta. unfold save_events. fold (savepath path ext).
    destruct (os_path_exists w (trace w) (save_directory path)) eqn:Ex.
    + destruct (plt_savefig w _ _ _) as [e|[]] eqn:Es.
      * split; [right; right; eauto|]. cbn [trace with_trace app].
        rewrite saved_files_app, created_directories_app. cbn.
        now rewrite !app_nil_r.
      * split; [discriminate | reflexivity].
    + destruct (os_makedirs w _ _) as [e|[]] eqn:Em.
      * split; [left; eauto|]. split; [reflexivity | discriminate].
      * destruct (plt_savefig w _ _ _) as [e|[]] eqn:Es.
        -- split; [right; right; eauto|]. cbn [trace with_trace app].
           rewrite saved_files_app. cbn. rewrite app_nil_r.
           split; [reflexivity | discriminate].
        -- split; reflexivity.
Qed.

(** How a run ends: before its first chart; or after all its charts; or
    after some of them, in the set-up of the next one. *)
Lemma run_outcome (args : Args) (w : World) :
  let w0 := after_read args w in
  (exists e, main args w = (inl e, w0))
  \/ (exists a axis m,
        let cs := charts_of_run args a axis m in
        main args w
        = (inr tt,
           with_trace w0
             (trace w0 ++ charts_events (window args) w0 (trace w0) cs "png"))
        \/ exists e k evs,
             main args w
             = (inl e,
                with_trace w0
                  (trace w0
                   ++ charts_events (window args) w0 (trace w0) (firstn k cs) "png"
                   ++ evs))
             /\ (k < List.length cs)%nat
             /\ forallb is_setup evs = true).
Proof.
  cbv zeta. rewrite main_data_stage.
  destruct (read_excel w _ _ _) as [e|tbl]; [left; now exists e|]. cbv zeta.
  pose proof (add_metrics_world
                (split_groups (filter_and_aggregate (filter_column args) tbl))
                (after_read args w)) as Hw.
  destruct (add_metrics _ _) as [[e|gd] w1] eqn:Eadd; cbn [fst snd] in *;
    [left; now exists e|]. subst w1.
  destruct (assemble gd) as [e|a] eqn:Ea; [left; now exists e|].
  set (axis := sort Z.leb _).
  destruct (walltimes a) as [|s0 ss] eqn:Es.
  { left. rewrite (make_plots_empty args a axis _ Es).
    destruct (plt_figure _ _ _) as [e|[]]; eexists; reflexivity. }
  destruct axis as [|x axis'] eqn:Eaxis.
  { left. unfold make_plots. cbv zeta. unfold bind at 1.
    rewrite plot_walltime_exact, Es.
    destruct (plt_figure _ _ _) as [e|[]]; eexists; reflexivity. }
  right. exists a, (x :: axis'), (fold_left Z.max axis' x).
  assert (Hs : walltimes a <> []) by (rewrite Es; discriminate).
  destruct (make_plots_outcome args a (x :: axis') (fold_left Z.max axis' x)
              (after_read args w) Hs eq_refl)
    as [E | (e & k & evs & E & Hk & Hq & _)].
  - left. exact E.
  - right. exists e, k, evs. repeat split; assumption.
Qed.

(** X6.  What a run of [scaling_plot.py] that fails has left behind.  It
    has drawn the first [k] of its charts, in order, for some [k] below
    their number (three, two under [--weak]): without [--window] their
    files, and no other file, were saved.  When the table loader raises,
    when a group has no row at [compute_elements == 1] or when no row
    survives the filter, [k] is zero and the only effects of the run are
    the style that was applied, if any, and the request to the loader.
    But a run can fail after a chart: with a group that has no run on two
    compute elements beside one that has, [walltime.png] is saved and the
    run then ends with the [ValueError] of [ax.plot] in the efficiency
    chart. *)
Theorem a_failed_run_leaves_its_first_charts :
  (forall (args : Args) (w : World) (e : exn) (w' : World),
     main args w = (inl e, w') ->
     let names :=
       [ walltime_file args; efficiency_file args ]
       ++ (if weak args then [] else [ speedup_file args ]) in
     exists k,
       (k < List.length names)%nat
       /\ List.length (figures (trace w'))
          = (List.length (figures (trace w)) + k)%nat
       /\ saved_files (trace w')
          = saved_files (trace w)
            ++ (if window args then []
                else firstn k (map (fun n => savepath n "png") names)))
  /\ (forall (args : Args) (w : World),
        match read_excel w (results_file args) (worksheet_name args)
                (usecols (filter_column args)) with
        | inl _ => True
        | inr tbl =>
            let results := filter_and_aggregate (filter_column args) tbl in
            forallb (has_reference results) results = false \/ results = []
        end ->
        exists e w',
          main args w = (inl e, w')
          /\ trace w'
             = trace w ++ style_events (style args) w
               ++ [EvReadExcel (results_file args) (worksheet_name args)
                     (usecols (filter_column args))])
  /\ (fst (main sample_args (world_with ragged_groups []))
      = inl (Raise "ValueError" "x and y must have same first dimension")
      /\ saved_files (trace (snd (main sample_args (world_with ragged_groups []))))
         = ["./walltime.png"]
      /\ map fig_title
            (figures (trace (snd (main sample_args (world_with ragged_groups [])))))
         = ["Walltime"]).
Proof.
  split; [|split].
  - intros args w e w' H. cbv zeta.
    destruct (after_read_seen args w) as (_ & _ & _ & _ & F0 & _ & S0 & _).
    pose proof (run_outcome args w) as Hrun. cbv zeta in Hrun.
    remember (after_read args w) as w0 eqn:Ew0. clear Ew0.
    destruct Hrun
      as [(e0 & E) | (a & axis & m & [E | (e0 & k & evs & E & Hk & Hq)])];
      rewrite E in H; inversion H; subst.
    + exists 0%nat. rewrite F0, S0, Nat.add_0_r. cbn [firstn].
      split; [rewrite length_app; cbn; lia|]. split; [reflexivity|].
      destruct (window args); now rewrite app_nil_r.
    + exists k. cbn [trace with_trace].
      destruct (charts_events_firstn_seen (window args) w0
                  (charts_of_run args a axis m) "png" k (trace w0)
                  evs Hq) as (Hf & Hs & _).
      assert (Hn : map snd (charts_of_run args a axis m)
                   = [ walltime_file args; efficiency_file args ]
                     ++ (if weak args then [] else [ speedup_file args ])).
      { unfold charts_of_run. now destruct (weak args). }
      rewrite <- Hn.
      split; [now rewrite length_map|].
      rewrite figures_app, saved_files_app, Hf, Hs, F0, S0, length_app.
      split.
      * rewrite length_firstn, length_map. f_equal. lia.
      * now rewrite map_map.
  - intros args w H.
    assert (Ht : trace (after_read args w)
                 = trace w ++ style_events (style args) w
                   ++ [EvReadExcel (results_file args) (worksheet_name args)
                         (usecols (filter_column args))])
      by (now rewrite after_read_exact).
    rewrite main_data_stage.
    destruct (read_excel w _ _ _) as [e|tbl]; [eexists _, _; split; [reflexivity | exact Ht]|].
    cbv zeta in H |- *. unfold filter_and_aggregate in *.
    set (t := apply_filter_column _ _) in *.
    destruct (forallb (has_reference (aggregate t)) (aggregate t)) eqn:Hall.
    + destruct H as [H | H]; [discriminate|].
      destruct (data_stage_passes t (after_read args w) Hall)
        as (gd & a & Eadd & Ea & Hempty & _).
      rewrite Eadd. cbn [fst]. rewrite Ea.
      rewrite (make_plots_empty args a _ _ (Hempty H)).
      destruct (plt_figure _ _ _) as [e|[]]; eexists _, _; (split; [reflexivity | exact Ht]).
    + destruct (frame_without_reference t Hall) as (name & df & Hin & Hbad).
      rewrite (add_metrics_fails _ _ (ex_intro _ name (ex_intro _ df (conj Hin Hbad)))).
      eexists _, _. split; [reflexivity | exact Ht].
  - split; [vm_compute; reflexivity|]. split; vm_compute; reflexivity.
Qed.

(** X7.  Whatever its outcome, a run of [scaling_plot.py] asks the table
    loader exactly once, for the worksheet [--worksheet_name] of the
    results file and the columns [group], [compute_elements], [walltime]
    and, when one is named, the filter column; and it applies a style
    exactly when [--style] names one that matplotlib knows. *)
Theorem a_run_asks_the_loader_once :
  forall (args : Args) (w : World),
    read_requests (trace (snd (main args w)))
    = read_requests (trace w)
      ++ [(results_file args, worksheet_name args,
           ["group"; "compute_elements"; "walltime"]
           ++ (if str_nonempty (filter_column args) then [filter_column args]
               else []))]
    /\ styles_applied (trace (snd (main args w)))
       = styles_applied (trace w)
         ++ (if str_nonempty (style args)
                && existsb (String.eqb (style args)) (style_library w)
             then [style args] else []).
Proof.
  intros args w.
  assert (H0 : read_requests (trace (after_read args w))
               = read_requests (trace w)
                 ++ [(results_file args, worksheet_name args,
                      usecols (filter_column args))]
               /\ styles_applied (trace (after_read args w))
                  = styles_applied (trace w)
                    ++ (if str_nonempty (style args)
                           && existsb (String.eqb (style args)) (style_library w)
                        then [style args] else [])).
  { rewrite after_read_exact. cbn [trace with_trace].
    rewrite !read_requests_app, !styles_applied_app. unfold style_events.
    destruct (str_nonempty (style args) && _); cbn; now rewrite ?app_nil_r. }
  pose proof (run_outcome args w) as Hrun. cbv zeta in Hrun.
  remember (after_read args w) as w0 eqn:Ew0. clear Ew0.
  destruct Hrun
    as [(e0 & E) | (a & axis & m & [E | (e0 & k & evs & E & Hk & Hq)])];
    rewrite E; cbn [snd trace with_trace].
  - exact H0.
  - destruct (charts_events_seen (window args) w0
                (charts_of_run args a axis m) "png" (trace w0))
      as (_ & _ & _ & Hr & Hs).
    rewrite read_requests_app, styles_applied_app, Hr, Hs, !app_nil_r. exact H0.
  - destruct (charts_events_firstn_seen (window args) w0
                (charts_of_run args a axis m) "png" k (trace w0)
                evs Hq) as (_ & _ & Hr & Hs).
    rewrite read_requests_app, styles_applied_app, Hr, Hs, !app_nil_r. exact H0.
Qed.

(** ** The charts of a run; the categorical main block *)

(** X8.  A run of [scaling_plot.py] that completes has produced, in this
    order and after nothing else drawn, the walltime chart, the efficiency
    chart and, unless [--weak], the speedup chart, saved or shown.  Their
    titles are [Walltime], [Efficiency] and [Speedup], each after the
    title prefix and [ - ] when a prefix is given; their y labels are the
    walltime units, [Efficiency] and [Speedup]; the y axis of the
    efficiency chart ends at 1.3 and that of the speedup chart at
    [--speedup_max]; every chart has [--compute_element_name] as x label
    and the shared axis of the filtered and aggregated table as ticks. *)
Theorem charts_of_a_completed_run :
  forall (args : Args) (w w' : World),
    main args w = (inr tt, w') ->
    exists tbl figs,
      read_excel w (results_file args) (worksheet_name args)
        (usecols (filter_column args)) = inr tbl
      /\ figures (trace w') = figures (trace w) ++ figs
      /\ map fig_title figs
         = [ add_optional_prefix "Walltime" (title_prefix args) " - ";
             add_optional_prefix "Efficiency" (title_prefix args) " - " ]
           ++ (if weak args then []
               else [ add_optional_prefix "Speedup" (title_prefix args) " - " ])
      /\ map fig_ylabel figs
         = [ walltime_units args; "Efficiency" ]
           ++ (if weak args then [] else [ "Speedup" ])
      /\ map fig_ymax (tl figs)
         = [ F64.lit 13 10 ] ++ (if weak args then [] else [ speedup_max args ])
      /\ Forall (fun f =>
           fig_xlabel f = compute_element_name args
           /\ fig_ticks f
              = IntTicks
                  (sort Z.leb
                     (unique Z.eqb
                        (column compute_elements
                           (filter_and_aggregate (filter_column args) tbl)))))
           figs.
Proof.
  intros args w w' H.
  destruct (figures_of_a_completed_run args w w' H)
    as (tbl & gd & a & m & Hr & _ & _ & _ & Hf).
  exists tbl. eexists. split; [exact Hr|]. split; [exact Hf|].
  unfold charts_of_run, walltime_figure, efficiency_figure, speedup_figure.
  destruct (weak args); cbn [map app tl fst fig_title fig_ylabel fig_ymax];
    (split; [reflexivity|]); (split; [reflexivity|]); (split; [reflexivity|]);
    repeat constructor.
Qed.

Lemma charts_of_a_completed_run_witness :
  map fig_title (figures (trace (snd (main sample_args sample_world))))
  = ["Walltime"; "Efficiency"; "Speedup"].
Proof.
  assert (E : main sample_args sample_world
              = (inr tt, snd (main sample_args sample_world)))
    by (vm_compute; reflexivity).
  destruct (charts_of_a_completed_run sample_args sample_world _ E)
    as (tbl & figs & _ & Hf & Ht & _).
  rewrite Hf. exact Ht.
Defined.

Lemma unique_key_selected {R} (key : R -> option string) (k : string) (t : list R) :
  NoDup (map key t) ->
  List.length (loc (fun r => option_string_eqb (key r) (Some k)) t)
  = if existsb (fun r => option_string_eqb (key r) (Some k)) t then 1%nat else 0%nat.
Proof.
  intros Hnd.
  destruct (existsb _ t) eqn:E.
  - apply existsb_exists in E. destruct E as (r & Hr & Hk).
    assert (Hle : (List.length (loc (fun r => option_string_eqb (key r) (Some k)) t)
                   <= 1)%nat).
    { apply (NoDup_constant_map key (Some k)).
      - unfold loc. now apply NoDup_map_filter.
      - intros x Hx. unfold loc in Hx. apply filter_In in Hx.
        now apply option_string_eqb_eq. }
    assert (Hin : In r (loc (fun r => option_string_eqb (key r) (Some k)) t)).
    { unfold loc. apply filter_In. now split. }
    destruct (loc _ t) as [|x [|y l]]; simpl in *; [tauto | reflexivity | lia].
  - destruct (loc _ t) as [|x l] eqn:El; [reflexivity|]. exfalso.
    assert (Hin : In x (loc (fun r => option_string_eqb (key r) (Some k)) t))
      by (rewrite El; now left).
    unfold loc in Hin. apply filter_In in Hin. destruct Hin as [Hin Hk].
    assert (Ht : existsb (fun r => option_string_eqb (key r) (Some k)) t = true).
    { apply existsb_exists. now exists x. }
    congruence.
Qed.

Lemma cat_speedup_ok (baseline : string) (t : list CatRow) :
  List.length (loc (fun r => option_string_eqb (category r) (Some baseline)) t) = 1%nat ->
  exists results, cat_speedup baseline t = inr results.
Proof.
  intros H. unfold cat_speedup, rbind, column.
  destruct (loc _ t) as [|x [|y l]]; try discriminate. cbn. eauto.
Qed.

(** How one chart of [plot_bar] ends. *)
Lemma plot_bar_outcome legend tight series cols names ymax size xl yl title name
    ext show w :
  series <> [] ->
  (exists w',
     plot_bar legend tight series cols names ymax size xl yl title name ext show w
     = (inr tt, w'))
  \/ exists e evs,
       plot_bar legend tight series cols names ymax size xl yl title name ext
         show w
       = (inl e, with_trace w (trace w ++ evs))
       /\ figures evs = [] /\ saved_files evs = []
       /\ (exn_class e = "ValueError" \/ raised_outside w e).
Proof.
  intros Hs. rewrite plot_bar_exact.
  destruct (plt_figure w (trace w) size) as [e|[]] eqn:Ef.
  { right. exists e, []. rewrite with_trace_nil. repeat split.
    right. right. left. eauto. }
  destruct series as [|x series]; [congruence|]. cbn [List.length Nat.eqb].
  destruct (F64.is_finite ymax); cbn [negb].
  2:{ right. eexists _, []. rewrite with_trace_nil. repeat split. now left. }
  cbv zeta. destruct show; [left; eauto|].
  match goal with |- context [save ?f ?n ?x true true ?v] =>
    destruct (show_or_save_outcome false f n x v)
      as [E | (_ & e & evs & E & Hq & He)];
    unfold show_or_save in E; rewrite E end.
  - left. eauto.
  - right. exists e, ((if tight then [EvTightLayout] else []) ++ evs).
    cbn [with_trace trace]. rewrite <- app_assoc.
    destruct (setup_events_quiet evs Hq) as (_ & Q2 & Q3 & _).
    rewrite figures_app, saved_files_app, Q2, Q3.
    split; [reflexivity|]. split; [now destruct tight|]. split; [now destruct tight|].
    right. exact He.
Qed.

(** How the two plot calls of the categorical main block end: after both
    charts, or with one chart at most. *)
Lemma cat_plots_outcome COLOURS legend (args : CatArgs)
    (results : list CatResult) (w : World) :
  results <> [] ->
  let b1 := bar_events (c_tight args) (c_window args) w (trace w)
              (cat_walltime_figure COLOURS legend args results)
              (add_optional_prefix "walltime" (c_file_prefix args) "-")
              (c_file_extension args) in
  (exists w', cat_make_plots COLOURS legend args results w = (inr tt, w'))
  \/ exists e k evs,
       cat_make_plots COLOURS legend args results w
       = (inl e, with_trace w (trace w ++ firstn k b1 ++ evs))
       /\ (k = 0%nat \/ k = List.length b1)
       /\ figures evs = [] /\ saved_files evs = []
       /\ (exn_class e = "ValueError" \/ raised_outside w e).
Proof.
  intros Hne. cbv zeta.
  assert (H1 : column (fun r => cat_walltime (cr_row r)) results <> []).
  { destruct results; [congruence | discriminate]. }
  assert (H2 : column cr_speedup results <> []).
  { destruct results; [congruence | discriminate]. }
  destruct (cat_make_plots COLOURS legend args results w) as [res w'] eqn:ER.
  unfold cat_make_plots in ER. cbv zeta in ER. unfold bind at 1 in ER.
  match type of ER with
    context [plot_bar ?l ?t ?s ?c ?n ?y ?z ?xl ?yl ?ti ?f ?x ?sh w] =>
    destruct (plot_bar_outcome l t s c n y z xl yl ti f x sh w H1)
      as [(w1 & E1) | (e1 & evs & E1 & Hf & Hs & He)]; rewrite E1 in ER end.
  2:{ inversion ER; subst. right. exists e1, 0%nat, evs. cbn [firstn app].
      repeat split; try assumption. now left. }
  apply plot_bar_completed in E1. destruct E1 as [_ E1].
  match type of ER with
    context [plot_bar ?l ?t ?s ?c ?n ?y ?z ?xl ?yl ?ti ?f ?x ?sh w1] =>
    destruct (plot_bar_outcome l t s c n y z xl yl ti f x sh w1 H2)
      as [(w2 & E2) | (e2 & evs & E2 & Hf & Hs & He)]; rewrite E2 in ER end.
  - inversion ER; subst. left. eauto.
  - inversion ER; subst. right. exists e2. eexists. exists evs.
    split; [|split; [right; reflexivity|split; [exact Hf|split; [exact Hs|exact He]]]].
    cbn [with_trace trace]. rewrite firstn_all, <- app_assoc.
    unfold cat_walltime_figure, column. now rewrite !length_map.
Qed.

(** X9.  How a run of the main block of [scaling_plot_categorical.py]
    ends (its imports taken as given).  An exception of the table loader
    ends the run unchanged.  On a worksheet without data rows the run ends
    with [KeyError]: the grouped mean has left out the [walltime] column.
    Otherwise the run ends with the [TypeError] of [float()] when the
    baseline category is not the key of a row of the filtered and
    aggregated table.  In these three cases nothing was drawn.  Else the
    speedups are computed, the table has a row and the two plot calls are
    reached (the aggregation leaves one row per category, so the baseline
    is never ambiguous there); the run then completes, or ends with a
    [ValueError] of the drawing calls or with an exception of
    [plt.figure], [os.makedirs] or [plt.savefig]. *)
Theorem outcome_of_a_categorical_run :
  forall (COLOURS : list string) (add_sorted_legend : Figure -> Figure)
         (args : CatArgs) (w : World),
    let w0 := cat_after_read args w in
    let run := categorical_main COLOURS add_sorted_legend args w in
    match read_excel_categorical w (c_results_file args) (c_worksheet_name args)
            (cat_usecols (c_category_column args) (c_filter_column args)) with
    | inl e => run = (inl e, w0)
    | inr [] => run = (inl (Raise "KeyError" "'walltime'"), w0)
    | inr (r :: tbl) =>
        let table := cat_filter_and_aggregate (c_filter_column args) (r :: tbl) in
        if existsb (fun r => option_string_eqb (category r)
                               (Some (c_baseline_category args))) table
        then exists results,
               cat_speedup (c_baseline_category args) table = inr results
               /\ results <> []
               /\ run = cat_make_plots COLOURS add_sorted_legend args results w0
               /\ (fst run = inr tt
                   \/ exists e,
                        fst run = inl e
                        /\ (exn_class e = "ValueError" \/ raised_outside w e))
        else run = (inl not_one_row, w0)
    end.
Proof.
  intros COLOURS legend args w. cbv zeta.
  rewrite categorical_data_stage.
  destruct (read_excel_categorical w _ _ _) as [e|[|r tbl]];
    [reflexivity | reflexivity |].
  pose proof (unique_key_selected category (c_baseline_category args)
                (cat_filter_and_aggregate (c_filter_column args) (r :: tbl))
                (cat_aggregate_NoDup _)) as Hlen.
  destruct (existsb _ _).
  - destruct (cat_speedup_ok _ _ Hlen) as (results & Hsp). rewrite Hsp.
    exists results. split; [reflexivity|].
    destruct (cat_speedup_length _ _ _ Hsp) as [_ Hl].
    assert (Hne : results <> []).
    { intros ->.
      destruct (cat_filter_and_aggregate (c_filter_column args) (r :: tbl));
        [discriminate Hlen | discriminate Hl]. }
    split; [exact Hne|]. split; [reflexivity|].
    destruct (cat_plots_outcome COLOURS legend args results (cat_after_read args w) Hne)
      as [(w' & E) | (e & k & evs & E & _ & _ & _ & He)]; rewrite E; cbn [fst].
    + now left.
    + right. exists e. split; [reflexivity|].
      destruct He as [He | He]; [now left | right].
      rewrite cat_after_read_exact in He. exact He.
  - rewrite cat_speedup_fails; [reflexivity|]. rewrite Hlen. discriminate.
Qed.


Lemma cat_speedup_nonempty (baseline : string) (t : list CatRow)
    (results : list CatResult) :
  cat_speedup baseline t = inr results -> results <> [].
Proof.
  intros H. destruct (cat_speedup_length _ _ _ H) as [_ Hl].
  intros ->. destruct t as [|r t]; [|discriminate Hl].
  discriminate H.
Qed.

(** X10.  What a run of the main block of [scaling_plot_categorical.py]
    that fails has left behind (its imports taken as given).  It has
    drawn its walltime chart at most: without [--window] either no file
    or the walltime file alone was saved.  When the table loader raises,
    when the worksheet has no data row or when the baseline category is
    not the key of a row of the filtered and aggregated table, nothing was
    drawn, and the only effects of the run are those of the style
    selection (the style applied, or the warning printed for an unknown
    style) and the request to the table loader for the category column,
    [walltime] and the filter column if any. *)
Theorem a_failed_categorical_run_leaves_its_first_chart :
  (forall (COLOURS : list string) (add_sorted_legend : Figure -> Figure)
          (args : CatArgs) (w : World) (e : exn) (w' : World),
     categorical_main COLOURS add_sorted_legend args w = (inl e, w') ->
     exists k,
       (k <= 1)%nat
       /\ List.length (figures (trace w'))
          = (List.length (figures (trace w)) + k)%nat
       /\ saved_files (trace w')
          = saved_files (trace w)
            ++ (if c_window args then []
                else firstn k
                       [ savepath
                           (add_optional_prefix "walltime" (c_file_prefix args) "-")
                           (c_file_extension args) ]))
  /\ (forall (COLOURS : list string) (add_sorted_legend : Figure -> Figure)
             (args : CatArgs) (w : World),
        match read_excel_categorical w (c_results_file args)
                (c_worksheet_name args)
                (cat_usecols (c_category_column args) (c_filter_column args)) with
        | inl _ => True
        | inr tbl =>
            tbl = []
            \/ existsb (fun r => option_string_eqb (category r)
                                   (Some (c_baseline_category args)))
                 (cat_filter_and_aggregate (c_filter_column args) tbl) = false
        end ->
        exists e w',
          categorical_main COLOURS add_sorted_legend args w = (inl e, w')
          /\ trace w'
             = trace w ++ cat_style_events (c_style args) w
               ++ [EvReadExcel (c_results_file args) (c_worksheet_name args)
                     (cat_usecols (c_category_column args) (c_filter_column args))]).
Proof.
  split.
  - intros COLOURS legend args w e w' H.
    destruct (cat_after_read_seen args w) as (_ & _ & _ & _ & F0 & _ & S0 & _).
    assert (Hstop : w' = cat_after_read args w ->
              exists k,
                (k <= 1)%nat
                /\ List.length (figures (trace w'))
                   = (List.length (figures (trace w)) + k)%nat
                /\ saved_files (trace w')
                   = saved_files (trace w)
                     ++ (if c_window args then []
                         else firstn k
                                [ savepath
                                    (add_optional_prefix "walltime"
                                       (c_file_prefix args) "-")
                                    (c_file_extension args) ])).
    { intros ->. exists 0%nat. rewrite F0, S0, Nat.add_0_r. cbn [firstn].
      split; [lia|]. split; [reflexivity|].
      destruct (c_window args); now rewrite app_nil_r. }
    rewrite categorical_data_stage in H.
    destruct (read_excel_categorical w _ _ _) as [e0|[|r tbl]];
      [apply Hstop; now inversion H | apply Hstop; now inversion H |].
    destruct (cat_speedup _ _) as [e0|results] eqn:Esp;
      [apply Hstop; now inversion H|].
    clear Hstop.
    pose proof (cat_plots_outcome COLOURS legend args results (cat_after_read args w)
                  (cat_speedup_nonempty _ _ _ Esp)) as Hout.
    cbv zeta in Hout.
    remember (cat_after_read args w) as w0 eqn:Ew0. clear Ew0.
    destruct Hout as [(w1 & E) | (e1 & k & evs & E & Hk & Hf & Hs & _)];
      rewrite E in H; [discriminate|]. inversion H; subst. clear H E.
    cbn [trace with_trace].
    rewrite !figures_app, !saved_files_app, Hf, Hs, F0, S0, !app_nil_r.
    destruct Hk as [-> | ->].
    + exists 0%nat. cbn [firstn figures saved_files flat_map].
      rewrite !app_nil_r, Nat.add_0_r. split; [lia|]. split; [reflexivity|].
      destruct (c_window args); now rewrite app_nil_r.
    + exists 1%nat. rewrite firstn_all.
      match goal with |- context [bar_events ?t ?s ?v ?h ?f ?n ?x] =>
        destruct (bar_events_seen t s v h f n x) as (-> & -> & _) end.
      rewrite length_app. split; [lia|]. split; [reflexivity|].
      now destruct (c_window args).
  - intros COLOURS legend args w H.
    assert (Ht : trace (cat_after_read args w)
                 = trace w ++ cat_style_events (c_style args) w
                   ++ [EvReadExcel (c_results_file args) (c_worksheet_name args)
                         (cat_usecols (c_category_column args)
                            (c_filter_column args))])
      by (now rewrite cat_after_read_exact).
    rewrite categorical_data_stage.
    destruct (read_excel_categorical w _ _ _) as [e|[|r tbl]];
      [eexists _, _; split; [reflexivity | exact Ht]
      |eexists _, _; split; [reflexivity | exact Ht]|].
    destruct H as [H | H]; [discriminate|].
    pose proof (unique_key_selected category (c_baseline_category args)
                  (cat_filter_and_aggregate (c_filter_column args) (r :: tbl))
                  (cat_aggregate_NoDup _)) as Hlen.
    rewrite H in Hlen.
    rewrite cat_speedup_fails; [|rewrite Hlen; discriminate].
    eexists _, _. split; [reflexivity | exact Ht].
Qed.

Lemma nth_error_combine_seq {A} (l : list A) (i start : nat) :
  nth_error (combine (seq start (List.length l)) l) i
  = option_map (fun x => ((start + i)%nat, x)) (nth_error l i).
Proof.
  revert i start. induction l as [|x l IH]; intros i start.
  - destruct i; reflexivity.
  - destruct i as [|i]; cbn [List.length seq combine nth_error option_map].
    + now rewrite Nat.add_0_r.
    + rewrite IH. destruct (nth_error l i); cbn; [|reflexivity].
      now rewrite Nat.add_succ_r.
Qed.

(** The bars of a chart of the categorical script. *)
Lemma bars_of_plot_bar {R} (value : R -> float) (label : R -> string)
    (results : list R) (cols : list string) (i : nat) (r : R) :
  nth_error results i = Some r ->
  nth_error (map draw_bar
               (zip3 (combine (seq 0 (List.length (column value results)))
                        (column value results))
                     cols (map label results))) i
  = option_map (fun c => mkArtist [value r] c (label r)) (nth_error cols i).
Proof.
  intros Hr. rewrite nth_error_map, nth_error_zip3, nth_error_combine_seq.
  unfold column. rewrite !nth_error_map, Hr. cbn [option_map].
  destruct (nth_error cols i); reflexivity.
Qed.

(** X11.  A run of the main block of [scaling_plot_categorical.py] that
    completes has produced, in this order and after nothing else drawn,
    the walltime chart and the speedup chart, each passed through
    [add_sorted_legend].  Their titles are [Walltime] and [Speedup], after
    the title prefix and [ - ] when a prefix is given; their y labels are
    the walltime units and [Speedup]; both have the category column as x
    label and the category labels of the table as ticks.  The i-th bar of
    either chart shows the walltime, respectively the speedup, of the
    i-th row with the i-th colour of [COLOURS] and the label of its
    category; a row beyond the number of colours gets no bar.
    [plt.tight_layout] is called once per chart when [--tight] is given and
    the charts are saved, and never otherwise. *)
Theorem charts_of_a_completed_categorical_run :
  forall (COLOURS : list string) (add_sorted_legend : Figure -> Figure)
         (args : CatArgs) (w w' : World),
    categorical_main COLOURS add_sorted_legend args w = (inr tt, w') ->
    exists tbl results f1 f2,
      read_excel_categorical w (c_results_file args) (c_worksheet_name args)
        (cat_usecols (c_category_column args) (c_filter_column args)) = inr tbl
      /\ cat_speedup (c_baseline_category args)
           (cat_filter_and_aggregate (c_filter_column args) tbl) = inr results
      /\ figures (trace w')
         = figures (trace w) ++ [add_sorted_legend f1; add_sorted_legend f2]
      /\ map fig_title [f1; f2]
         = [ add_optional_prefix "Walltime" (c_title_prefix args) " - ";
             add_optional_prefix "Speedup" (c_title_prefix args) " - " ]
      /\ map fig_ylabel [f1; f2] = [ c_walltime_units args; "Speedup" ]
      /\ Forall (fun f =>
           fig_xlabel f = c_category_column args
           /\ fig_ticks f
              = NameTicks (map (fun r => cell_name (category (cr_row r))) results))
           [f1; f2]
      /\ (forall i r,
            nth_error results i = Some r ->
            nth_error (fig_artists f1) i
            = option_map (fun c => mkArtist [cat_walltime (cr_row r)] c
                                     (cell_name (category (cr_row r))))
                (nth_error COLOURS i)
            /\ nth_error (fig_artists f2) i
               = option_map (fun c => mkArtist [cr_speedup r] c
                                        (cell_name (category (cr_row r))))
                   (nth_error COLOURS i))
      /\ tight_layouts (trace w')
         = (tight_layouts (trace w)
            + (if c_tight args && negb (c_window args) then 2 else 0))%nat.
Proof.
  intros COLOURS legend args w w' H.
  destruct (categorical_completed COLOURS legend args w w' H)
    as (r & tbl & results & Hr & Hsp & Hne & Hw').
  cbv zeta in Hw'.
  destruct (cat_after_read_seen args w) as (_ & _ & _ & _ & F0 & _ & _ & _ & _ & T0).
  remember (cat_after_read args w) as w0 eqn:Ew0. clear Ew0.
  exists (r :: tbl), results. do 2 eexists.
  split; [exact Hr|]. split; [exact Hsp|].
  rewrite Hw'. cbn [trace with_trace].
  rewrite !figures_app, !tight_layouts_app, F0, T0.
  repeat match goal with
         | |- context [bar_events ?t ?s ?v ?h ?f ?n ?x] =>
             destruct (bar_events_seen t s v h f n x) as (-> & _ & _ & -> & _)
         end.
  unfold cat_walltime_figure, cat_speedup_figure.
  split; [reflexivity|].
  cbn [map fig_title fig_ylabel fig_xlabel fig_ticks fig_artists].
  unfold column. rewrite !map_map.
  split; [reflexivity|]. split; [reflexivity|].
  split; [repeat constructor|].
  split.
  - intros i r0 Hi. split.
    + rewrite <- (length_map (fun r => cat_walltime (cr_row r)) results).
      exact (bars_of_plot_bar (fun r => cat_walltime (cr_row r))
               (fun r => cell_name (category (cr_row r))) results COLOURS i r0 Hi).
    + rewrite <- (length_map cr_speedup results).
      exact (bars_of_plot_bar cr_speedup
               (fun r => cell_name (category (cr_row r))) results COLOURS i r0 Hi).
  - destruct (c_tight args && negb (c_window args)); lia.
Qed.

Lemma charts_of_a_completed_categorical_run_witness :
  map fig_title
    (figures (trace (snd (categorical_main colours (fun f => f) sample_cat_args
                            sample_world))))
  = ["Walltime"; "Speedup"].
Proof.
  assert (E : categorical_main colours (fun f => f) sample_cat_args sample_world
              = (inr tt,
                 snd (categorical_main colours (fun f => f) sample_cat_args
                        sample_world)))
    by (vm_compute; reflexivity).
  destruct (charts_of_a_completed_categorical_run colours (fun f => f)
              sample_cat_args sample_world _ E)
    as (tbl & results & f1 & f2 & _ & _ & Hf & Ht & _).
  rewrite Hf. exact Ht.
Defined.

(** ** Binary64: the order of the numbers; the largest walltime *)

Ltac order_cases :=
  intros;
  change (PosDef.Pos.compare_cont Eq) with Pos.compare in *;
  repeat match goal with
         | H : context [(?a ?= ?b)%Z] |- _ => destruct (Z.compare_spec a b)
         | |- context [(?a ?= ?b)%Z] => destruct (Z.compare_spec a b)
         | H : context [(?a ?= ?b)%positive] |- _ => destruct (Pos.compare_spec a b)
         | |- context [(?a ?= ?b)%positive] => destruct (Pos.compare_spec a b)
         end;
  cbn [CompOpp] in *; try reflexivity; try discriminate; try (exfalso; lia).

Lemma leb_transitive (x y z : float) :
  F64.leb x y = true -> F64.leb y z = true -> F64.leb x z = true.
Proof.
  unfold F64.leb, SFleb.
  destruct x as [sx|sx| |sx mx ex], y as [sy|sy| |sy my ey], z as [sz|sz| |sz mz ez];
    cbn [SFcompare]; try destruct sx; try destruct sy; try destruct sz;
    order_cases.
Qed.

Lemma leb_of_not_ltb (x y : float) :
  F64.is_nan x = false -> F64.is_nan y = false ->
  F64.ltb x y = false -> F64.leb y x = true.
Proof.
  unfold F64.leb, F64.ltb, SFleb, SFltb.
  destruct x as [sx|sx| |sx mx ex], y as [sy|sy| |sy my ey];
    cbn [SFcompare F64.is_nan]; try destruct sx; try destruct sy;
    order_cases.
Qed.

Lemma leb_reflexive (x : float) : F64.is_nan x = false -> F64.leb x x = true.
Proof.
  unfold F64.leb, SFleb.
  destruct x as [sx|sx| |sx mx ex]; cbn [SFcompare F64.is_nan]; try destruct sx;
    try reflexivity; try discriminate; intros _; rewrite ?compare_cont_Eq;
    rewrite Z.compare_refl, Pos.compare_refl; reflexivity.
Qed.

Lemma leb_of_ltb (x y : float) : F64.ltb x y = true -> F64.leb x y = true.
Proof.
  unfold F64.leb, F64.ltb, SFleb, SFltb.
  destruct (SFcompare x y) as [[]|]; congruence.
Qed.

Lemma leb_not_nan (x y : float) :
  F64.leb x y = true -> F64.is_nan x = false /\ F64.is_nan y = false.
Proof.
  unfold F64.leb, SFleb. destruct x, y; cbn; try discriminate; auto.
Qed.

(** The running maximum of Python's [max] and of the loop of the main
    block. *)
Lemma running_max (s : Series float) :
  forall x,
    F64.is_nan x = false ->
    (forall y, In y s -> F64.is_nan y = false) ->
    let M := fold_left (fun m y => if F64.ltb m y then y else m) s x in
    F64.is_nan M = false
    /\ F64.leb x M = true
    /\ (forall y, In y s -> F64.leb y M = true)
    /\ In M (x :: s).
Proof.
  induction s as [|y s IH]; intros x Hx Hs; cbn [fold_left].
  - split; [exact Hx|]. split; [now apply leb_reflexive|]. split; [intros y []|now left].
  - assert (Hy : F64.is_nan y = false) by (apply Hs; now left).
    assert (Hs' : forall z, In z s -> F64.is_nan z = false)
      by (intros z Hz; apply Hs; now right).
    destruct (F64.ltb x y) eqn:E.
    + destruct (IH y Hy Hs') as (H1 & H2 & H3 & H4).
      split; [exact H1|]. split; [|split].
      * eapply leb_transitive; [apply leb_of_ltb; exact E | exact H2].
      * intros z [<- | Hz]; [exact H2 | now apply H3].
      * right. exact H4.
    + destruct (IH x Hx Hs') as (H1 & H2 & H3 & H4).
      split; [exact H1|]. split; [exact H2|]. split.
      * intros z [<- | Hz]; [|now apply H3].
        eapply leb_transitive; [apply (leb_of_not_ltb x y Hx Hy E) | exact H2].
      * destruct H4 as [H4 | H4]; [now left | right; now right].
Qed.

Lemma py_max_spec (s : Series float) (m : float) :
  (forall y, In y s -> F64.is_nan y = false) ->
  py_max s = inr m ->
  F64.is_nan m = false /\ (forall y, In y s -> F64.leb y m = true) /\ In m s.
Proof.
  destruct s as [|x s]; [discriminate|]. intros Hs H. inversion H; subst. clear H.
  destruct (running_max s x) as (H1 & H2 & H3 & H4).
  - apply Hs. now left.
  - intros y Hy. apply Hs. now right.
  - split; [exact H1|]. split; [|exact H4].
    intros y [<- | Hy]; [exact H2 | now apply H3].
Qed.

Lemma assemble_from_max (items : list (string * GroupData)) :
  forall acc a,
    F64.is_nan (max_walltime acc) = false ->
    (forall it r, In it items -> In r (gd_rows (snd it)) ->
       F64.is_nan (walltime r) = false) ->
    assemble_from acc items = inr a ->
    F64.is_nan (max_walltime a) = false
    /\ F64.leb (max_walltime acc) (max_walltime a) = true
    /\ (forall it r, In it items -> In r (gd_rows (snd it)) ->
          F64.leb (walltime r) (max_walltime a) = true)
    /\ (max_walltime a = max_walltime acc
        \/ exists it r, In it items /\ In r (gd_rows (snd it))
                        /\ max_walltime a = walltime r).
Proof.
  induction items as [|[name data] items IH]; intros acc a Hacc Hnan H.
  - inversion H; subst. split; [exact Hacc|]. split; [now apply leb_reflexive|].
    split; [intros it r []|now left].
  - cbn [assemble_from] in H. unfold assemble_step, rbind in H.
    destruct (py_max (column walltime (gd_rows data))) as [e|local] eqn:Emax;
      [discriminate|].
    destruct (py_max_spec _ _ ltac:(intros y Hy; unfold column in Hy;
                apply in_map_iff in Hy; destruct Hy as (r & <- & Hr);
                exact (Hnan (name, data) r (or_introl eq_refl) Hr)) Emax)
      as (Hl1 & Hl2 & Hl3).
    unfold column in Hl3. apply in_map_iff in Hl3. destruct Hl3 as (rl & Hrl & Hinl).
    apply IH in H; cbn [max_walltime] in *.
    + destruct H as (H1 & H2 & H3 & H4).
      destruct (F64.ltb (max_walltime acc) local) eqn:E.
      * split; [exact H1|]. split; [|split].
        -- eapply leb_transitive; [apply leb_of_ltb; exact E | exact H2].
        -- intros it r [<- | Hit] Hr; [|now apply (H3 it r)].
           cbn [snd] in Hr. eapply leb_transitive; [|exact H2].
           apply Hl2. unfold column. now apply in_map.
        -- right. destruct H4 as [H4 | (it & r & Hit & Hr & H4)].
           ++ exists (name, data), rl. split; [now left|]. split; [exact Hinl|].
              congruence.
           ++ exists it, r. split; [now right|]. now split.
      * split; [exact H1|]. split; [exact H2|]. split.
        -- intros it r [<- | Hit] Hr; [|now apply (H3 it r)].
           cbn [snd] in Hr. eapply leb_transitive; [|exact H2].
           eapply leb_transitive; [|apply (leb_of_not_ltb _ _ Hacc Hl1 E)].
           apply Hl2. unfold column. now apply in_map.
        -- destruct H4 as [H4 | (it & r & Hit & Hr & H4)]; [now left|].
           right. exists it, r. split; [now right|]. now split.
    + destruct (F64.ltb (max_walltime acc) local); assumption.
    + intros it r Hit Hr. apply (Hnan it r); [now right | exact Hr].
Qed.

(** X12.  The loop that assembles the series ends with [max_walltime]
    at least as large as every walltime of every group, provided no
    walltime is NaN; it is never below zero, and it is either the zero it
    starts from or the walltime of some row.  The walltime chart, whose y
    axis ends at [max_walltime * 1.2], is scaled on the largest bar. *)
Theorem max_walltime_is_the_largest_walltime :
  forall (items : list (string * GroupData)) (a : Assembled),
    (forall it r, In it items -> In r (gd_rows (snd it)) ->
       F64.is_nan (walltime r) = false) ->
    assemble items = inr a ->
    (forall it r, In it items -> In r (gd_rows (snd it)) ->
       F64.leb (walltime r) (max_walltime a) = true)
    /\ F64.leb F64.zero (max_walltime a) = true
    /\ (max_walltime a = F64.zero
        \/ exists it r, In it items /\ In r (gd_rows (snd it))
                        /\ max_walltime a = walltime r).
Proof.
  intros items a Hnan H. unfold assemble in H.
  destruct (assemble_from_max items (mkAssembled [] [] [] [] [] F64.zero) a eq_refl Hnan H) as (_ & H2 & H3 & H4).
  cbn [max_walltime] in *. auto.
Qed.

Lemma max_walltime_is_the_largest_walltime_witness :
  exists a, assemble (assembled_input sample_group) = inr a
    /\ max_walltime a = F64.of_Z 100
    /\ F64.leb (F64.of_Z 60) (max_walltime a) = true.
Proof.
  eexists. split; [reflexivity|]. split; [reflexivity|].
  refine (proj1 (max_walltime_is_the_largest_walltime
                   (assembled_input sample_group) _ _ eq_refl) _
                (mkRow (Some "A") 2 (F64.of_Z 60) F64.zero) _ _).
  - intros it r [<- | []] [<- | [<- | [<- | []]]]; reflexivity.
  - now left.
  - right. now left.
Defined.

(** ** Speedup against the reference *)

Lemma finite_pos_not_nan (x : float) : F64.finite_pos x = true -> F64.is_nan x = false.
Proof. destruct x as [| | |[]]; simpl; congruence. Qed.

(** X13.  In a group with a unique reference row and positive (finite)
    walltimes, no speedup is NaN; a row that took no longer than the
    reference row has a speedup of at least 1.0, and a row that took at
    least as long has a speedup of at most 1.0 (in binary64, rounding
    included). *)
Theorem speedup_compares_with_one :
  forall (rdf : DataFrame) (ref : Row),
    List.length (loc (fun r => compute_elements r =? 1) rdf) = 1%nat ->
    In ref rdf -> compute_elements ref = 1 ->
    (forall r, In r rdf -> F64.finite_pos (walltime r) = true) ->
    exists speedup strong_efficiency weak_efficiency,
      calculate_speedup_and_efficiency rdf compute_elements walltime
      = inr (speedup, strong_efficiency, weak_efficiency)
      /\ forall i r,
           nth_error rdf i = Some r ->
           exists s,
             nth_error speedup i = Some s
             /\ F64.is_nan s = false
             /\ (F64.leb (walltime r) (walltime ref) = true ->
                 F64.leb F64.one s = true)
             /\ (F64.leb (walltime ref) (walltime r) = true ->
                 F64.leb s F64.one = true).
Proof.
  intros rdf ref Hone Hin Hce Hpos.
  do 3 eexists. split; [apply (calculate_unfolded rdf ref Hone Hin Hce)|].
  intros i r Hi. rewrite nth_error_map, Hi. cbn [option_map].
  eexists. split; [reflexivity|].
  assert (Hr : In r rdf) by (eapply nth_error_In; eauto).
  pose proof (Hpos r Hr) as Pr. pose proof (Hpos ref Hin) as Pref.
  assert (Hup : F64.leb (walltime ref) (walltime r) = true ->
                F64.leb (F64.div (walltime ref) (walltime r)) F64.one = true).
  { intros Hle. rewrite <- (div_self (walltime ref) Pref).
    now apply div_antitone. }
  assert (Hdown : F64.leb (walltime r) (walltime ref) = true ->
                  F64.leb F64.one (F64.div (walltime ref) (walltime r)) = true).
  { intros Hle. rewrite <- (div_self (walltime ref) Pref).
    now apply div_antitone. }
  split; [|split; assumption].
  destruct (F64.ltb (walltime r) (walltime ref)) eqn:E.
  - apply leb_of_ltb in E. exact (proj2 (leb_not_nan _ _ (Hdown E))).
  - apply leb_of_not_ltb in E; try now apply finite_pos_not_nan.
    exact (proj1 (leb_not_nan _ _ (Hup E))).
Qed.

Lemma speedup_compares_with_one_witness :
  exists speedup strong_efficiency weak_efficiency,
    calculate_speedup_and_efficiency sample_group compute_elements walltime
    = inr (speedup, strong_efficiency, weak_efficiency)
    /\ exists s, nth_error speedup 2 = Some s /\ F64.leb F64.one s = true.
Proof.
  destruct (speedup_compares_with_one sample_group
              (mkRow (Some "A") 1 (F64.of_Z 100) F64.zero))
    as (sp & st & wk & Hc & Hrow).
  - reflexivity.
  - now left.
  - reflexivity.
  - intros r [<- | [<- | [<- | []]]]; reflexivity.
  - exists sp, st, wk. split; [exact Hc|].
    destruct (Hrow 2%nat (mkRow (Some "A") 4 (F64.of_Z 20) F64.zero) eq_refl)
      as (s & Hs & _ & Hge & _).
    exists s. split; [exact Hs|]. apply Hge. reflexivity.
Defined.

(** X14.  The speedup step of the categorical main block.  When exactly
    one row of the table has the baseline category, with walltime [t1],
    the step keeps every row, in the order of the table (the baseline row
    is not moved to the front), and gives the row of category [c] the
    speedup [t1 / walltime(c)]; the speedup of the baseline row is exactly
    1.0 when [t1] is positive and finite.  Baseline [v1] with walltime 50
    and [v2] with walltime 25 give the speedups 1.0 and 2.0. *)
Theorem categorical_speedup_formulas :
  forall (baseline : string) (t : list CatRow) (ref : CatRow),
    List.length (loc (fun r => option_string_eqb (category r) (Some baseline)) t)
    = 1%nat ->
    In ref t -> category ref = Some baseline ->
    exists results,
      cat_speedup baseline t = inr results
      /\ map cr_row results = t
      /\ map cr_speedup results
         = map (fun r => F64.div (cat_walltime ref) (cat_walltime r)) t
      /\ (F64.finite_pos (cat_walltime ref) = true ->
          forall r, In r results -> category (cr_row r) = Some baseline ->
                    cr_speedup r = F64.one).
Proof.
  intros baseline t ref Hone Hin Hcat.
  assert (Hsel : loc (fun r => option_string_eqb (category r) (Some baseline)) t = [ref]).
  { apply filter_singleton; [exact Hone | exact Hin |].
    now apply option_string_eqb_eq. }
  unfold cat_speedup. rewrite Hsel. cbn [column map series_to_float rbind ok].
  eexists. split; [reflexivity|].
  assert (Hcomb : forall l : list CatRow,
            map (fun rs : CatRow * float => mkCatResult (fst rs) (snd rs))
                (combine l (scalar_rdiv (cat_walltime ref) (map cat_walltime l)))
            = map (fun r => mkCatResult r (F64.div (cat_walltime ref) (cat_walltime r))) l).
  { induction l as [|r l IH]; [reflexivity|]. cbn. now rewrite <- IH. }
  rewrite Hcomb, !map_map. cbn [cr_row cr_speedup].
  split; [apply map_id|]. split; [reflexivity|].
  intros Hpos r Hr Hc. apply in_map_iff in Hr. destruct Hr as (r0 & <- & Hr0).
  cbn [cr_row cr_speedup] in *.
  assert (H0 : In r0 (loc (fun r => option_string_eqb (category r) (Some baseline)) t)).
  { unfold loc. apply filter_In. split; [exact Hr0|]. now apply option_string_eqb_eq. }
  rewrite Hsel in H0. destruct H0 as [<- | []]. now apply div_self.
Qed.

Lemma categorical_speedup_formulas_witness :
  exists results,
    cat_speedup "v1" sample_categories = inr results
    /\ map cr_speedup results = [F64.one; F64.of_Z 2].
Proof.
  destruct (categorical_speedup_formulas "v1" sample_categories
              (mkCatRow (Some "v1") (F64.of_Z 50) F64.zero))
    as (results & Hc & _ & Hs & _).
  - reflexivity.
  - now left.
  - reflexivity.
  - exists results. split; [exact Hc|]. rewrite Hs. reflexivity.
Defined.

(** X15.  Degenerate walltimes raise nothing in the metric engine: with a
    positive finite reference walltime, a row whose walltime is zero gets
    an infinite speedup (and weak efficiency) of the sign of the zero, a
    row whose walltime is infinite gets zero, and a row whose walltime is
    NaN gets NaN. *)
Theorem degenerate_walltimes_propagate :
  forall (rdf : DataFrame) (ref : Row),
    List.length (loc (fun r => compute_elements r =? 1) rdf) = 1%nat ->
    In ref rdf -> compute_elements ref = 1 ->
    F64.finite_pos (walltime ref) = true ->
    exists speedup strong_efficiency weak_efficiency,
      calculate_speedup_and_efficiency rdf compute_elements walltime
      = inr (speedup, strong_efficiency, weak_efficiency)
      /\ forall i r,
           nth_error rdf i = Some r ->
           exists s,
             nth_error speedup i = Some s
             /\ nth_error weak_efficiency i = Some s
             /\ (forall sign, walltime r = S754_zero sign -> s = S754_infinity sign)
             /\ (forall sign, walltime r = S754_infinity sign -> s = S754_zero sign)
             /\ (F64.is_nan (walltime r) = true -> F64.is_nan s = true).
Proof.
  intros rdf ref Hone Hin Hce Hpos.
  do 3 eexists. split; [apply (calculate_unfolded rdf ref Hone Hin Hce)|].
  intros i r Hi. rewrite nth_error_map, Hi. cbn [option_map].
  eexists. split; [reflexivity|]. split; [reflexivity|].
  destruct (finite_pos_inv _ Hpos) as (m & e & -> & _).
  repeat split.
  - intros sign ->. now destruct sign.
  - intros sign ->. now destruct sign.
  - destruct (walltime r); simpl; congruence.
Qed.

Lemma degenerate_walltimes_propagate_witness :
  exists speedup strong_efficiency weak_efficiency,
    calculate_speedup_and_efficiency
      [ mkRow (Some "A") 1 (F64.of_Z 100) F64.zero;
        mkRow (Some "A") 2 F64.zero F64.zero ] compute_elements walltime
    = inr (speedup, strong_efficiency, weak_efficiency)
    /\ nth_error speedup 1 = Some (S754_infinity false).
Proof.
  destruct (degenerate_walltimes_propagate
              [ mkRow (Some "A") 1 (F64.of_Z 100) F64.zero;
                mkRow (Some "A") 2 F64.zero F64.zero ]
              (mkRow (Some "A") 1 (F64.of_Z 100) F64.zero))
    as (sp & st & wk & Hc & Hrow).
  - reflexivity.
  - now left.
  - reflexivity.
  - reflexivity.
  - exists sp, st, wk. split; [exact Hc|].
    destruct (Hrow 1%nat (mkRow (Some "A") 2 F64.zero F64.zero) eq_refl)
      as (s & Hs & _ & Hz & _).
    rewrite Hs. f_equal. apply (Hz false). reflexivity.
Defined.

(** ** The path of a saved file *)

(** X16.  The file of a chart lies directly in the directory that [save]
    checks and creates: for an extension without [/], splitting the final
    path [join(directory, filename)] with [os.path.split] gives back the
    directory and the file name, whatever the path given to [save]; and
    the file name, the last component of the path followed by [.] and the
    extension, holds no [/]. *)
Theorem saved_file_lies_in_the_directory_of_save :
  forall (path ext : string),
    has_slash ext = false ->
    path_split (savepath path ext) = (save_directory path, save_filename path ext)
    /\ has_slash (save_filename path ext) = false.
Proof.
  intros path ext Hext.
  assert (Hf : has_slash (save_filename path ext) = false).
  { unfold save_filename. rewrite !has_slash_app, path_split_tail, Hext. reflexivity. }
  split; [|exact Hf].
  destruct (save_directory_shape path) as [Hne Hall].
  unfold savepath, path_join.
  rewrite (starts_with_slash_has_slash _ Hf), Hne. cbn [negb orb].
  set (d := save_directory path) in *. set (f := save_filename path ext) in *.
  destruct (ends_with_slash d) eqn:Ed.
  - unfold path_split. rewrite (rsplit_slash_app d f Ed Hf).
    rewrite (Hall eq_refl). cbn [str_nonempty]. now rewrite andb_false_r.
  - change (d ++ "/" ++ f)%string with (d ++ String slash f)%string.
    replace (d ++ String slash f)%string with ((d ++ "/") ++ f)%string.
    + unfold path_split.
      rewrite (rsplit_slash_app _ f (ends_with_slash_app_slash d) Hf).
      rewrite rstrip_slash_app_slash, (rstrip_no_trailing_slash d Ed), Hne.
      destruct (d ++ "/")%string eqn:E; [destruct d; discriminate|]. reflexivity.
    + clear. induction d as [|c d IH]; [reflexivity|]. cbn. now rewrite IH.
Qed.

Lemma saved_file_lies_in_the_directory_of_save_witness :
  path_split (savepath "out/run1/walltime" "png") = ("out/run1", "walltime.png")
  /\ has_slash "walltime.png" = false.
Proof.
  exact (saved_file_lies_in_the_directory_of_save "out/run1/walltime" "png" eq_refl).
Defined.

(** ** Order of the aggregated table *)

Lemma StronglySorted_strict {A} (f : A -> Z) (l : list A) :
  StronglySorted (fun a b => f a <= f b) l -> NoDup (map f l) ->
  StronglySorted (fun a b => f a < f b) l.
Proof.
  induction 1 as [|x l Hs IH Hx]; intros Hnd; constructor;
    inversion Hnd as [|? ? Hx' Hnd']; subst.
  - now apply IH.
  - rewrite Forall_forall in Hx |- *. intros y Hy. specialize (Hx y Hy).
    assert (f x <> f y) by (intros E; apply Hx'; rewrite E; now apply in_map).
    lia.
Qed.

Lemma StronglySorted_incl_filter {A} (R : A -> A -> Prop) (p : A -> bool) (l : list A) :
  StronglySorted R l -> StronglySorted R (filter p l).
Proof.
  induction 1 as [|x l Hs IH Hx]; simpl; [constructor|].
  destruct (p x); [|exact IH]. constructor; [exact IH|].
  rewrite Forall_forall in Hx |- *. intros y Hy. apply Hx.
  now apply filter_In in Hy.
Qed.

Lemma unique_sorted {A} (eqb : A -> A -> bool) (R : A -> A -> Prop) (l : list A) :
  StronglySorted R l -> StronglySorted R (unique eqb l).
Proof.
  induction 1 as [|x l Hs IH Hx]; simpl; constructor.
  - now apply StronglySorted_incl_filter.
  - rewrite Forall_forall in Hx |- *. intros y Hy. apply Hx.
    apply filter_In in Hy. destruct Hy as [Hy _].
    clear -Hy. induction l as [|z l IH]; simpl in Hy; [contradiction|].
    destruct Hy as [-> | Hy]; [now left|]. right. apply IH.
    now apply filter_In in Hy.
Qed.

Section KeyOrder.
Context {K : Type}.
Variable key_compare : K -> K -> comparison.
Hypothesis compare_eq : forall a b, key_compare a b = Eq <-> a = b.
Hypothesis compare_antisym :
  forall a b, key_compare a b = CompOpp (key_compare b a).
Hypothesis compare_trans :
  forall a b c, key_compare a b = Lt -> key_compare b c = Lt -> key_compare a c = Lt.

Lemma key_leb_total (a b : K) :
  key_leb key_compare a b = false -> key_leb key_compare b a = true.
Proof.
  unfold key_leb. rewrite (compare_antisym b a).
  destruct (key_compare a b); simpl; congruence.
Qed.

Lemma key_leb_trans (a b c : K) :
  key_leb key_compare a b = true -> key_leb key_compare b c = true ->
  key_leb key_compare a c = true.
Proof.
  unfold key_leb.
  destruct (key_compare a b) eqn:E1; try discriminate;
    destruct (key_compare b c) eqn:E2; try discriminate; intros _ _.
  - apply compare_eq in E1, E2. subst.
    now rewrite (proj2 (compare_eq c c) eq_refl).
  - apply compare_eq in E1. subst. now rewrite E2.
  - apply compare_eq in E2. subst. now rewrite E1.
  - now rewrite (compare_trans a b c E1 E2).
Qed.

Lemma sorted_keys_ascending {R} (key : R -> option K) (rdf : list R) :
  StronglySorted (fun a b => key_compare a b = Lt) (sorted_keys key_compare key rdf).
Proof.
  pose proof (sorted_keys_NoDup key_compare key compare_eq rdf) as Hnd.
  unfold sorted_keys in *.
  pose proof (sort_sorted (key_leb key_compare) key_leb_total key_leb_trans
                (unique (same_key key_compare) (present_keys key rdf))) as Hs.
  induction Hs as [|x l Hs IH Hx]; constructor;
    inversion Hnd as [|? ? Hx' Hnd']; subst.
  - now apply IH.
  - rewrite Forall_forall in Hx |- *. intros y Hy. specialize (Hx y Hy).
    unfold key_leb in Hx. destruct (key_compare x y) eqn:E; try discriminate;
      [|reflexivity].
    apply compare_eq in E. subst. contradiction.
Qed.
End KeyOrder.

Lemma string_compare_antisym (a b : string) :
  String.compare a b = CompOpp (String.compare b a).
Proof. apply String_as_OT.cmp_antisym. Qed.

Lemma string_compare_trans (a b c : string) :
  String.compare a b = Lt -> String.compare b c = Lt -> String.compare a c = Lt.
Proof.
  intros H1 H2. apply String_as_OT.cmp_lt.
  apply String_as_OT.cmp_lt in H1, H2. eapply String_as_OT.lt_trans; eauto.
Qed.

Lemma group_ce_compare_antisym (a b : string * Z) :
  group_ce_compare a b = CompOpp (group_ce_compare b a).
Proof.
  unfold group_ce_compare. rewrite (string_compare_antisym (fst a) (fst b)).
  destruct (String.compare (fst b) (fst a)); cbn [CompOpp]; try reflexivity.
  apply Z.compare_antisym.
Qed.

Lemma group_ce_compare_trans (a b c : string * Z) :
  group_ce_compare a b = Lt -> group_ce_compare b c = Lt -> group_ce_compare a c = Lt.
Proof.
  unfold group_ce_compare.
  destruct (String.compare (fst a) (fst b)) eqn:E1; try discriminate;
    destruct (String.compare (fst b) (fst c)) eqn:E2; try discriminate; intros H1 H2.
  - apply string_compare_eq in E1, E2. rewrite E1, E2, string_compare_refl.
    rewrite Z.compare_lt_iff in *. lia.
  - apply string_compare_eq in E1. now rewrite E1, E2.
  - apply string_compare_eq in E2. now rewrite <- E2, E1.
  - now rewrite (string_compare_trans _ _ _ E1 E2).
Qed.

(** The keys of the aggregated tables, in ascending order. *)
Lemma aggregate_keys (t : DataFrame) :
  map group_ce_key (aggregate t)
  = map Some (sorted_keys group_ce_compare group_ce_key t)
  /\ StronglySorted (fun a b => group_ce_compare a b = Lt)
       (sorted_keys group_ce_compare group_ce_key t).
Proof.
  split.
  - unfold aggregate. apply groupby_mean_keys. intros [g n] w f. reflexivity.
  - apply sorted_keys_ascending.
    + apply group_ce_compare_eq.
    + apply group_ce_compare_antisym.
    + apply group_ce_compare_trans.
Qed.

Lemma cat_aggregate_keys (c : list CatRow) :
  map category (cat_aggregate c) = map Some (sorted_keys String.compare category c)
  /\ StronglySorted (fun a b => String.compare a b = Lt)
       (sorted_keys String.compare category c).
Proof.
  split.
  - unfold cat_aggregate. now apply groupby_mean_keys.
  - apply sorted_keys_ascending.
    + apply string_compare_eq.
    + apply string_compare_antisym.
    + apply string_compare_trans.
Qed.

Lemma unique_map_Some (l : list string) :
  some_cells (unique option_string_eqb (map Some l)) = unique String.eqb l.
Proof.
  induction l as [|x l IH]; [reflexivity|]. cbn [map unique some_cells flat_map app].
  fold (some_cells (filter (fun y => negb (option_string_eqb (Some x) y))
                      (unique option_string_eqb (map Some l)))).
  f_equal. rewrite <- IH. generalize (unique option_string_eqb (map Some l)).
  clear. intros u. induction u as [|[y|] u IH]; cbn; [reflexivity| |exact IH].
  destruct (String.eqb x y); cbn; try f_equal; exact IH.
Qed.

Lemma group_column_of_keys (rows : DataFrame) (keys : list (string * Z)) :
  map group_ce_key rows = map Some keys ->
  column group rows = map Some (map fst keys)
  /\ column compute_elements rows = map snd keys.
Proof.
  revert keys. induction rows as [|r rows IH]; intros [|k keys] H; try discriminate.
  - split; reflexivity.
  - cbn [map] in H. inversion H as [[Hk Ht]]. destruct (IH keys Ht) as [H1 H2].
    unfold column in *. cbn [map]. rewrite H1, H2.
    unfold group_ce_key in Hk. destruct (group r); inversion Hk; subst. now split.
Qed.

Lemma first_components_ascending (keys : list (string * Z)) :
  StronglySorted (fun a b => group_ce_compare a b = Lt) keys ->
  StronglySorted (fun a b => String.compare a b <> Gt) (map fst keys).
Proof.
  induction 1 as [|k keys Hs IH Hk]; cbn [map]; constructor; [exact IH|].
  rewrite Forall_forall in Hk |- *. intros g Hg. apply in_map_iff in Hg.
  destruct Hg as (k' & <- & Hk'). specialize (Hk k' Hk').
  unfold group_ce_compare in Hk. destruct (String.compare (fst k) (fst k')); congruence.
Qed.

Lemma ascending_names_strict (l : list string) :
  StronglySorted (fun a b => String.compare a b <> Gt) l -> NoDup l ->
  StronglySorted (fun a b => String.compare a b = Lt) l.
Proof.
  induction 1 as [|x l Hs IH Hx]; intros Hnd; constructor;
    inversion Hnd as [|? ? Hx' Hnd']; subst.
  - now apply IH.
  - rewrite Forall_forall in Hx |- *. intros y Hy. specialize (Hx y Hy).
    destruct (String.compare x y) eqn:E; [|reflexivity|congruence].
    apply string_compare_eq in E. subst. contradiction.
Qed.

Lemma string_eqb_iff (a b : string) : String.eqb a b = true <-> a = b.
Proof. apply String.eqb_eq. Qed.

Lemma group_names_of_aggregate (t : DataFrame) :
  map fst (split_groups (aggregate t))
  = unique String.eqb (map fst (sorted_keys group_ce_compare group_ce_key t)).
Proof.
  destruct (aggregate_keys t) as (Hk & _).
  destruct (group_column_of_keys _ _ Hk) as [Hg _].
  destruct (split_groups_facts (aggregate t)) as (Hn & _).
  now rewrite Hn, Hg, unique_map_Some.
Qed.

(** X17.  After the aggregation the groups are charted in ascending order
    of their names (the order of Python's string comparison), whatever
    the order of the rows in the worksheet: the names of the frames of
    the groups, which become the series names, are strictly ascending and
    are exactly the group names of the table that was aggregated.  In the
    categorical script the category labels are strictly ascending in the
    same way and are exactly the categories of the table; the baseline
    category is not moved to the front. *)
Theorem groups_and_categories_are_charted_in_ascending_order :
  forall (t : DataFrame) (c : list CatRow),
    StronglySorted (fun a b => String.compare a b = Lt)
      (map fst (split_groups (aggregate t)))
    /\ (forall g, In g (map fst (split_groups (aggregate t)))
                  <-> exists r, In r t /\ group r = Some g)
    /\ StronglySorted (fun a b => String.compare a b = Lt)
         (map cell_name (column category (cat_aggregate c)))
    /\ (forall g, In g (map cell_name (column category (cat_aggregate c)))
                  <-> exists r, In r c /\ category r = Some g).
Proof.
  intros t c.
  rewrite group_names_of_aggregate.
  destruct (aggregate_keys t) as (_ & Hs).
  destruct (cat_aggregate_keys c) as (Hc & Hsc).
  unfold column. rewrite Hc, map_map. cbn [cell_name]. rewrite map_id.
  split; [|split; [|split]].
  - apply ascending_names_strict.
    + apply unique_sorted. now apply first_components_ascending.
    + apply unique_NoDup, string_eqb_iff.
  - intros g. rewrite (unique_In String.eqb string_eqb_iff), in_map_iff. split.
    + intros ([g' n] & <- & Hk).
      apply (sorted_keys_In group_ce_compare group_ce_key group_ce_compare_eq) in Hk.
      destruct Hk as (r & Hr & Hkey). exists r. split; [exact Hr|].
      unfold group_ce_key in Hkey. destruct (group r); inversion Hkey; subst.
      reflexivity.
    + intros (r & Hr & Hg). exists (g, compute_elements r). split; [reflexivity|].
      apply (sorted_keys_In group_ce_compare group_ce_key group_ce_compare_eq).
      exists r. split; [exact Hr|]. unfold group_ce_key. now rewrite Hg.
  - exact Hsc.
  - intros g. apply (sorted_keys_In String.compare category string_compare_eq).
Qed.

(** X18.  The frames handed to the metric engine by the main block: in
    every frame of the filtered and aggregated table the numbers of
    compute elements are strictly ascending (sorted, none twice), every
    row has the group name of the frame, and at most one row has
    [compute_elements == 1]: the reference row of a group is never
    ambiguous there. *)
Theorem aggregated_frames_are_strictly_ascending :
  forall (filter_column : string) (tbl : DataFrame) (name : string) (df : DataFrame),
    In (name, df) (split_groups (filter_and_aggregate filter_column tbl)) ->
    StronglySorted (fun a b => compute_elements a < compute_elements b) df
    /\ Forall (fun r => group r = Some name) df
    /\ (List.length (loc (fun r => (compute_elements r =? 1)%Z) df) <= 1)%nat.
Proof.
  intros fc tbl name df Hin. unfold filter_and_aggregate in *.
  set (t := apply_filter_column fc (filter_incomplete tbl)) in *.
  destruct (split_groups_facts (aggregate t)) as (_ & _ & Hall & _).
  rewrite Forall_forall in Hall. destruct (Hall _ Hin) as (_ & Hp & Hs).
  cbn [fst snd] in Hp, Hs.
  assert (Hg : Forall (fun r => group r = Some name) df).
  { apply Forall_forall. intros r Hr. apply (Permutation_in _ Hp) in Hr.
    unfold loc in Hr. apply filter_In in Hr. now apply option_string_eqb_eq. }
  split; [|split; [exact Hg | exact (frame_references t name df Hin)]].
  apply StronglySorted_strict; [exact Hs|].
  assert (Hnd : NoDup (map group_ce_key df)).
  { apply (Permutation_NoDup (Permutation_sym (Permutation_map group_ce_key Hp))).
    unfold loc. apply NoDup_map_filter. apply aggregate_NoDup. }
  assert (E : map group_ce_key df
              = map (fun n => Some (name, n)) (map compute_elements df)).
  { rewrite map_map. apply map_ext_in. intros r Hr. rewrite Forall_forall in Hg.
    unfold group_ce_key. now rewrite (Hg r Hr). }
  rewrite E in Hnd. exact (NoDup_map_inv _ _ Hnd).
Qed.

Lemma aggregated_frames_are_strictly_ascending_witness :
  StronglySorted (fun a b => compute_elements a < compute_elements b)
    [ mkRow (Some "A") 1 (F64.of_Z 100) F64.zero;
      mkRow (Some "A") 2 (F64.of_Z 60) F64.zero;
      mkRow (Some "A") 4 (F64.of_Z 20) F64.zero ].
Proof.
  refine (proj1 (aggregated_frames_are_strictly_ascending EmptyString
                   [ mkRow (Some "A") 4 (F64.of_Z 20) F64.zero;
                     mkRow (Some "A") 1 (F64.of_Z 100) F64.zero;
                     mkRow (Some "A") 2 (F64.of_Z 60) F64.zero ] "A" _ _)).
  vm_compute. left. reflexivity.
Defined.
